(** * iniflags: the configuration-merge engine of boomhut/iniflags

    A shallow embedding of [iniflags.go] (the INI-dialect parser, the import
    resolver, the merge engine, the reload path and the dump format) together
    with the properties of its specification.

    Go strings are byte sequences: they are modelled as [string], whose
    characters are the bytes.  The functions of Go's standard library that the
    package calls are modelled in the modules [strings], [utf8] and [flag];
    the file system, the network and a few library functions that the
    properties do not depend on are fields of the records [World] and
    [GoLib]. *)

From Stdlib Require Import String Ascii ZArith List Bool Lia.
From Stdlib Require Import Sorted.
From stdpp Require Import base option list gmap strings fin_maps.

Local Open Scope string_scope.
Local Open Scope Z_scope.

(** ** Bytes and string slices *)

Definition byte (n : nat) : ascii := ascii_of_nat n.

(** The double quote, the line feed and the backslash. *)
Definition dquote : ascii := "034"%char.
Definition LF : ascii := "010"%char.
Definition backslash : ascii := "092"%char.

Definition str (c : ascii) : string := String c EmptyString.

Definition bytes (l : list nat) : string :=
  fold_right (fun n s => String (byte n) s) EmptyString l.

Definition len (s : string) : Z := Z.of_nat (String.length s).

(** [s[i:]] for [0 <= i <= len s]. *)
Fixpoint drop_str (n : nat) (s : string) : string :=
  match n, s with
  | O, _ => s
  | S n', String _ s' => drop_str n' s'
  | S _, EmptyString => EmptyString
  end.

(** [s[:i]] for [0 <= i <= len s]. *)
Fixpoint take_str (n : nat) (s : string) : string :=
  match n, s with
  | O, _ => EmptyString
  | S n', String c s' => String c (take_str n' s')
  | S _, EmptyString => EmptyString
  end.

(** [s[i:j]] for [0 <= i <= j <= len s]; the callers check the bounds. *)
Definition slice (s : string) (i j : Z) : string :=
  take_str (Z.to_nat (j - i)) (drop_str (Z.to_nat i) s).

Fixpoint rev_str (s acc : string) : string :=
  match s with
  | EmptyString => acc
  | String c s' => rev_str s' (String c acc)
  end.

Definition first_byte (s : string) : option ascii :=
  match s with
  | EmptyString => None
  | String c _ => Some c
  end.

(** ** Package [strings] of the Go standard library *)

Module strings.

Definition HasPrefix (s p : string) : bool := String.prefix p s.

Definition HasSuffix (s p : string) : bool :=
  String.prefix (rev_str p "") (rev_str s "").

Fixpoint index_from (i : nat) (s sep : string) : option nat :=
  if String.prefix sep s then Some i
  else match s with
       | EmptyString => None
       | String _ s' => index_from (S i) s' sep
       end.

(** [strings.Index]: the first instance of [sep] in [s], or [-1]. *)
Definition Index (s sep : string) : Z :=
  match index_from 0 s sep with
  | Some i => Z.of_nat i
  | None => -1
  end.

Fixpoint last_index_from (i : nat) (s sep : string) (found : option nat)
  : option nat :=
  let found' := if String.prefix sep s then Some i else found in
  match s with
  | EmptyString => found'
  | String _ s' => last_index_from (S i) s' sep found'
  end.

(** [strings.LastIndex]: the last instance of [sep] in [s], or [-1]. *)
Definition LastIndex (s sep : string) : Z :=
  match last_index_from 0 s sep None with
  | Some i => Z.of_nat i
  | None => -1
  end.

(** [strings.Replace s old new n] for a non-empty [old] (every call of the
    package passes one): the first [n] non-overlapping instances of [old],
    from the left, become [new]; [n < 0] lifts the limit.  [skip] counts the
    bytes of a matched instance that are still to be passed over. *)
Fixpoint replace_from (skip : nat) (n : Z) (s old new : string) : string :=
  match s with
  | EmptyString => EmptyString
  | String c s' =>
      match skip with
      | S k => replace_from k n s' old new
      | O =>
          if negb (n =? 0) && String.prefix old s
          then new ++ replace_from (String.length old - 1) (n - 1) s' old new
          else String c (replace_from O n s' old new)
      end
  end.

Definition Replace (s old new : string) (n : Z) : string :=
  match old with
  | EmptyString => s
  | _ => replace_from O n s old new
  end.

(** [strings.Split s sep] for a non-empty [sep]. *)
Fixpoint split_from (skip : nat) (s sep cur : string) : list string :=
  match s with
  | EmptyString => [cur]
  | String c s' =>
      match skip with
      | S k => split_from k s' sep cur
      | O =>
          if String.prefix sep s
          then cur :: split_from (String.length sep - 1) s' sep EmptyString
          else split_from O s' sep (cur ++ str c)
      end
  end.

Definition Split (s sep : string) : list string := split_from O s sep "".

(** [strings.SplitN s sep n] for a non-empty [sep] and [n >= 0]. *)
Fixpoint SplitN (s sep : string) (n : nat) : list string :=
  match n with
  | O => []
  | S O => [s]
  | S n' =>
      match index_from 0 s sep with
      | None => [s]
      | Some i =>
          take_str i s :: SplitN (drop_str (i + String.length sep) s) sep n'
      end
  end.

Fixpoint contains_byte (c : ascii) (chars : string) : bool :=
  match chars with
  | EmptyString => false
  | String d chars' => Ascii.eqb c d || contains_byte c chars'
  end.

(** [strings.ContainsAny] for a set [chars] of ASCII characters. *)
Fixpoint ContainsAny (s chars : string) : bool :=
  match s with
  | EmptyString => false
  | String c s' => contains_byte c chars || ContainsAny s' chars
  end.

Definition lower_byte (c : ascii) : ascii :=
  let n := nat_of_ascii c in
  if (65 <=? n)%nat && (n <=? 90)%nat then ascii_of_nat (n + 32) else c.

(** [strings.ToLower] on the ASCII letters.  The package only tests the
    result for the prefixes [http://] and [https://]; no other rune has one
    of their letters as its lower case, so the test agrees with Go's. *)
Fixpoint ToLower (s : string) : string :=
  match s with
  | EmptyString => EmptyString
  | String c s' => String (lower_byte c) (ToLower s')
  end.

(** The white space of [unicode.IsSpace]: six ASCII characters, and the
    UTF-8 encodings of U+0085, U+00A0, U+1680, U+2000..U+200A, U+2028,
    U+2029, U+202F, U+205F and U+3000. *)
Definition asciiSpace (c : ascii) : bool :=
  let n := nat_of_ascii c in
  ((9 <=? n)%nat && (n <=? 13)%nat) || (n =? 32)%nat.

Definition unicodeSpaces : list string :=
  map bytes
    [ [194; 133]; [194; 160]; [225; 154; 128];
      [226; 128; 128]; [226; 128; 129]; [226; 128; 130]; [226; 128; 131];
      [226; 128; 132]; [226; 128; 133]; [226; 128; 134]; [226; 128; 135];
      [226; 128; 136]; [226; 128; 137]; [226; 128; 138];
      [226; 128; 168]; [226; 128; 169]; [226; 128; 175];
      [226; 129; 159]; [227; 128; 128] ]%nat.

(** The width of the white-space rune [s] starts with, if it starts with
    one ([toks] are the multi-byte encodings to look for). *)
Definition space_width (toks : list string) (s : string) : option nat :=
  match s with
  | EmptyString => None
  | String c _ =>
      if asciiSpace c then Some 1%nat
      else String.length <$> List.find (fun t => String.prefix t s) toks
  end.

Fixpoint trim_left (fuel : nat) (toks : list string) (s : string) : string :=
  match fuel with
  | O => s
  | S fuel' =>
      match space_width toks s with
      | Some k => trim_left fuel' toks (drop_str k s)
      | None => s
      end
  end.

(** [strings.TrimSpace]: white-space runes are removed from the left, then
    from the right (on the reversed string, with the reversed encodings). *)
Definition TrimSpace (s : string) : string :=
  let l := trim_left (String.length s) unicodeSpaces s in
  let r := rev_str l "" in
  rev_str
    (trim_left (String.length r) (map (fun t => rev_str t "") unicodeSpaces) r)
    "".

End strings.

(** ** Package [unicode/utf8] *)

Module utf8.

Definition cont (c : ascii) : bool :=
  let n := nat_of_ascii c in (128 <=? n)%nat && (n <=? 191)%nat.

Definition between (lo hi : nat) (c : ascii) : bool :=
  let n := nat_of_ascii c in (lo <=? n)%nat && (n <=? hi)%nat.

(** [utf8.ValidString]: no overlong forms, no surrogates, nothing above
    U+10FFFF. *)
Fixpoint ValidString (s : string) : bool :=
  match s with
  | EmptyString => true
  | String c s1 =>
      if between 0 127 c then ValidString s1
      else if between 194 223 c then
        match s1 with
        | String c1 s2 => cont c1 && ValidString s2
        | _ => false
        end
      else if between 224 239 c then
        match s1 with
        | String c1 (String c2 s3) =>
            (if between 224 224 c then between 160 191 c1
             else if between 237 237 c then between 128 159 c1
             else cont c1)
            && cont c2 && ValidString s3
        | _ => false
        end
      else if between 240 244 c then
        match s1 with
        | String c1 (String c2 (String c3 s4)) =>
            (if between 240 240 c then between 144 191 c1
             else if between 244 244 c then between 128 143 c1
             else cont c1)
            && cont c2 && cont c3 && ValidString s4
        | _ => false
        end
      else false
  end.

End utf8.

(** ** Outcomes of a Go call

    A call returns, panics (a run-time panic or [logger.Panicf]), ends the
    process ([os.Exit], [logger.Fatalf]), or, in this model, runs out of the
    fuel that bounds the depth of nested imports. *)

Inductive result (A : Type) : Type :=
| Ok (a : A)
| Panic (msg : string)
| Exit (code : Z)
| Diverge.

Arguments Ok {A} a.
Arguments Panic {A} msg.
Arguments Exit {A} code.
Arguments Diverge {A}.

(** ** Library functions taken as parameters

    [sprintf_q v] is [fmt.Sprintf("%q", v)]; [url_resolve base rel] parses
    both as URLs and resolves [rel] against [base] ([None] when a parse
    fails); [path_join_dir base rel] is [path.Join(path.Dir(base), rel)]. *)

Class GoLib : Type := {
  sprintf_q : string -> string;
  url_resolve : string -> string -> option string;
  path_join_dir : string -> string -> string
}.

(** ** Quoting (iniflags.go, [quoteValue] to [getTrailingComment]) *)

Section Quoting.
Context {lib : GoLib}.

Definition removeTrailingComments (v : string) : string :=
  let v := hd "" (strings.Split v "#") in
  let v := hd "" (strings.Split v ";") in
  strings.TrimSpace v.

Definition getTrailingComment (v : string) : string :=
  match v with
  | EmptyString => ""
  | String c _ =>
      if Ascii.eqb c dquote then ""
      else
        match strings.Split v "#" with
        | _ :: s1 :: _ => s1
        | _ =>
            match strings.Split v ";" with
            | _ :: s1 :: _ => s1
            | _ => ""
            end
        end
  end.

(** [unquoteValue val lineNum configPath]; the last two arguments only feed
    the log.  [v[1:n]] panics when [n < 1]. *)
Definition unquoteValue (val : string) : result (string * string * bool) :=
  let v := strings.TrimSpace val in
  match v with
  | EmptyString => Ok ("", "", true)
  | String c _ =>
      if negb (Ascii.eqb c dquote)
      then Ok (removeTrailingComments v, getTrailingComment v, true)
      else
        let n := strings.LastIndex v (str dquote) in
        if n =? -1 then Ok ("", "", false)
        else if n <? 1 then Panic "slice bounds out of range"
        else
          let v := slice v 1 n in
          let v := strings.Replace v (str backslash ++ str dquote) (str dquote) (-1) in
          let v := strings.Replace v (str backslash ++ "n") (str LF) (-1) in
          let v := strings.Replace v (str backslash ++ str backslash) (str backslash) (-1) in
          let comment :=
            getTrailingComment (strings.Replace val (sprintf_q v) "" 1) in
          Ok (v, comment, true)
  end.

Definition quoteValue (v : string) : string :=
  if negb (strings.ContainsAny v (str LF ++ "#;"))
     && String.eqb (strings.TrimSpace v) v
  then v
  else
    let v := strings.Replace v (str backslash) (str backslash ++ str backslash) (-1) in
    let v := strings.Replace v (str LF) (str backslash ++ "n") (-1) in
    let v := strings.Replace v (str dquote) (str backslash ++ str dquote) (-1) in
    str dquote ++ v ++ str dquote.

(** The characters [escapeUsage] deletes: tab, vertical tab, form feed,
    backspace, alert, backslash, double quote, and the superscript digits
    U+00B2, U+00B3, U+00B9, U+2070, U+2074..U+2079 in UTF-8. *)
Definition stringsToReplace : list string :=
  [ str (byte 9); str (byte 11); str (byte 12); str (byte 8); str (byte 7);
    str backslash; str dquote;
    bytes [194; 178]; bytes [194; 179]; bytes [194; 185];
    bytes [226; 129; 176]; bytes [226; 129; 180]; bytes [226; 129; 181];
    bytes [226; 129; 182]; bytes [226; 129; 183]; bytes [226; 129; 184];
    bytes [226; 129; 185] ]%nat.

Definition escapeUsage (s : string) : string :=
  let s := strings.Replace s (str LF) (str LF ++ "    # ") (-1) in
  fold_left (fun s x => strings.Replace s x "" (-1)) stringsToReplace s.

Definition stripBOM (s : string) : string :=
  if len s <? 3 then s
  else
    let bom := slice s 0 3 in
    if String.eqb bom (bytes [239; 187; 191]%nat)
       || String.eqb bom (bytes [239; 191; 190]%nat)
    then drop_str 3 s
    else s.

Definition isHTTP (path : string) : bool :=
  strings.HasPrefix (strings.ToLower path) "http://"
  || strings.HasPrefix (strings.ToLower path) "https://".

Definition isSecure (path : string) : bool :=
  strings.HasPrefix (strings.ToLower path) "https://".

Definition combinePath (basePath relPath : string) : string * bool :=
  if isHTTP basePath then
    match url_resolve basePath relPath with
    | None => ("", false)
    | Some u => (u, true)
    end
  else
    match relPath with
    | EmptyString => (relPath, true)
    | String c _ =>
        if Ascii.eqb c "/" || isHTTP relPath then (relPath, true)
        else (path_join_dir basePath relPath, true)
    end.

End Quoting.

(** ** Package [flag] of the Go standard library

    The interface [flag.Value] is a type class: [Value_String] is
    [String()], [Value_Set] is [Set(string) error], which updates the value
    in place and returns the error ([None] for [nil]).  A [FlagSet] maps each
    name ([formal]) to its flag and records the names that have been set
    ([actual]); the name of a flag is the key it is stored under, and every
    flag owns its value (no two flags are bound to one variable). *)

Module flag.

Class Value (V : Type) : Type := {
  Value_String : V -> string;
  Value_Set : V -> string -> V * option string
}.

Section FlagSet.
Context {V : Type} {val : Value V}.

Record Flag : Type := { Usage : string; value : V }.

Record FlagSet : Type := {
  formal : gmap string Flag;
  actual : gset string
}.

Definition Lookup (fs : FlagSet) (name : string) : option Flag :=
  formal fs !! name.

(** [f.Value.String()]. *)
Definition String_of (f : Flag) : string := Value_String (value f).

(** [f.Value.Set(s)] for the flag [f] registered as [name]. *)
Definition Value_Set_at (fs : FlagSet) (name : string) (f : Flag) (s : string)
  : FlagSet * option string :=
  let '(v', err) := Value_Set (value f) s in
  ({| formal := <[name := {| Usage := Usage f; value := v' |}]> (formal fs);
      actual := actual fs |}, err).

(** [flag.Set(name, value)]: an unknown name and a rejected value are
    errors; otherwise the flag is recorded as set. *)
Definition Set_ (fs : FlagSet) (name s : string) : FlagSet * option string :=
  match Lookup fs name with
  | None => (fs, Some ("no such flag -" ++ name))
  | Some f =>
      let '(fs', err) := Value_Set_at fs name f s in
      match err with
      | Some e => (fs', Some e)
      | None =>
          ({| formal := formal fs'; actual := {[ name ]} ∪ actual fs' |}, None)
      end
  end.

Fixpoint insert_sorted (x : string * Flag) (l : list (string * Flag))
  : list (string * Flag) :=
  match l with
  | [] => [x]
  | y :: l' =>
      if String.leb (fst x) (fst y) then x :: l else y :: insert_sorted x l'
  end.

(** [sortFlags]: the flags in lexicographical order of their names. *)
Definition sortFlags (l : list (string * Flag)) : list (string * Flag) :=
  fold_right insert_sorted [] l.

(** [flag.VisitAll] and [flag.Visit], as the sequence of flags visited. *)
Definition VisitAll (fs : FlagSet) : list (string * Flag) :=
  sortFlags (map_to_list (formal fs)).

Definition Visit (fs : FlagSet) : list (string * Flag) :=
  List.filter (fun x => bool_decide (fst x ∈ actual fs)) (VisitAll fs).

End FlagSet.
Arguments Flag V : clear implicits.
Arguments FlagSet V : clear implicits.
End flag.

(** ** The outside world of one pass

    A reader delivers the bytes of [content] and then ends with [io.EOF] or
    with another error.  [os_Open] and [http_Get] return [None] on error. *)

Inductive readEnd : Type := EOF | ReadError.

Record File : Type := { content : string; ending : readEnd }.

Record Response : Type := { StatusCode : Z; Body : File }.

Record World : Type := {
  os_Open : string -> option File;
  http_Get : string -> option Response
}.

(** ** Package state

    The package-level variables of iniflags.go, with [flag.CommandLine],
    [os.Args], the standard output and the sequence of callbacks invoked.
    A [FlagChangeCallback] is an opaque closure, named here by a number. *)

Definition FlagChangeCallback : Type := nat.

Section Engine.
Context {V : Type} {val : flag.Value V}.

Record State : Type := {
  CommandLine : flag.FlagSet V;
  os_Args : list string;
  flagsToExcludeFromDump : gmap string bool;
  flagChangeCallbacks : gmap string (list FlagChangeCallback);
  importStack : list string;
  parsed : bool;
  flagShorthands : gmap string string;
  commandLineShorthands : gmap string bool;
  Generation : Z;
  stdout : string;
  invoked : list FlagChangeCallback
}.

Definition with_CommandLine (st : State) (fs : flag.FlagSet V) : State :=
  {| CommandLine := fs; os_Args := os_Args st;
     flagsToExcludeFromDump := flagsToExcludeFromDump st;
     flagChangeCallbacks := flagChangeCallbacks st;
     importStack := importStack st; parsed := parsed st;
     flagShorthands := flagShorthands st;
     commandLineShorthands := commandLineShorthands st;
     Generation := Generation st; stdout := stdout st;
     invoked := invoked st |}.

Definition with_os_Args (st : State) (a : list string) : State :=
  {| CommandLine := CommandLine st; os_Args := a;
     flagsToExcludeFromDump := flagsToExcludeFromDump st;
     flagChangeCallbacks := flagChangeCallbacks st;
     importStack := importStack st; parsed := parsed st;
     flagShorthands := flagShorthands st;
     commandLineShorthands := commandLineShorthands st;
     Generation := Generation st; stdout := stdout st;
     invoked := invoked st |}.

Definition with_importStack (st : State) (s : list string) : State :=
  {| CommandLine := CommandLine st; os_Args := os_Args st;
     flagsToExcludeFromDump := flagsToExcludeFromDump st;
     flagChangeCallbacks := flagChangeCallbacks st;
     importStack := s; parsed := parsed st;
     flagShorthands := flagShorthands st;
     commandLineShorthands := commandLineShorthands st;
     Generation := Generation st; stdout := stdout st;
     invoked := invoked st |}.

Definition with_parsed (st : State) (b : bool) : State :=
  {| CommandLine := CommandLine st; os_Args := os_Args st;
     flagsToExcludeFromDump := flagsToExcludeFromDump st;
     flagChangeCallbacks := flagChangeCallbacks st;
     importStack := importStack st; parsed := b;
     flagShorthands := flagShorthands st;
     commandLineShorthands := commandLineShorthands st;
     Generation := Generation st; stdout := stdout st;
     invoked := invoked st |}.

Definition with_Generation (st : State) (g : Z) : State :=
  {| CommandLine := CommandLine st; os_Args := os_Args st;
     flagsToExcludeFromDump := flagsToExcludeFromDump st;
     flagChangeCallbacks := flagChangeCallbacks st;
     importStack := importStack st; parsed := parsed st;
     flagShorthands := flagShorthands st;
     commandLineShorthands := commandLineShorthands st;
     Generation := g; stdout := stdout st;
     invoked := invoked st |}.

Definition with_stdout (st : State) (out : string) : State :=
  {| CommandLine := CommandLine st; os_Args := os_Args st;
     flagsToExcludeFromDump := flagsToExcludeFromDump st;
     flagChangeCallbacks := flagChangeCallbacks st;
     importStack := importStack st; parsed := parsed st;
     flagShorthands := flagShorthands st;
     commandLineShorthands := commandLineShorthands st;
     Generation := Generation st; stdout := out;
     invoked := invoked st |}.

Definition with_invoked (st : State) (l : list FlagChangeCallback) : State :=
  {| CommandLine := CommandLine st; os_Args := os_Args st;
     flagsToExcludeFromDump := flagsToExcludeFromDump st;
     flagChangeCallbacks := flagChangeCallbacks st;
     importStack := importStack st; parsed := parsed st;
     flagShorthands := flagShorthands st;
     commandLineShorthands := commandLineShorthands st;
     Generation := Generation st; stdout := stdout st;
     invoked := l |}.

(** The flags the package defines are read through the registry: [*config]
    is what the [stringValue] behind flag [config] prints, and a [*bool] is
    true when its [boolValue] prints [true]. *)
Definition deref_string (fs : flag.FlagSet V) (name : string) : string :=
  match flag.Lookup fs name with
  | Some f => flag.String_of f
  | None => ""
  end.

Definition deref_bool (fs : flag.FlagSet V) (name : string) : bool :=
  String.eqb (deref_string fs name) "true".

(** A state transformer that may panic, exit or run out of fuel. *)
Definition M (A : Type) : Type := State -> result A * State.

Definition ret {A} (a : A) : M A := fun st => (Ok a, st).

Definition bind {A B} (m : M A) (k : A -> M B) : M B :=
  fun st =>
    match m st with
    | (Ok a, st') => k a st'
    | (Panic msg, st') => (Panic msg, st')
    | (Exit c, st') => (Exit c, st')
    | (Diverge, st') => (Diverge, st')
    end.

Definition get : M State := fun st => (Ok st, st).
Definition put (st : State) : M unit := fun _ => (Ok tt, st).
Definition panic {A} (msg : string) : M A := fun st => (Panic msg, st).
Definition exit {A} (code : Z) : M A := fun st => (Exit code, st).
Definition lift {A} (r : result A) : M A := fun st => (r, st).

(** [defer d] around [m]: [d] runs when [m] is left, whatever its outcome. *)
Definition defer {A} (d : State -> State) (m : M A) : M A :=
  fun st => let '(r, st') := m st in (r, d st').

End Engine.

Arguments State V : clear implicits.

Declare Scope go_scope.
Delimit Scope go_scope with go.
Notation "'let*' x ':=' m 'in' k" := (bind m (fun x => k))
  (at level 10, x name, m at level 100, k at level 200, only parsing)
  : go_scope.
Notation "'let*' ' p ':=' m 'in' k" := (bind m (fun x => let 'p := x in k))
  (at level 10, p pattern, m at level 100, k at level 200, only parsing)
  : go_scope.

(** [flag.Parse()], which reads [os.Args[1:]] into [flag.CommandLine] and
    may end the process (a usage error, [-help]), is a parameter. *)
Class CommandLineParser (V : Type) : Type := {
  flag_Parse : list string -> flag.FlagSet V -> result (flag.FlagSet V)
}.

(** ** The INI parser (iniflags.go, [getArgsFromConfig]) *)

Record flagArg : Type := {
  Key : string;
  Value : string;
  FilePath : string;
  LineNum : Z;
  Comment : string
}.

Definition noFlagArg : flagArg :=
  {| Key := ""; Value := ""; FilePath := ""; LineNum := 0; Comment := "" |}.

(** The local variables of the read loop. *)
Record locals : Type := {
  lineNum : Z;
  comment : string;
  multilineFA : flagArg;
  args : list flagArg
}.

Inductive control (A R : Type) : Type :=
| Continue (a : A)
| Return (r : R).

Arguments Continue {A R} a.
Arguments Return {A R} r.

(** [n++] on a Go [int] of 64 bits. *)
Definition incr64 (n : Z) : Z := (n + 1 + 2 ^ 63) mod 2 ^ 64 - 2 ^ 63.

(** The successive non-empty results of [r.ReadString('\n')]. *)
Fixpoint readLines (s cur : string) : list string :=
  match s with
  | EmptyString => match cur with EmptyString => [] | _ => [cur] end
  | String c s' =>
      if Ascii.eqb c LF then (cur ++ str LF) :: readLines s' ""
      else readLines s' (cur ++ str c)
  end.

Section Parser.
Context {V : Type} {val : flag.Value V} {lib : GoLib}.

Local Open Scope go_scope.

Definition checkImportRecursion (st : State V) (configPath : string) : bool :=
  forallb (fun path => negb (String.eqb path configPath)) (importStack st).

(** [openConfigFile]: the reader and the error it returns. *)
Definition openConfigFile (w : World) (st : State V) (path : string)
  : option File * option string :=
  if isHTTP path then
    let fetched :=
      if isSecure path then Some (http_Get w path)
      else if negb (deref_bool (CommandLine st) "unsecure") then None
           else Some (http_Get w path) in
    match fetched with
    | None => (None, Some "unsecure communication is not allowed")
    | Some None => (None, Some "Get failed")
    | Some (Some resp) =>
        let err : option string := None in
        if negb (StatusCode resp =? 200) then (None, err)
        else (Some (Body resp), None)
    end
  else
    match os_Open w path with
    | None => (None, Some "open failed")
    | Some file => (Some file, None)
    end.

(** Lines 462 to 495 of the loop body: what becomes of the directive [fa]
    read under [key]. *)
Definition joinDirective (p : locals) (key value : string) (fa : flagArg)
  : control locals (list flagArg * bool) :=
  let m := multilineFA p in
  if negb (strings.HasSuffix key "}") then
    let '(args1, m1) :=
      if 0 <? len (Key m) then ((args p ++ [m])%list, noFlagArg) else (args p, m) in
    Continue {| lineNum := lineNum p; comment := ""; multilineFA := m1;
                args := (args1 ++ [fa])%list |}
  else
    let n := strings.LastIndex key "{" in
    if n <? 0 then Return ([], false)
    else
      let started :=
        {| Key := slice key 0 n; Value := Value fa; FilePath := FilePath fa;
           LineNum := LineNum fa; Comment := Comment fa |} in
      if String.eqb (Key m) "" then
        Continue {| lineNum := lineNum p; comment := ""; multilineFA := started;
                    args := args p |}
      else if String.eqb (Key m) (slice key 0 n) then
        let delimiter := slice key (n + 1) (len key - 1) in
        Continue {| lineNum := lineNum p; comment := "";
                    multilineFA :=
                      {| Key := Key m; Value := Value m ++ delimiter ++ value;
                         FilePath := FilePath m; LineNum := LineNum m;
                         Comment := Comment m |};
                    args := args p |}
      else
        Continue {| lineNum := lineNum p; comment := ""; multilineFA := started;
                    args := (args p ++ [m])%list |}.

(** One turn of the loop on a line that was read; [lineNum p] is its number
    and [getArgs] the recursive call for an import. *)
Definition parseLine (getArgs : string -> M (V:=V) (list flagArg * bool))
    (configPath : string) (p : locals) (line : string)
  : M (V:=V) (control locals (list flagArg * bool)) :=
  if negb (utf8.ValidString line) then ret (Return ([], false))
  else
    let line := if lineNum p =? 1 then stripBOM line else line in
    let line := strings.TrimSpace line in
    if strings.HasPrefix line "#import " then
      let* '(importPath, _, ok) := lift (unquoteValue (drop_str 7 line)) in
      if negb ok then ret (Return ([], false))
      else
        let '(importPath, ok) := combinePath configPath importPath in
        if negb ok then ret (Return ([], false))
        else
          let* '(importArgs, ok) := getArgs importPath in
          if negb ok then ret (Return ([], false))
          else ret (Continue {| lineNum := lineNum p; comment := comment p;
                                multilineFA := multilineFA p;
                                args := (args p ++ importArgs)%list |})
    else
      match line with
      | EmptyString =>
          ret (Continue {| lineNum := lineNum p; comment := "";
                           multilineFA := multilineFA p; args := args p |})
      | String c rest =>
          if Ascii.eqb c "[" then
            ret (Continue {| lineNum := lineNum p; comment := "";
                             multilineFA := multilineFA p; args := args p |})
          else if Ascii.eqb c "#" || Ascii.eqb c ";" then
            ret (Continue {| lineNum := lineNum p; comment := rest;
                             multilineFA := multilineFA p; args := args p |})
          else
            match strings.SplitN line "=" 2 with
            | [part0; part1] =>
                let key := strings.TrimSpace part0 in
                let* '(value, cmt, ok) := lift (unquoteValue part1) in
                if negb ok then ret (Return ([], false))
                else
                  let comment :=
                    if String.eqb (comment p) "" then cmt else comment p in
                  let fa :=
                    {| Key := key; Value := value; FilePath := configPath;
                       LineNum := lineNum p; Comment := comment |} in
                  ret (joinDirective p key value fa)
            | _ => ret (Return ([], false))
            end
      end.

(** The read loop over the lines that are left. *)
Fixpoint readLoop (getArgs : string -> M (V:=V) (list flagArg * bool))
    (configPath : string) (ending : readEnd) (lines : list string) (p : locals)
  : M (V:=V) (list flagArg * bool) :=
  let p := {| lineNum := incr64 (lineNum p); comment := comment p;
              multilineFA := multilineFA p; args := args p |} in
  match lines with
  | [] =>
      match ending with
      | EOF =>
          if 0 <? len (Key (multilineFA p))
          then ret ((args p ++ [multilineFA p])%list, true)
          else ret (args p, true)
      | ReadError => ret ([], false)
      end
  | line :: lines' =>
      let* c := parseLine getArgs configPath p line in
      match c with
      | Continue p' => readLoop getArgs configPath ending lines' p'
      | Return r => ret r
      end
  end.

Definition push (configPath : string) (st : State V) : State V :=
  with_importStack st (importStack st ++ [configPath])%list.

Definition pop (st : State V) : State V :=
  with_importStack st (removelast (importStack st)).

(** [getArgsFromConfig]; [fuel] bounds the depth of nested imports. *)
Fixpoint getArgsFromConfig (fuel : nat) (w : World) (configPath : string)
  : M (V:=V) (list flagArg * bool) :=
  match fuel with
  | O => lift Diverge
  | S fuel' =>
      let* st := get in
      if negb (checkImportRecursion st configPath) then ret ([], false)
      else
        let* _ := put (push configPath st) in
        defer pop
          (let* st := get in
           let '(file, err) := openConfigFile w st configPath in
           match err with
           | Some _ => ret ([], deref_bool (CommandLine st) "allowMissingConfig")
           | None =>
               match file with
               | None => panic "invalid memory address or nil pointer dereference"
               | Some f =>
                   readLoop (getArgsFromConfig fuel' w) configPath (ending f)
                     (readLines (content f) "")
                     {| lineNum := 0; comment := ""; multilineFA := noFlagArg;
                        args := [] |}
               end
           end)
  end.

Definition ReadIniFile (fuel : nat) (w : World) (iniFilePath : string)
  : M (V:=V) (list flagArg * bool) :=
  getArgsFromConfig fuel w iniFilePath.

End Parser.

(** ** The merge engine (iniflags.go, [parseConfigFlags]) *)

Section Merge.
Context {V : Type} {val : flag.Value V} {lib : GoLib}.

Local Open Scope go_scope.

(** [getMissingFlags]: the registered flags that [flag.Visit] does not
    visit.  Both Go maps only hold [true], so they are sets of names. *)
Definition getMissingFlags (fs : flag.FlagSet V) : gset string :=
  let setFlags : gset string := list_to_set (map fst (flag.Visit fs)) in
  list_to_set
    (List.filter (fun name => negb (bool_decide (name ∈ setFlags)))
       (map fst (flag.VisitAll fs))).

(** The variables one turn of the merge loop changes: the registry,
    [oldFlagValues] and [ok]. *)
Definition merging : Type := flag.FlagSet V * gmap string string * bool.

(** One turn of the loop over [parsedArgs]. *)
Definition mergeArg (shorthands : gmap string string)
    (missingFlags : gset string) (acc : merging) (arg : flagArg) : merging :=
  let '(fs, oldFlagValues, ok) := acc in
  let '(f, key) :=
    match flag.Lookup fs (Key arg) with
    | Some f => (Some f, Key arg)
    | None =>
        match shorthands !! Key arg with
        | Some fullName => (flag.Lookup fs fullName, fullName)
        | None => (None, Key arg)
        end
    end in
  match f with
  | None =>
      if negb (deref_bool fs "allowUnknownFlags")
      then (fs, oldFlagValues, false)
      else (fs, oldFlagValues, ok)
  | Some f =>
      if bool_decide (key ∈ missingFlags) then
        let oldValue := flag.String_of f in
        if String.eqb oldValue (Value arg) then (fs, oldFlagValues, ok)
        else
          let '(fs', err) := flag.Value_Set_at fs key f (Value arg) in
          match err with
          | Some _ => (fs', oldFlagValues, false)
          | None =>
              if negb (String.eqb oldValue (deref_string fs' key))
              then (fs', <[key := oldValue]> oldFlagValues, ok)
              else (fs', oldFlagValues, ok)
          end
      else (fs, oldFlagValues, ok)
  end.

Definition mergeArgs (shorthands : gmap string string)
    (missingFlags : gset string) (parsedArgs : list flagArg) (acc : merging)
  : merging :=
  fold_left (mergeArg shorthands missingFlags) parsedArgs acc.

(** The loop that restores the old flag values with [flag.Set]. *)
Definition restore (oldFlagValues : gmap string string) (fs : flag.FlagSet V)
  : flag.FlagSet V :=
  map_fold (fun k v fs => fst (flag.Set_ fs k v)) fs oldFlagValues.

(** The first lines of [parseConfigFlags]: the path of the config file. *)
Definition resolveConfig (st : State V) : string * bool :=
  let config := deref_string (CommandLine st) "config" in
  if negb (strings.HasPrefix config "./")
  then combinePath (hd "" (os_Args st)) config
  else (config, true).

(** [parseConfigFlags]; the empty map stands for [nil]. *)
Definition parseConfigFlags (fuel : nat) (w : World)
  : M (V:=V) (gmap string string * bool) :=
  let* st := get in
  let '(configPath, ok) := resolveConfig st in
  if negb ok then ret (∅, false)
  else if String.eqb configPath "" then ret (∅, true)
  else
    let* '(parsedArgs, ok) := getArgsFromConfig fuel w configPath in
    if negb ok then ret (∅, false)
    else
      let* st := get in
      let missingFlags := getMissingFlags (CommandLine st) in
      let '(fs, oldFlagValues, ok) :=
        mergeArgs (flagShorthands st) missingFlags parsedArgs
          (CommandLine st, ∅, true) in
      if negb ok then
        let* _ := put (with_CommandLine st (restore oldFlagValues fs)) in
        ret (∅, false)
      else
        let* _ := put (with_CommandLine st fs) in
        ret (oldFlagValues, true).

(** ** Dump format *)

Definition dumpLine (name : string) (f : flag.Flag V) : string :=
  name ++ " = " ++ quoteValue (flag.String_of f) ++ "  # "
       ++ escapeUsage (flag.Usage f) ++ str LF.

Definition dumpFlags : M (V:=V) unit :=
  let* st := get in
  let out :=
    fold_left
      (fun out x =>
         match flagsToExcludeFromDump st !! fst x with
         | Some _ => out
         | None => out ++ dumpLine (fst x) (snd x)
         end)
      (flag.VisitAll (CommandLine st)) "" in
  put (with_stdout st (stdout st ++ out)).

(** ** Change notification *)

Definition issueFlagChangeCallbacks (oldFlagValues : gmap string string)
  : M (V:=V) unit :=
  let* st := get in
  let fs :=
    concat (map (fun kv => default [] (flagChangeCallbacks st !! fst kv))
              (map_to_list oldFlagValues)) in
  put (with_invoked st (invoked st ++ fs)%list).

Definition issueAllFlagChangeCallbacks : M (V:=V) unit :=
  let* st := get in
  let fs := concat (map snd (map_to_list (flagChangeCallbacks st))) in
  put (with_invoked st (invoked st ++ fs)%list).

Definition verifyFlagChangeFlagName (flagName : string) : M (V:=V) unit :=
  let* st := get in
  match flag.Lookup (CommandLine st) flagName with
  | None => exit 1
  | Some _ => ret tt
  end.

Fixpoint verifyAll (names : list string) : M (V:=V) unit :=
  match names with
  | [] => ret tt
  | flagName :: names' =>
      let* _ := verifyFlagChangeFlagName flagName in verifyAll names'
  end.

(** ** Generation and reload *)

Definition bumpGeneration : M (V:=V) unit :=
  let* st := get in put (with_Generation st (incr64 (Generation st))).

Definition updateConfig (fuel : nat) (w : World) : M (V:=V) unit :=
  let* '(oldFlagValues, ok) := parseConfigFlags fuel w in
  if ok && (0 <? Z.of_nat (size oldFlagValues)) then
    let* _ := bumpGeneration in
    issueFlagChangeCallbacks oldFlagValues
  else ret tt.

(** ** Command-line shorthands and [Parse] *)

Fixpoint rewriteArgs (shorthands : gmap string string)
    (cmdline : gmap string bool) (osArgs : list string) : list string :=
  match osArgs with
  | [] => []
  | arg :: rest =>
      if (1 <? len arg) && bool_decide (first_byte arg = Some "-"%char)
         && negb (strings.HasPrefix arg "--")
      then
        let shortName := drop_str 1 arg in
        let pos := strings.Index shortName "=" in
        let '(shortName, value, hasValue) :=
          if 0 <=? pos
          then (slice shortName 0 pos, drop_str (Z.to_nat pos) shortName, true)
          else (shortName, "", false) in
        match shorthands !! shortName with
        | Some fullName =>
            if default false (cmdline !! shortName) then
              if hasValue
              then ("-" ++ fullName ++ value) :: rewriteArgs shorthands cmdline rest
              else
                match rest with
                | next :: rest' =>
                    if negb (strings.HasPrefix next "-")
                    then ("-" ++ fullName) :: next
                           :: rewriteArgs shorthands cmdline rest'
                    else ("-" ++ fullName) :: rewriteArgs shorthands cmdline rest
                | [] => [("-" ++ fullName)]
                end
            else arg :: rewriteArgs shorthands cmdline rest
        | None => arg :: rewriteArgs shorthands cmdline rest
        end
      else arg :: rewriteArgs shorthands cmdline rest
  end.

Definition handleCommandLineShorthands : M (V:=V) unit :=
  let* st := get in
  if Z.of_nat (size (commandLineShorthands st)) =? 0 then ret tt
  else
    match os_Args st with
    | [] => panic "index out of range"
    | arg0 :: rest =>
        put (with_os_Args st
               (arg0 :: rewriteArgs (flagShorthands st)
                          (commandLineShorthands st) rest))
    end.

Context {cmd : CommandLineParser V}.

(** [Parse], up to the start of the two reloading goroutines; each reload
    they trigger is one call of [updateConfig]. *)
Definition Parse (fuel : nat) (w : World) : M (V:=V) unit :=
  let* st := get in
  if parsed st then panic "iniflags: duplicate call to iniflags.Parse() detected"
  else
    let* _ := handleCommandLineShorthands in
    let* st := get in
    let* _ := put (with_parsed st true) in
    let* st := get in
    let* fs := lift (flag_Parse (tl (os_Args st)) (CommandLine st)) in
    let* _ := put (with_CommandLine st fs) in
    let* '(_, ok) := parseConfigFlags fuel w in
    if negb ok then exit 1
    else
      let* st := get in
      if deref_bool (CommandLine st) "dumpflags" then
        let* _ := dumpFlags in exit 0
      else
        let* _ := verifyAll (map fst (map_to_list (flagChangeCallbacks st))) in
        let* _ := bumpGeneration in
        issueAllFlagChangeCallbacks.

End Merge.

(** ** Go's built-in flag values and a library instance

    [stringValue] and [boolValue] of package [flag]: a string flag accepts
    every value; a bool flag stores the result of [strconv.ParseBool], which
    is [false] when the text does not parse, and returns the parse error. *)

Inductive builtin : Type :=
| stringValue (s : string)
| boolValue (b : bool).

Definition ParseBool (s : string) : bool * option string :=
  if existsb (String.eqb s) ["1"; "t"; "T"; "TRUE"; "true"; "True"]
  then (true, None)
  else if existsb (String.eqb s) ["0"; "f"; "F"; "FALSE"; "false"; "False"]
       then (false, None)
       else (false, Some "parse error").

#[export] Instance builtin_Value : flag.Value builtin := {|
  flag.Value_String v :=
    match v with
    | stringValue s => s
    | boolValue b => if b then "true" else "false"
    end;
  flag.Value_Set v s :=
    match v with
    | stringValue _ => (stringValue s, None)
    | boolValue _ => let '(b, err) := ParseBool s in (boolValue b, err)
    end
|}.

(** [%q] on printable ASCII text and line feeds. *)
Definition quoteASCII (v : string) : string :=
  let v := strings.Replace v (str backslash) (str backslash ++ str backslash) (-1) in
  let v := strings.Replace v (str dquote) (str backslash ++ str dquote) (-1) in
  let v := strings.Replace v (str LF) (str backslash ++ "n") (-1) in
  str dquote ++ v ++ str dquote.

(** The library as the examples need it: they use printable ASCII and
    absolute local paths, which [combinePath] returns as they are. *)
#[export] Instance exampleLib : GoLib := {|
  sprintf_q := quoteASCII;
  url_resolve base rel := if isHTTP rel then Some rel else None;
  path_join_dir base rel := rel
|}.

(** The part of [flag.Parse] that reads arguments of the form
    [-name=value]; anything else ends the process with status 2. *)
Fixpoint parseAssignments (osArgs : list string) (fs : flag.FlagSet builtin)
  : result (flag.FlagSet builtin) :=
  match osArgs with
  | [] => Ok fs
  | arg :: rest =>
      match arg, strings.SplitN (drop_str 1 arg) "=" 2 with
      | String "-" _, [name; v] =>
          match flag.Set_ fs name v with
          | (fs', None) => parseAssignments rest fs'
          | (_, Some _) => Exit 2
          end
      | _, _ => Exit 2
      end
  end.

#[export] Instance exampleParser : CommandLineParser builtin := {|
  flag_Parse := parseAssignments
|}.

(** The flags iniflags.go defines, with their default values, but for
    [configUpdateInterval], a duration that only the reload timer reads. *)
Definition ownFlags : list (string * flag.Flag builtin) :=
  [ ("allowUnknownFlags", {| flag.Usage := "Don't terminate the application if ini file contains unknown flags."; flag.value := boolValue false |});
    ("allowMissingConfig", {| flag.Usage := "Don't terminate the application if the ini file cannot be read."; flag.value := boolValue false |});
    ("config", {| flag.Usage := "Path to ini config. May be relative to the current executable path."; flag.value := stringValue "" |});
    ("dumpflags", {| flag.Usage := "Dumps values for all flags defined in the application into stdout in ini-compatible syntax and terminates the app."; flag.value := boolValue false |});
    ("unsecure", {| flag.Usage := "Allow unsecure communication with the server when loading config file via http."; flag.value := boolValue false |}) ].

Definition ownExcluded : gmap string bool :=
  list_to_map
    [ ("config", true); ("dumpflags", true); ("allowUnknownFlags", true);
      ("allowMissingConfig", true); ("configUpdateInterval", true);
      ("unsecure", true) ].

Definition stringFlag (name v : string) : string * flag.Flag builtin :=
  (name, {| flag.Usage := "usage of " ++ name; flag.value := stringValue v |}).

(** A process whose flags are [ownFlags] and [flags], started with
    [-config=configPath] and with the flags named in [given] on the command
    line, after [flag.Parse]. *)
Definition started (configPath : string)
    (flags : list (string * flag.Flag builtin)) (given : list string)
  : State builtin :=
  {| CommandLine :=
       {| flag.formal :=
            <["config" := {| flag.Usage := "Path to ini config. May be relative to the current executable path."; flag.value := stringValue configPath |}]>
              (list_to_map (ownFlags ++ flags)%list);
          flag.actual := {[ "config" ]} ∪ list_to_set given |};
     os_Args := ["/bin/app"; "-config=" ++ configPath];
     flagsToExcludeFromDump := ownExcluded;
     flagChangeCallbacks := ∅;
     importStack := [];
     parsed := true;
     flagShorthands := ∅;
     commandLineShorthands := ∅;
     Generation := 0;
     stdout := "";
     invoked := [] |}.

(** A file system of complete, readable files; no network. *)
Definition disk (files : list (string * string)) : World :=
  {| os_Open path :=
       (fun c => {| content := c; ending := EOF |})
         <$> (list_to_map files : gmap string string) !! path;
     http_Get _ := None |}.

Definition lines (l : list string) : string :=
  fold_right (fun x s => x ++ str LF ++ s) "" l.

Definition quoted (s : string) : string := str dquote ++ s ++ str dquote.

(** ** Notions used to state the properties *)

Section Notions.
Context {V : Type} {val : flag.Value V} {lib : GoLib}.

Local Open Scope go_scope.

(** [m] changes no package variable. *)
Definition readonly {A} (m : M (V:=V) A) : Prop := forall st, snd (m st) = st.

(** The invariant of the merge loop, relative to the registry [fs0] the
    pass started from: flags outside [missingFlags] are as in [fs0], no flag
    has been marked as set, and every saved name is a missing, registered
    flag. *)
Definition merge_inv (missingFlags : gset string) (fs0 : flag.FlagSet V)
    (acc : merging (V:=V)) : Prop :=
  let '(fs, oldFlagValues, _) := acc in
  (forall name, name ∉ missingFlags ->
     flag.Lookup fs name = flag.Lookup fs0 name)
  /\ flag.actual fs = flag.actual fs0
  /\ (forall name, is_Some (oldFlagValues !! name) ->
        name ∈ missingFlags /\ is_Some (flag.Lookup fs name)).

(** A sequence of reloads, each with its own fuel and outside world. *)
Definition reloads (ws : list (nat * World)) (st : State V) : State V :=
  fold_left (fun st fw => snd (updateConfig (fst fw) (snd fw) st)) ws st.

(** From a state where [Generation] is [g], [m] does not touch it. *)
Definition keeps_generation {A} (g : Z) (m : M (V:=V) A) : Prop :=
  forall st, Generation st = g -> Generation (snd (m st)) = g.

(** From such a state, [m] runs [Generation++] once if it returns, and not
    at all if it does not. *)
Definition bumps_once {A} (g : Z) (m : M (V:=V) A) : Prop :=
  forall st, Generation st = g ->
    Generation (snd (m st))
    = match fst (m st) with
      | Ok _ => incr64 g
      | _ => g
      end.

(** The parts of a multi-line key [base{delim}]. *)
Definition multilineKey (base delim : string) : string :=
  base ++ "{" ++ delim ++ "}".

(** The file a line imports when it is line [n] of [configPath]: the
    tests [parseLine] makes before it calls [getArgsFromConfig] again. *)
Definition importTarget (configPath : string) (n : Z) (line : string)
  : option string :=
  if utf8.ValidString line then
    let line := if n =? 1 then stripBOM line else line in
    let line := strings.TrimSpace line in
    if strings.HasPrefix line "#import " then
      match unquoteValue (drop_str 7 line) with
      | Ok (importPath, _, true) =>
          match combinePath configPath importPath with
          | (target, true) => Some target
          | _ => None
          end
      | _ => None
      end
    else None
  else None.

Definition nextLine (p : locals) : locals :=
  {| lineNum := incr64 (lineNum p); comment := comment p;
     multilineFA := multilineFA p; args := args p |}.

(** The turns of the read loop on the lines [pre], when more lines follow. *)
Fixpoint runLines (getArgs : string -> M (V:=V) (list flagArg * bool))
    (configPath : string) (pre : list string) (p : locals)
  : M (V:=V) (control locals (list flagArg * bool)) :=
  match pre with
  | [] => ret (Continue p)
  | line :: pre' =>
      let* c := parseLine getArgs configPath (nextLine p) line in
      match c with
      | Continue p' => runLines getArgs configPath pre' p'
      | Return r => ret (Return r)
      end
  end.

Definition spliced (p : locals) (importArgs : list flagArg) : locals :=
  {| lineNum := lineNum p; comment := comment p; multilineFA := multilineFA p;
     args := (args p ++ importArgs)%list |}.

(** The source of the README: four lines for the multi-line flag [m]. *)
Definition multilineSource : string :=
  lines ["m{,}=line1"; "m{,}=line2"; "m{|}=line3"; "m{}=line4"].

Definition startLocals : locals :=
  {| lineNum := 0; comment := ""; multilineFA := noFlagArg; args := [] |}.

Definition withKey (fa : flagArg) (key : string) : flagArg :=
  {| Key := key; Value := Value fa; FilePath := FilePath fa;
     LineNum := LineNum fa; Comment := Comment fa |}.

Definition withValue (fa : flagArg) (v : string) : flagArg :=
  {| Key := Key fa; Value := v; FilePath := FilePath fa;
     LineNum := LineNum fa; Comment := Comment fa |}.

End Notions.

(** The two files of the README's import example. *)
Definition baseIni : string := lines ["flag1 = value1"; "flag2 = value2"].
Definition devIni : string :=
  lines ["#import " ++ quoted "/base.ini"; "flag2 = foobar"].

(** A server that answers every request with status 404. *)
Definition notFound : World :=
  {| os_Open _ := None;
     http_Get _ := Some {| StatusCode := 404;
                           Body := {| content := "not found"; ending := EOF |} |} |}.

(** A directive for the flag [a] followed by one for an unknown key. *)
Definition failingArgs : list flagArg :=
  [ {| Key := "a"; Value := "1"; FilePath := "/a.ini"; LineNum := 1;
       Comment := "" |};
    {| Key := "zzz"; Value := "3"; FilePath := "/a.ini"; LineNum := 2;
       Comment := "" |} ].

(** ** Registration (iniflags.go, [OnFlagChange], [RegisterShorthand],
    [RegisterCommandLineShorthand], [ExcludeFlagFromDump]) *)

Section Registration.
Context {V : Type} {val : flag.Value V}.

Local Open Scope go_scope.

Definition with_flagShorthands (st : State V) (m : gmap string string)
  : State V :=
  {| CommandLine := CommandLine st; os_Args := os_Args st;
     flagsToExcludeFromDump := flagsToExcludeFromDump st;
     flagChangeCallbacks := flagChangeCallbacks st;
     importStack := importStack st; parsed := parsed st;
     flagShorthands := m;
     commandLineShorthands := commandLineShorthands st;
     Generation := Generation st; stdout := stdout st;
     invoked := invoked st |}.

Definition with_commandLineShorthands (st : State V) (m : gmap string bool)
  : State V :=
  {| CommandLine := CommandLine st; os_Args := os_Args st;
     flagsToExcludeFromDump := flagsToExcludeFromDump st;
     flagChangeCallbacks := flagChangeCallbacks st;
     importStack := importStack st; parsed := parsed st;
     flagShorthands := flagShorthands st;
     commandLineShorthands := m;
     Generation := Generation st; stdout := stdout st;
     invoked := invoked st |}.

Definition with_flagChangeCallbacks (st : State V)
    (m : gmap string (list FlagChangeCallback)) : State V :=
  {| CommandLine := CommandLine st; os_Args := os_Args st;
     flagsToExcludeFromDump := flagsToExcludeFromDump st;
     flagChangeCallbacks := m;
     importStack := importStack st; parsed := parsed st;
     flagShorthands := flagShorthands st;
     commandLineShorthands := commandLineShorthands st;
     Generation := Generation st; stdout := stdout st;
     invoked := invoked st |}.

Definition with_flagsToExcludeFromDump (st : State V) (m : gmap string bool)
  : State V :=
  {| CommandLine := CommandLine st; os_Args := os_Args st;
     flagsToExcludeFromDump := m;
     flagChangeCallbacks := flagChangeCallbacks st;
     importStack := importStack st; parsed := parsed st;
     flagShorthands := flagShorthands st;
     commandLineShorthands := commandLineShorthands st;
     Generation := Generation st; stdout := stdout st;
     invoked := invoked st |}.

(** [OnFlagChange]: after [Parse] the flag must exist ([logger.Fatalf]
    otherwise); the callback goes behind those the flag already has. *)
Definition OnFlagChange (flagName : string) (callback : FlagChangeCallback)
  : M (V:=V) unit :=
  let* st := get in
  let* _ := if parsed st then verifyFlagChangeFlagName flagName else ret tt in
  let* st := get in
  put (with_flagChangeCallbacks st
         (<[flagName :=
              (default [] (flagChangeCallbacks st !! flagName) ++ [callback])%list]>
            (flagChangeCallbacks st))).

(** [RegisterShorthand]: the error it returns, [None] for [nil]. *)
Definition RegisterShorthand (shorthand fullName : string)
  : M (V:=V) (option string) :=
  let* st := get in
  if parsed st then
    ret (Some "iniflags: RegisterShorthand() must be called before Parse()")
  else
    match flag.Lookup (CommandLine st) fullName with
    | None =>
        ret (Some ("iniflags: cannot register shorthand [" ++ shorthand
                   ++ "] for non-existing flag [" ++ fullName ++ "]"))
    | Some _ =>
        match flagShorthands st !! shorthand with
        | Some existing =>
            ret (Some ("iniflags: shorthand [" ++ shorthand
                       ++ "] already registered for flag [" ++ existing ++ "]"))
        | None =>
            match flag.Lookup (CommandLine st) shorthand with
            | Some _ =>
                ret (Some ("iniflags: shorthand [" ++ shorthand
                           ++ "] already registered as a flag name"))
            | None =>
                let* _ :=
                  put (with_flagShorthands st
                         (<[shorthand := fullName]> (flagShorthands st))) in
                ret None
            end
        end
    end.

Definition RegisterCommandLineShorthand (shorthand fullName : string)
  : M (V:=V) (option string) :=
  let* err := RegisterShorthand shorthand fullName in
  match err with
  | Some e => ret (Some e)
  | None =>
      let* st := get in
      let* _ :=
        put (with_commandLineShorthands st
               (<[shorthand := true]> (commandLineShorthands st))) in
      ret None
  end.

Definition ExcludeFlagFromDump (flagName : string) : M (V:=V) unit :=
  let* st := get in
  put (with_flagsToExcludeFromDump st
         (<[flagName := true]> (flagsToExcludeFromDump st))).

End Registration.

(** ** Further notions used to state properties *)

Section MoreNotions.
Context {V : Type} {val : flag.Value V} {lib : GoLib}.

(** The files of [files] that are not on the import stack. *)
Definition unvisited (files : list string) (st : State V) : list string :=
  List.filter (checkImportRecursion st) files.

(** The text [parseLine] classifies: line [n], without a byte-order mark
    when it is the first, trimmed. *)
Definition trimmedLine (n : Z) (line : string) : string :=
  strings.TrimSpace (if n =? 1 then stripBOM line else line).

(** A blank line, a section header or a comment that is not an import. *)
Definition inertLine (n : Z) (line : string) : bool :=
  utf8.ValidString line
  && negb (strings.HasPrefix (trimmedLine n line) "#import ")
  && match trimmedLine n line with
     | EmptyString => true
     | String c _ => Ascii.eqb c "[" || Ascii.eqb c "#" || Ascii.eqb c ";"
     end.

(** The lines that follow line [n] are all inert. *)
Fixpoint allInert (n : Z) (lines : list string) : bool :=
  match lines with
  | [] => true
  | line :: lines' => inertLine (incr64 n) line && allInert (incr64 n) lines'
  end.

(** A line that is read as a key/value line. *)
Definition keyValueLine (n : Z) (line : string) : bool :=
  utf8.ValidString line
  && negb (strings.HasPrefix (trimmedLine n line) "#import ")
  && match trimmedLine n line with
     | EmptyString => false
     | String c _ =>
         negb (Ascii.eqb c "[" || Ascii.eqb c "#" || Ascii.eqb c ";")
     end.

(** The two byte-order marks [stripBOM] knows. *)
Definition bomFEFF : string := bytes [239; 187; 191]%nat.
Definition bomFFFE : string := bytes [239; 191; 190]%nat.

(** While the merge loop has not failed: a flag without a saved value
    prints what it printed in [fs0], and a saved value is not what its flag
    prints now. *)
Definition changes_inv (fs0 : flag.FlagSet V) (acc : merging (V:=V)) : Prop :=
  let '(fs, oldFlagValues, ok) := acc in
  ok = true ->
  (forall name, oldFlagValues !! name = None ->
     deref_string fs name = deref_string fs0 name)
  /\ (forall name v, oldFlagValues !! name = Some v ->
        deref_string fs name <> v).

(** The directive [arg] with its key spelled out: a key that is no flag
    name of [fs] but a shorthand is replaced by the full name. *)
Definition spellOut (shorthands : gmap string string) (fs : flag.FlagSet V)
    (arg : flagArg) : flagArg :=
  match flag.Lookup fs (Key arg) with
  | Some _ => arg
  | None =>
      match shorthands !! Key arg with
      | Some fullName => withKey arg fullName
      | None => arg
      end
  end.

(** Every flag name that has callbacks is a registered flag. *)
Definition callbacks_registered (st : State V) : Prop :=
  forall name, is_Some (flagChangeCallbacks st !! name) ->
               is_Some (flag.Lookup (CommandLine st) name).

(** The shorthand tables are well formed: a shorthand stands for a
    registered flag and is no flag name itself, and a command-line shorthand
    is a shorthand. *)
Definition shorthands_wf (st : State V) : Prop :=
  (forall shorthand fullName,
     flagShorthands st !! shorthand = Some fullName ->
     is_Some (flag.Lookup (CommandLine st) fullName)
     /\ flag.Lookup (CommandLine st) shorthand = None)
  /\ (forall shorthand, is_Some (commandLineShorthands st !! shorthand) ->
        is_Some (flagShorthands st !! shorthand)).

(** What [handleCommandLineShorthands] makes of one argument, when it
    does not look at the argument that follows. *)
Definition rewriteArg (shorthands : gmap string string)
    (cmdline : gmap string bool) (arg : string) : string :=
  if (1 <? len arg) && bool_decide (first_byte arg = Some "-"%char)
     && negb (strings.HasPrefix arg "--")
  then
    let shortName := drop_str 1 arg in
    let pos := strings.Index shortName "=" in
    let '(shortName, value, hasValue) :=
      if 0 <=? pos
      then (slice shortName 0 pos, drop_str (Z.to_nat pos) shortName, true)
      else (shortName, "", false) in
    match shorthands !! shortName with
    | Some fullName =>
        if default false (cmdline !! shortName)
        then "-" ++ fullName ++ value
        else arg
    | None => arg
    end
  else arg.

(** The flags [dumpFlags] prints, in the order it prints them. *)
Definition dumped (st : State V) : list (string * flag.Flag V) :=
  List.filter
    (fun x => match flagsToExcludeFromDump st !! fst x with
              | Some _ => false
              | None => true
              end)
    (flag.VisitAll (CommandLine st)).

(** The order of [sort.Strings] on the names of two flags. *)
Definition byName (x y : string * flag.Flag V) : Prop :=
  String.leb (fst x) (fst y) = true.

Fixpoint concatLines (l : list string) : string :=
  match l with
  | [] => EmptyString
  | x :: l' => x ++ concatLines l'
  end.

(** Every byte [a] of [s] replaced by the text [f a]. *)
Fixpoint expand (f : ascii -> string) (s : string) : string :=
  match s with
  | EmptyString => EmptyString
  | String a s' => f a ++ expand f s'
  end.

(** What [quoteValue] writes for one byte other than a backslash: after
    its second replacement, and after its third. *)
Definition escapedLF (a : ascii) : string :=
  if Ascii.eqb a LF then str backslash ++ "n" else str a.

Definition escaped (a : ascii) : string :=
  if Ascii.eqb a LF then str backslash ++ "n"
  else if Ascii.eqb a dquote then str backslash ++ str dquote
  else str a.

End MoreNotions.

(** * Properties *)

(** ** The registry operations *)

Section RegistryFacts.
Context {V : Type} {val : flag.Value V}.

Lemma insert_sorted_In (x y : string * flag.Flag V) l :
  In y (flag.insert_sorted x l) <-> y = x \/ In y l.
Proof.
  induction l as [|z l IH]; simpl.
  - intuition.
  - destruct (String.leb (fst x) (fst z)); simpl; [intuition|].
    rewrite IH. intuition.
Qed.

Lemma sortFlags_In (y : string * flag.Flag V) l :
  In y (flag.sortFlags l) <-> In y l.
Proof.
  induction l as [|z l IH]; simpl; [tauto|].
  rewrite insert_sorted_In, IH. intuition.
Qed.

Lemma VisitAll_In (fs : flag.FlagSet V) name f :
  In (name, f) (flag.VisitAll fs) <-> flag.Lookup fs name = Some f.
Proof.
  unfold flag.VisitAll, flag.Lookup.
  rewrite sortFlags_In, <- list_elem_of_In.
  apply elem_of_map_to_list.
Qed.

(** [getMissingFlags] holds the registered names that are not set. *)
Lemma getMissingFlags_spec (fs : flag.FlagSet V) name :
  name ∈ getMissingFlags fs <->
  is_Some (flag.Lookup fs name) /\ name ∉ flag.actual fs.
Proof.
  unfold getMissingFlags.
  rewrite elem_of_list_to_set, list_elem_of_In, filter_In, in_map_iff.
  rewrite negb_true_iff, bool_decide_eq_false.
  rewrite elem_of_list_to_set, list_elem_of_In, in_map_iff.
  unfold flag.Visit. split.
  - intros [[[n f] [Hn Hin]] Hnot]; simpl in Hn; subst n. split.
    + exists f. by apply VisitAll_In.
    + intros Hact. apply Hnot. exists (name, f). split; [done|].
      apply filter_In. split; [done|]. by apply bool_decide_eq_true.
  - intros [[f Hf] Hnot]. split.
    + exists (name, f). split; [done|]. by apply VisitAll_In.
    + intros [[n g] [Hn Hin]]; simpl in Hn; subst n.
      apply filter_In in Hin as [_ Hact].
      apply bool_decide_eq_true in Hact. done.
Qed.

Lemma Value_Set_at_lookup_ne (fs : flag.FlagSet V) key f s name :
  name <> key ->
  flag.Lookup (fst (flag.Value_Set_at fs key f s)) name = flag.Lookup fs name.
Proof.
  intros Hne. unfold flag.Value_Set_at, flag.Lookup.
  destruct (flag.Value_Set (flag.value f) s) as [v' err]; simpl.
  by rewrite lookup_insert_ne.
Qed.

Lemma Value_Set_at_actual (fs : flag.FlagSet V) key f s :
  flag.actual (fst (flag.Value_Set_at fs key f s)) = flag.actual fs.
Proof.
  unfold flag.Value_Set_at.
  by destruct (flag.Value_Set (flag.value f) s).
Qed.

Lemma Value_Set_at_registered (fs : flag.FlagSet V) key f s name :
  is_Some (flag.Lookup fs name) ->
  is_Some (flag.Lookup (fst (flag.Value_Set_at fs key f s)) name).
Proof.
  intros Hsome. unfold flag.Value_Set_at, flag.Lookup.
  destruct (flag.Value_Set (flag.value f) s) as [v' err]; simpl.
  destruct (decide (key = name)) as [->|Hne].
  - rewrite lookup_insert_eq. eauto.
  - by rewrite lookup_insert_ne.
Qed.

Lemma Set_lookup_ne (fs : flag.FlagSet V) key s name :
  name <> key ->
  flag.Lookup (fst (flag.Set_ fs key s)) name = flag.Lookup fs name.
Proof.
  intros Hne. unfold flag.Set_.
  destruct (flag.Lookup fs key) as [f|] eqn:Hf; [|done].
  pose proof (Value_Set_at_lookup_ne fs key f s name Hne) as Hfs.
  by destruct (flag.Value_Set_at fs key f s) as [fs' [e|]].
Qed.

Lemma Set_actual_mono (fs : flag.FlagSet V) key s :
  flag.actual fs ⊆ flag.actual (fst (flag.Set_ fs key s)).
Proof.
  unfold flag.Set_.
  destruct (flag.Lookup fs key) as [f|] eqn:Hf; [|done].
  pose proof (Value_Set_at_actual fs key f s) as Hact.
  destruct (flag.Value_Set_at fs key f s) as [fs' [e|]]; simpl in *;
    rewrite Hact; [done|apply union_subseteq_r].
Qed.

(** A value that [flag.Set] accepts marks the flag as set. *)
Lemma Set_accepted_actual (fs : flag.FlagSet V) key s f :
  flag.Lookup fs key = Some f ->
  snd (flag.Value_Set (flag.value f) s) = None ->
  key ∈ flag.actual (fst (flag.Set_ fs key s)).
Proof.
  intros Hf Hok. unfold flag.Set_. rewrite Hf.
  unfold flag.Value_Set_at.
  destruct (flag.Value_Set (flag.value f) s) as [v' err]; simpl in *.
  subst err. simpl. set_solver.
Qed.

End RegistryFacts.

(** ** The parser leaves the package state as it found it *)

Section ParserFrame.
Context {V : Type} {val : flag.Value V} {lib : GoLib}.

Lemma readonly_ret {A} (a : A) : readonly (V:=V) (ret a).
Proof. by intros st. Qed.

Lemma readonly_lift {A} (r : result A) : readonly (V:=V) (lift r).
Proof. by intros st. Qed.

Lemma readonly_panic {A} msg : readonly (V:=V) (panic (A:=A) msg).
Proof. by intros st. Qed.

Lemma readonly_bind {A B} (m : M A) (k : A -> M B) :
  readonly m -> (forall a, readonly (V:=V) (k a)) -> readonly (V:=V) (bind m k).
Proof.
  intros Hm Hk st. unfold bind. specialize (Hm st).
  destruct (m st) as [[a|msg|c|] st']; simpl in Hm; subst st'; try done.
  apply Hk.
Qed.

Lemma readonly_parseLine getArgs configPath p line :
  (forall path, readonly (V:=V) (getArgs path)) ->
  readonly (V:=V) (parseLine getArgs configPath p line).
Proof.
  intros Hg. unfold parseLine.
  repeat first
    [ apply readonly_ret | apply readonly_lift | apply Hg
    | apply readonly_bind; [|intros [[? ?] ?]]
    | apply readonly_bind; [|intros [? ?]]
    | match goal with
      | |- readonly (V:=V) (if ?b then _ else _) => destruct b
      | |- readonly (V:=V) (let '(_, _) := ?x in _) => destruct x
      | |- readonly (V:=V) (match ?x with _ => _ end) => destruct x
      end ].
Qed.

Lemma readonly_readLoop getArgs configPath ending lines p :
  (forall path, readonly (V:=V) (getArgs path)) ->
  readonly (V:=V) (readLoop getArgs configPath ending lines p).
Proof.
  intros Hg. revert p. induction lines as [|line lines IH]; intros p; simpl.
  - destruct ending; [|apply readonly_ret].
    destruct (0 <? _); apply readonly_ret.
  - apply readonly_bind; [by apply readonly_parseLine|].
    intros [p'|r]; [apply IH|apply readonly_ret].
Qed.

Lemma pop_push configPath (st : State V) : pop (push configPath st) = st.
Proof.
  destruct st. unfold pop, push, with_importStack; simpl.
  by rewrite removelast_last.
Qed.

(** Whatever its outcome, [getArgsFromConfig] leaves every package
    variable, the import stack included, as it was before the call. *)
Lemma readonly_getArgsFromConfig fuel w configPath :
  readonly (V:=V) (getArgsFromConfig fuel w configPath).
Proof.
  revert configPath. induction fuel as [|fuel IH]; intros configPath st.
  - done.
  - simpl. unfold bind at 1, get at 1.
    destruct (negb (checkImportRecursion st configPath)); [done|].
    unfold bind at 1, put at 1, defer.
    match goal with |- snd (let '(r, st') := ?m ?s in _) = _ =>
      assert (Hin : snd (m s) = s); [|destruct (m s) as [r st']] end.
    + apply readonly_bind; [by intros ?|]. intros st1.
      destruct (openConfigFile w st1 configPath) as [[f|] [e|]];
        first [apply readonly_ret | apply readonly_panic | idtac].
      by apply readonly_readLoop.
    + simpl in *. subst st'. apply pop_push.
Qed.

End ParserFrame.

(** ** What a merge pass may touch *)

Section MergeFrame.
Context {V : Type} {val : flag.Value V} {lib : GoLib}.

Lemma mergeArg_inv shorthands missingFlags fs0 acc arg :
  merge_inv missingFlags fs0 acc ->
  merge_inv missingFlags fs0 (mergeArg shorthands missingFlags acc arg).
Proof.
  destruct acc as [[fs old] ok]. intros (Hframe & Hact & Hold).
  assert (Hsame : forall b, merge_inv missingFlags fs0 (fs, old, b))
    by (intros b; by split_and!).
  unfold mergeArg.
  set (found := match flag.Lookup fs (Key arg) with
                | Some f => (Some f, Key arg)
                | None => match shorthands !! Key arg with
                          | Some fullName => (flag.Lookup fs fullName, fullName)
                          | None => (None, Key arg)
                          end
                end).
  assert (Hfound : forall f key, found = (Some f, key) ->
                                 flag.Lookup fs key = Some f).
  { subst found. intros f key.
    destruct (flag.Lookup fs (Key arg)) as [g|] eqn:Hg.
    - by intros [= <- <-].
    - destruct (shorthands !! Key arg) as [fullName|]; [|done].
      by intros [= <- <-]. }
  destruct found as [[f|] key].
  2: { destruct (negb (deref_bool fs "allowUnknownFlags")); apply Hsame. }
  specialize (Hfound f key eq_refl).
  case_bool_decide as Hmiss; [|apply Hsame].
  destruct (String.eqb (flag.String_of f) (Value arg)); [apply Hsame|].
  pose proof (Value_Set_at_lookup_ne fs key f (Value arg)) as Hne.
  pose proof (Value_Set_at_actual fs key f (Value arg)) as Hact'.
  pose proof (Value_Set_at_registered fs key f (Value arg)) as Hreg.
  destruct (flag.Value_Set_at fs key f (Value arg)) as [fs' err].
  simpl in Hne, Hact', Hreg.
  assert (Hframe' : forall name, name ∉ missingFlags ->
                                 flag.Lookup fs' name = flag.Lookup fs0 name).
  { intros name Hn. rewrite Hne; [by apply Hframe|]. by intros ->. }
  assert (Hold' : forall name, is_Some (old !! name) ->
                    name ∈ missingFlags /\ is_Some (flag.Lookup fs' name)).
  { intros name Hn. destruct (Hold name Hn). split; [done|]. by apply Hreg. }
  assert (Hsame' : forall b, merge_inv missingFlags fs0 (fs', old, b))
    by (intros b; split_and!; [done|congruence|done]).
  destruct err as [e|]; [apply Hsame'|].
  destruct (negb _); [|apply Hsame'].
  split_and!; [done|congruence|].
  intros name. destruct (decide (key = name)) as [<-|Hk].
  - intros _. split; [done|]. apply Hreg. by rewrite Hfound.
  - rewrite lookup_insert_ne; [|done]. apply Hold'.
Qed.

Lemma mergeArgs_inv shorthands missingFlags fs0 parsedArgs acc :
  merge_inv missingFlags fs0 acc ->
  merge_inv missingFlags fs0
    (mergeArgs shorthands missingFlags parsedArgs acc).
Proof.
  revert acc. induction parsedArgs as [|arg l IH]; intros acc Hacc; [done|].
  simpl. apply IH. by apply mergeArg_inv.
Qed.

(** What the restoring loop does to the registry [fs1] it starts from:
    names that were not saved keep their flag, no mark is removed, and a
    saved name whose old value is accepted is marked as set. *)
Lemma restore_spec (oldFlagValues : gmap string string) (fs1 : flag.FlagSet V) :
  let fs2 := restore oldFlagValues fs1 in
  (forall name, oldFlagValues !! name = None ->
     flag.Lookup fs2 name = flag.Lookup fs1 name)
  /\ flag.actual fs1 ⊆ flag.actual fs2
  /\ (forall name v f, oldFlagValues !! name = Some v ->
        flag.Lookup fs1 name = Some f ->
        snd (flag.Value_Set (flag.value f) v) = None ->
        name ∈ flag.actual fs2).
Proof.
  unfold restore.
  apply (map_fold_weak_ind
    (fun fs2 m =>
       (forall name, m !! name = None ->
          flag.Lookup fs2 name = flag.Lookup fs1 name)
       /\ flag.actual fs1 ⊆ flag.actual fs2
       /\ (forall name v f, m !! name = Some v ->
             flag.Lookup fs1 name = Some f ->
             snd (flag.Value_Set (flag.value f) v) = None ->
             name ∈ flag.actual fs2))).
  - split_and!; [done|done|]. intros name v f Hm. by rewrite lookup_empty in Hm.
  - intros i x m r Hi (Hframe & Hmono & Hmark). split_and!.
    + intros name Hn. apply lookup_insert_None in Hn as [Hn Hne].
      rewrite Set_lookup_ne; [by apply Hframe|done].
    + etrans; [exact Hmono|]. apply Set_actual_mono.
    + intros name v f Hn Hf Hok.
      destruct (decide (i = name)) as [<-|Hne].
      * rewrite lookup_insert_eq in Hn. injection Hn as ->.
        apply (Set_accepted_actual r i v f); [|done].
        by rewrite Hframe.
      * rewrite lookup_insert_ne in Hn; [|done].
        apply (Set_actual_mono r i x). by eapply Hmark.
Qed.

End MergeFrame.

(** ** Merge passes *)

Section Passes.
Context {V : Type} {val : flag.Value V} {lib : GoLib}.

(** A pass either gives up before the merge loop and changes nothing, or
    runs the loop on some directive list and ends as the loop's [ok] says. *)
Lemma parseConfigFlags_cases fuel w (st : State V) :
  (snd (parseConfigFlags fuel w st) = st
   /\ forall old, fst (parseConfigFlags fuel w st) = Ok (old, true) -> old = ∅)
  \/ exists parsedArgs fs old ok,
       mergeArgs (flagShorthands st) (getMissingFlags (CommandLine st))
         parsedArgs (CommandLine st, ∅, true) = (fs, old, ok)
       /\ parseConfigFlags fuel w st =
          if ok then (Ok (old, true), with_CommandLine st fs)
          else (Ok (∅, false), with_CommandLine st (restore old fs)).
Proof.
  remember (parseConfigFlags fuel w st) as r eqn:Hr.
  unfold parseConfigFlags, bind at 1, get at 1 in Hr.
  destruct (resolveConfig st) as [configPath ok0].
  destruct (negb ok0); [subst r; left; split; [done|by intros old]|].
  destruct (String.eqb configPath "");
    [subst r; left; split; [done|by intros old [= <-]]|].
  unfold bind at 1 in Hr.
  pose proof (readonly_getArgsFromConfig fuel w configPath st) as Hro.
  destruct (getArgsFromConfig fuel w configPath st)
    as [[[parsedArgs ok1]|msg|c|] st'];
    simpl in Hro; subst st';
    try (subst r; left; split; [done|by intros old]).
  destruct (negb ok1); [subst r; left; split; [done|by intros old]|].
  unfold bind at 1, get at 1 in Hr.
  right. exists parsedArgs.
  destruct (mergeArgs _ _ _ _) as [[fs old] ok]. exists fs, old, ok.
  split; [done|]. by destruct ok.
Qed.

(** A pass whose source does not parse (a malformed line after valid
    directives, an encoding error, a cyclic import) touches no flag. *)
Lemma parse_failure_changes_nothing fuel w (st : State V) configPath :
  resolveConfig st = (configPath, true) ->
  (forall parsedArgs,
     fst (getArgsFromConfig fuel w configPath st) <> Ok (parsedArgs, true)) ->
  snd (parseConfigFlags fuel w st) = st.
Proof.
  intros Hcfg Hfail.
  unfold parseConfigFlags, bind at 1, get at 1. rewrite Hcfg. cbn [negb].
  destruct (String.eqb configPath ""); [done|].
  unfold bind at 1.
  pose proof (readonly_getArgsFromConfig fuel w configPath st) as Hro.
  destruct (getArgsFromConfig fuel w configPath st)
    as [[[parsedArgs [|]]|msg|c|] st']; simpl in *; subst st'; try done.
  by destruct (Hfail parsedArgs).
Qed.

(** A flag that is marked as set keeps its value, and its mark, through
    a pass. *)
Lemma parseConfigFlags_keeps_set fuel w (st : State V) name :
  name ∈ flag.actual (CommandLine st) ->
  let st' := snd (parseConfigFlags fuel w st) in
  flag.Lookup (CommandLine st') name = flag.Lookup (CommandLine st) name
  /\ name ∈ flag.actual (CommandLine st').
Proof.
  intros Hset.
  destruct (parseConfigFlags_cases fuel w st)
    as [[-> _]|(parsedArgs & fs & old & ok & Hmerge & ->)]; [done|].
  assert (Hmiss : name ∉ getMissingFlags (CommandLine st)).
  { rewrite getMissingFlags_spec. tauto. }
  pose proof (mergeArgs_inv (flagShorthands st)
                (getMissingFlags (CommandLine st)) (CommandLine st) parsedArgs
                (CommandLine st, ∅, true)) as Hinv.
  rewrite Hmerge in Hinv. destruct Hinv as (Hframe & Hact & Hold).
  { split_and!; [done|done|]. intros n [x Hx]. by rewrite lookup_empty in Hx. }
  destruct ok; simpl.
  - split; [by apply Hframe|]. by rewrite Hact.
  - destruct (restore_spec old fs) as (Hrframe & Hrmono & _).
    assert (Hnone : old !! name = None).
    { destruct (old !! name) eqn:Hn; [|done].
      destruct (Hold name) as [Hin _]; [by eexists|done]. }
    split.
    + rewrite Hrframe; [by apply Hframe|done].
    + apply Hrmono. by rewrite Hact.
Qed.

Lemma updateConfig_CommandLine fuel w (st : State V) :
  CommandLine (snd (updateConfig fuel w st))
  = CommandLine (snd (parseConfigFlags fuel w st)).
Proof.
  unfold updateConfig, bind at 1.
  destruct (parseConfigFlags fuel w st) as [[[old ok]|msg|c|] st']; try done.
  by destruct (ok && _).
Qed.

Lemma reloads_keep_set ws (st : State V) name :
  name ∈ flag.actual (CommandLine st) ->
  flag.Lookup (CommandLine (reloads ws st)) name
  = flag.Lookup (CommandLine st) name.
Proof.
  revert st. induction ws as [|[fuel w] ws IH]; intros st Hset; [done|].
  simpl.
  destruct (parseConfigFlags_keeps_set fuel w st name Hset) as [Hval Hset'].
  rewrite <- updateConfig_CommandLine in Hval, Hset'.
  rewrite <- Hval. by apply IH.
Qed.

(** C1 (priority of the command line).  For every flag that [flag.Visit]
    reports as set when a process starts merging, that is every flag set
    explicitly on the command line, neither the merge pass of the initial
    [Parse] nor any of the reloads that follow changes the flag: the
    registry holds the same flag value after them as before, whatever the
    config sources and their imports contain at each pass. *)
Theorem C1_command_line_flags_never_change
    fuel w ws (st : State V) name :
  name ∈ flag.actual (CommandLine st) ->
  flag.Lookup (CommandLine (reloads ws (snd (parseConfigFlags fuel w st)))) name
  = flag.Lookup (CommandLine st) name.
Proof.
  intros Hset.
  destruct (parseConfigFlags_keeps_set fuel w st name Hset) as [Hval Hset'].
  rewrite <- Hval. by apply reloads_keep_set.
Qed.

(** C10 (rollback marks flags as set).  When the merge loop of a pass fails
    with [name] among the saved old values, the restoring loop calls
    [flag.Set] on it; if the registry accepts the saved value, [name] is
    marked as set afterwards, [getMissingFlags] no longer lists it, and no
    later reload changes the flag, although the command line never set it. *)
Theorem C10_rolled_back_flag_is_frozen
    (st : State V) parsedArgs fs1 old name v f ws :
  mergeArgs (flagShorthands st) (getMissingFlags (CommandLine st)) parsedArgs
    (CommandLine st, ∅, true) = (fs1, old, false) ->
  old !! name = Some v ->
  flag.Lookup fs1 name = Some f ->
  snd (flag.Value_Set (flag.value f) v) = None ->
  (name ∉ flag.actual (CommandLine st))
  /\ (let st2 := with_CommandLine st (restore old fs1) in
      (name ∈ flag.actual (CommandLine st2))
      /\ (name ∉ getMissingFlags (CommandLine st2))
      /\ flag.Lookup (CommandLine (reloads ws st2)) name
         = flag.Lookup (CommandLine st2) name).
Proof.
  intros Hmerge Hold Hf Hok.
  pose proof (mergeArgs_inv (flagShorthands st)
                (getMissingFlags (CommandLine st)) (CommandLine st) parsedArgs
                (CommandLine st, ∅, true)) as Hinv.
  rewrite Hmerge in Hinv. destruct Hinv as (_ & _ & Hsaved).
  { split_and!; [done|done|]. intros n [x Hx]. by rewrite lookup_empty in Hx. }
  destruct (Hsaved name) as [Hmiss _]; [by eexists|].
  apply getMissingFlags_spec in Hmiss as [_ Hnot].
  split; [done|]. simpl.
  destruct (restore_spec old fs1) as (_ & _ & Hmark).
  assert (Hset : name ∈ flag.actual (restore old fs1)) by by eapply Hmark.
  split_and!; [done| |].
  - rewrite getMissingFlags_spec. tauto.
  - by apply (reloads_keep_set ws (with_CommandLine st (restore old fs1))).
Qed.

End Passes.

(** ** The generation counter *)

Section GenerationFacts.
Context {V : Type} {val : flag.Value V} {lib : GoLib}
        {cmd : CommandLineParser V}.

Lemma keeps_bind {A B} g (m : M A) (k : A -> M B) :
  keeps_generation g m -> (forall a, keeps_generation (V:=V) g (k a)) ->
  keeps_generation (V:=V) g (bind m k).
Proof.
  intros Hm Hk st Hg. unfold bind. specialize (Hm st Hg).
  destruct (m st) as [[a|msg|c|] st']; simpl in *; try done.
  by apply Hk.
Qed.

Lemma bumps_bind {A B} g (m : M A) (k : A -> M B) :
  keeps_generation g m -> (forall a, bumps_once (V:=V) g (k a)) ->
  bumps_once (V:=V) g (bind m k).
Proof.
  intros Hm Hk st Hg. unfold bind. specialize (Hm st Hg).
  destruct (m st) as [[a|msg|c|] st']; simpl in *; try done.
  by apply Hk.
Qed.

Lemma bumps_get {A} g (k : State V -> M A) :
  (forall st, Generation st = g -> bumps_once (V:=V) g (k st)) ->
  bumps_once (V:=V) g (bind get k).
Proof. intros Hk st Hg. unfold bind, get. by apply Hk. Qed.

Lemma keeps_parseConfigFlags g fuel w :
  keeps_generation (V:=V) g (parseConfigFlags fuel w).
Proof.
  intros st Hg.
  destruct (parseConfigFlags_cases fuel w st)
    as [[-> _]|(parsedArgs & fs & old & ok & _ & ->)]; [done|].
  by destruct ok.
Qed.

Lemma keeps_verifyAll g names : keeps_generation (V:=V) g (verifyAll names).
Proof.
  induction names as [|n names IH]; [by intros st|]. simpl.
  apply keeps_bind; [|done].
  intros st Hg. unfold verifyFlagChangeFlagName, bind, get.
  by destruct (flag.Lookup _ _).
Qed.

Lemma keeps_handleCommandLineShorthands g :
  keeps_generation (V:=V) g handleCommandLineShorthands.
Proof.
  intros st Hg. unfold handleCommandLineShorthands, bind, get.
  destruct (_ =? 0); [done|]. by destruct (os_Args st).
Qed.

Lemma bumps_Parse g fuel w : bumps_once (V:=V) g (Parse fuel w).
Proof.
  unfold Parse.
  apply bumps_get. intros st0 Hg0.
  destruct (parsed st0); [by intros st|].
  apply bumps_bind; [apply keeps_handleCommandLineShorthands|]. intros _.
  apply bumps_get. intros st1 Hg1.
  apply bumps_bind; [by intros st|]. intros _.
  apply bumps_get. intros st2 Hg2.
  apply bumps_bind; [by intros st|]. intros fs.
  apply bumps_bind; [by intros st|]. intros _.
  apply bumps_bind; [apply keeps_parseConfigFlags|]. intros [old ok].
  destruct (negb ok); [by intros st|].
  apply bumps_get. intros st3 Hg3.
  destruct (deref_bool _ _).
  - intros st Hg. unfold bind, dumpFlags, get, put, exit. done.
  - apply bumps_bind; [apply keeps_verifyAll|]. intros _.
    intros st Hg. simpl. by rewrite Hg.
Qed.

Lemma updateConfig_generation fuel w (st : State V) :
  Generation (snd (updateConfig fuel w st))
  = match fst (parseConfigFlags fuel w st) with
    | Ok (oldFlagValues, true) =>
        if 0 <? Z.of_nat (size oldFlagValues)
        then incr64 (Generation st) else Generation st
    | _ => Generation st
    end.
Proof.
  unfold updateConfig, bind at 1.
  pose proof (keeps_parseConfigFlags _ fuel w st eq_refl) as Hk.
  destruct (parseConfigFlags fuel w st) as [[[old ok]|msg|c|] st'];
    simpl in *; try done.
  destruct ok; simpl; [|done].
  destruct (0 <? _); [|done].
  simpl. by rewrite Hk.
Qed.

(** What the code counts.  While the counter is below the largest 64-bit
    integer: a call of [Parse] that returns has incremented [Generation]
    exactly once, and one that does not return (panic or exit) has left it
    alone; a reload has incremented it exactly once when its merge pass
    returned [ok] with a non-empty map [oldFlagValues], and has left it
    alone otherwise; so [Generation] never decreases.  The map a pass
    returns may list flags that hold the same value after the pass as
    before it, so this is not yet the counter of the reloads that changed
    something. *)
Lemma Generation_counts_returned_maps fuel w (st : State V) :
  - 2 ^ 63 <= Generation st < 2 ^ 63 - 1 ->
  Generation (snd (Parse fuel w st))
  = match fst (Parse fuel w st) with
    | Ok _ => Generation st + 1
    | _ => Generation st
    end
  /\ Generation (snd (updateConfig fuel w st))
     = match fst (parseConfigFlags fuel w st) with
       | Ok (oldFlagValues, true) =>
           if 0 <? Z.of_nat (size oldFlagValues)
           then Generation st + 1 else Generation st
       | _ => Generation st
       end
  /\ Generation st <= Generation (snd (Parse fuel w st))
  /\ Generation st <= Generation (snd (updateConfig fuel w st)).
Proof.
  intros Hrange.
  assert (Hincr : incr64 (Generation st) = Generation st + 1).
  { unfold incr64. rewrite Z.mod_small; lia. }
  pose proof (bumps_Parse _ fuel w st eq_refl) as HP.
  pose proof (updateConfig_generation fuel w st) as HU.
  rewrite Hincr in HP, HU.
  split_and!; [done|done| |].
  - rewrite HP. destruct (fst (Parse fuel w st)); lia.
  - rewrite HU.
    destruct (fst (parseConfigFlags fuel w st)) as [[old [|]]| | |]; try lia.
    destruct (0 <? _); lia.
Qed.

(** The registry [Parse] leaves is the one its merge pass leaves, started
    from the registry [flag.Parse] returned. *)
Lemma Parse_CommandLine fuel w (st : State V) fs :
  parsed st = false ->
  fst (handleCommandLineShorthands st) = Ok tt ->
  flag_Parse (tl (os_Args (snd (handleCommandLineShorthands st))))
    (CommandLine st) = Ok fs ->
  CommandLine (snd (Parse fuel w st))
  = CommandLine
      (snd (parseConfigFlags fuel w
              (with_CommandLine
                 (with_parsed (snd (handleCommandLineShorthands st)) true) fs))).
Proof.
  intros Hparsed Hhandle Hflag.
  assert (Hcl : CommandLine (snd (handleCommandLineShorthands st))
                = CommandLine st).
  { unfold handleCommandLineShorthands, bind, get.
    destruct (_ =? 0); [done|]. by destruct (os_Args st). }
  unfold Parse. unfold bind at 1, get at 1. rewrite Hparsed.
  unfold bind at 1.
  destruct (handleCommandLineShorthands st) as [r st1].
  simpl in Hhandle, Hflag, Hcl. subst r.
  unfold bind at 1, get at 1. unfold bind at 1, put at 1.
  unfold bind at 1, get at 1. unfold bind at 1, lift at 1.
  cbn [CommandLine os_Args with_parsed]. rewrite Hcl, Hflag.
  unfold bind at 1, put at 1. unfold bind at 1.
  destruct (parseConfigFlags fuel w _) as [[[old ok]|msg|c|] st2];
    cbn [snd]; try done.
  destruct (negb ok); [done|].
  unfold bind at 1, get at 1.
  destruct (deref_bool _ _); [done|].
  unfold bind at 1.
  assert (Hv : forall names (s : State V),
            CommandLine (snd (verifyAll names s)) = CommandLine s).
  { induction names as [|n names IH]; intros s0; [done|].
    cbn [verifyAll]. unfold bind at 1, verifyFlagChangeFlagName.
    unfold bind at 1, get at 1.
    destruct (flag.Lookup _ _); [|done]. apply IH. }
  specialize (Hv (map fst (map_to_list (flagChangeCallbacks st2))) st2).
  destruct (verifyAll _ st2) as [[[]|msg|c|] st3]; simpl in Hv; try done.
Qed.

(** So a flag given on the command line has, after [Parse], the value
    [flag.Parse] gave it. *)
Lemma Parse_keeps_command_line_flags fuel w (st : State V) fs name :
  parsed st = false ->
  fst (handleCommandLineShorthands st) = Ok tt ->
  flag_Parse (tl (os_Args (snd (handleCommandLineShorthands st))))
    (CommandLine st) = Ok fs ->
  name ∈ flag.actual fs ->
  flag.Lookup (CommandLine (snd (Parse fuel w st))) name = flag.Lookup fs name.
Proof.
  intros Hparsed Hhandle Hflag Hset.
  rewrite (Parse_CommandLine fuel w st fs) by done.
  by apply (parseConfigFlags_keeps_set fuel w
              (with_CommandLine
                 (with_parsed (snd (handleCommandLineShorthands st)) true) fs)).
Qed.

End GenerationFacts.

(** ** Facts about the string functions *)

Section StringFacts.

Lemma prefix_single c s :
  String.prefix (str c) s
  = match s with
    | EmptyString => false
    | String a _ => Ascii.eqb c a
    end.
Proof.
  destruct s as [|a s]; [done|]. unfold str; simpl.
  destruct (ascii_dec c a) as [->|Hne].
  - rewrite Ascii.eqb_refl. by destruct s.
  - symmetry. by apply Ascii.eqb_neq.
Qed.

Lemma ContainsAny_app s t chars :
  strings.ContainsAny (s ++ t) chars
  = strings.ContainsAny s chars || strings.ContainsAny t chars.
Proof.
  induction s as [|a s IH]; [done|]. simpl. by rewrite IH, orb_assoc.
Qed.

(** Without an instance of the byte [c], the search keeps what it found. *)
Lemma last_index_absent c s i found :
  strings.ContainsAny s (str c) = false ->
  strings.last_index_from i s (str c) found = found.
Proof.
  revert i found. induction s as [|a s IH]; intros i found Hno.
  - done.
  - simpl in Hno. apply orb_false_iff in Hno as [Ha Hs].
    rewrite orb_false_r in Ha.
    cbn [strings.last_index_from].
    rewrite prefix_single, Ascii.eqb_sym, Ha. by apply IH.
Qed.

(** Once an instance was found, the search does not end empty-handed. *)
Lemma last_index_found sep s i j :
  strings.last_index_from i s sep (Some j) <> None.
Proof.
  revert i j. induction s as [|a s IH]; intros i j;
    cbn [strings.last_index_from].
  - by destruct (String.prefix sep "").
  - destruct (String.prefix sep (String a s)); apply IH.
Qed.

Lemma last_index_at c base s i found :
  strings.ContainsAny s (str c) = false ->
  strings.last_index_from i (base ++ String c s) (str c) found
  = Some (i + String.length base)%nat.
Proof.
  intros Hno. revert i found.
  induction base as [|a base IH]; intros i found.
  - change ("" ++ String c s) with (String c s).
    cbn [strings.last_index_from].
    rewrite prefix_single, Ascii.eqb_refl, last_index_absent; [|done].
    f_equal. simpl. lia.
  - change (String a base ++ String c s) with (String a (base ++ String c s)).
    cbn [strings.last_index_from String.length].
    rewrite IH. f_equal. lia.
Qed.

Lemma rev_str_app s t acc :
  rev_str (s ++ t) acc = rev_str t (rev_str s acc).
Proof.
  revert acc. induction s as [|a s IH]; intros acc; [done|]. simpl. apply IH.
Qed.

Lemma take_str_app s t : take_str (String.length s) (s ++ t) = s.
Proof. induction s as [|a s IH]; [by destruct t|]. simpl. by rewrite IH. Qed.

Lemma drop_str_app s t : drop_str (String.length s) (s ++ t) = t.
Proof. induction s as [|a s IH]; [done|]. simpl. by rewrite IH. Qed.

Lemma length_app s t :
  String.length (s ++ t) = (String.length s + String.length t)%nat.
Proof. induction s as [|a s IH]; [done|]. simpl. by rewrite IH. Qed.

Lemma app_assoc_str s t u : (s ++ t) ++ u = s ++ (t ++ u).
Proof.
  induction s as [|a s IH]; [done|].
  change (String a ((s ++ t) ++ u) = String a (s ++ (t ++ u))).
  by rewrite IH.
Qed.

Lemma app_nil_r_str s : s ++ "" = s.
Proof.
  induction s as [|a s IH]; [done|].
  change (String a (s ++ "") = String a s). by rewrite IH.
Qed.

(** A separator that does not occur splits nothing. *)
Lemma split_absent c s cur :
  strings.ContainsAny s (str c) = false ->
  strings.split_from 0 s (str c) cur = [cur ++ s].
Proof.
  revert cur. induction s as [|a s IH]; intros cur Hno.
  - cbn [strings.split_from]. by rewrite app_nil_r_str.
  - simpl in Hno. apply orb_false_iff in Hno as [Ha Hs].
    rewrite orb_false_r in Ha.
    cbn [strings.split_from].
    rewrite prefix_single, Ascii.eqb_sym, Ha, IH by done.
    by rewrite app_assoc_str.
Qed.

Lemma ContainsAny_one s chars c :
  strings.ContainsAny s chars = false ->
  strings.contains_byte c chars = true ->
  strings.ContainsAny s (str c) = false.
Proof.
  intros Hno Hc. induction s as [|a s IH]; [done|].
  simpl in Hno. apply orb_false_iff in Hno as [Ha Hs].
  cbn [strings.ContainsAny]. rewrite IH by done.
  rewrite orb_false_r. cbn [strings.contains_byte str].
  rewrite orb_false_r. destruct (Ascii.eqb_spec a c) as [->|]; [|done].
  congruence.
Qed.

Lemma len_pos s : (0 <? len s) = negb (String.eqb s "").
Proof. by destruct s. Qed.

Lemma multilineKey_suffix base delim :
  strings.HasSuffix (multilineKey base delim) "}" = true.
Proof.
  unfold strings.HasSuffix, multilineKey.
  rewrite !rev_str_app. simpl. by destruct (rev_str delim _).
Qed.

Lemma multilineKey_brace base delim :
  strings.ContainsAny delim "{" = false ->
  strings.LastIndex (multilineKey base delim) "{" = len base.
Proof.
  intros Hno. unfold strings.LastIndex, multilineKey.
  pose proof (last_index_at "{"%char base (delim ++ "}") 0 None) as Hat.
  unfold str in Hat.
  change ("{" ++ delim ++ "}") with (String "{" (delim ++ "}")).
  rewrite Hat; [done|].
  rewrite ContainsAny_app. by rewrite Hno.
Qed.

Lemma multilineKey_base base delim :
  slice (multilineKey base delim) 0 (len base) = base.
Proof.
  unfold slice, multilineKey, len. rewrite Z.sub_0_r, Nat2Z.id.
  simpl. apply take_str_app.
Qed.

Lemma multilineKey_delimiter base delim :
  slice (multilineKey base delim) (len base + 1)
    (len (multilineKey base delim) - 1) = delim.
Proof.
  unfold slice, multilineKey, len.
  rewrite !length_app. simpl String.length.
  replace (Z.to_nat (_ - 1 - _)) with (String.length delim) by lia.
  replace (Z.to_nat (Z.of_nat (String.length base) + 1))
    with (String.length (base ++ "{")) by (rewrite length_app; simpl; lia).
  change (base ++ "{" ++ delim ++ "}") with (base ++ ("{" ++ (delim ++ "}"))).
  rewrite <- app_assoc_str, drop_str_app. apply take_str_app.
Qed.

End StringFacts.

(** ** Quoted values *)

Section UnquoteFacts.
Context {lib : GoLib}.

(** C8 (unterminated quoted value).  For every value whose trimmed text is
    a double quote followed by text without another double quote,
    [unquoteValue] does not return the failure of its unclosed-string
    branch: the search for the closing quote finds the opening one, and the
    slice [v[1:0]] panics. *)
Theorem C8_unclosed_quote_panics (val rest : string) :
  strings.TrimSpace val = String dquote rest ->
  strings.ContainsAny rest (str dquote) = false ->
  unquoteValue val = Panic "slice bounds out of range"
  /\ unquoteValue val <> Ok ("", "", false).
Proof.
  intros Htrim Hno.
  assert (Hpanic : unquoteValue val = Panic "slice bounds out of range").
  { unfold unquoteValue. rewrite Htrim.
    rewrite Ascii.eqb_refl. simpl negb. cbv iota.
    unfold strings.LastIndex.
    change (String dquote rest) with ("" ++ String dquote rest).
    rewrite last_index_at; [|done]. done. }
  split; [done|]. by rewrite Hpanic.
Qed.

(** The unclosed-string branch of [unquoteValue] is never taken. *)
Lemma unquoteValue_never_fails (val v c : string) :
  unquoteValue val <> Ok (v, c, false).
Proof.
  unfold unquoteValue.
  destruct (strings.TrimSpace val) as [|a rest] eqn:Htrim; [done|].
  destruct (negb (Ascii.eqb a dquote)) eqn:Ha; [done|].
  apply negb_false_iff, Ascii.eqb_eq in Ha. subst a.
  assert (Hn : 0 <= strings.LastIndex (String dquote rest) (str dquote)).
  { unfold strings.LastIndex.
    destruct (strings.last_index_from 0 (String dquote rest) (str dquote) None)
      as [i|] eqn:Hi; [lia|].
    exfalso. revert Hi. cbn [strings.last_index_from].
    rewrite prefix_single, Ascii.eqb_refl. apply last_index_found. }
  destruct (_ =? -1) eqn:Hm1; [lia|].
  by destruct (_ <? 1).
Qed.

(** The part of the dump round trip that holds: a value that
    [quoteValue] leaves as it is, and that does not start with a double
    quote, is read back by [unquoteValue]. *)
Lemma unquote_quote_plain_value (v : string) :
  strings.ContainsAny v (str LF ++ "#;") = false ->
  strings.TrimSpace v = v ->
  first_byte v <> Some dquote ->
  unquoteValue (quoteValue v) = Ok (v, "", true).
Proof.
  intros Hplain Htrim Hfirst.
  assert (Hhash : strings.Split v "#" = [v]).
  { apply (split_absent "#"). by apply (ContainsAny_one _ _ _ Hplain). }
  assert (Hsemi : strings.Split v ";" = [v]).
  { apply (split_absent ";"). by apply (ContainsAny_one _ _ _ Hplain). }
  unfold quoteValue. rewrite Hplain, Htrim, String.eqb_refl. cbn [negb andb].
  unfold unquoteValue. rewrite Htrim.
  destruct v as [|c rest]; [done|].
  destruct (Ascii.eqb_spec c dquote) as [->|Hc]; [done|].
  cbn [negb]. unfold removeTrailingComments, getTrailingComment.
  rewrite Hhash. cbn [hd]. rewrite Hsemi. cbn [hd]. rewrite Htrim.
  destruct (Ascii.eqb_spec c dquote) as [->|_]; done.
Qed.

End UnquoteFacts.

(** ** Import lines and the read loop *)

Section ImportFacts.
Context {V : Type} {val : flag.Value V} {lib : GoLib}.

Local Open Scope go_scope.

(** An import line hands over to the nested call and splices its result,
    or fails with it. *)
Lemma parseLine_import getArgs configPath p line target (st : State V) :
  importTarget configPath (lineNum p) line = Some target ->
  parseLine getArgs configPath p line st
  = match getArgs target st with
    | (Ok (importArgs, true), st') => (Ok (Continue (spliced p importArgs)), st')
    | (Ok (_, false), st') => (Ok (Return ([], false)), st')
    | (Panic msg, st') => (Panic msg, st')
    | (Exit c, st') => (Exit c, st')
    | (Diverge, st') => (Diverge, st')
    end.
Proof.
  unfold importTarget, parseLine. intros Ht.
  destruct (utf8.ValidString line); [|done]. simpl negb. cbv iota.
  destruct (strings.HasPrefix _ "#import "); [|done].
  destruct (unquoteValue _) as [[[importPath cmt] [|]]| | |]; try done.
  unfold lift, bind. simpl negb. cbv iota.
  destruct (combinePath configPath importPath) as [t [|]]; [|done].
  injection Ht as ->. cbn [negb].
  by destruct (getArgs target st) as [[[importArgs [|]]|msg|c|] st'].
Qed.

Lemma readLoop_app getArgs configPath ending pre rest p (st : State V) :
  readLoop getArgs configPath ending (pre ++ rest) p st
  = match runLines getArgs configPath pre p st with
    | (Ok (Continue p'), st') => readLoop getArgs configPath ending rest p' st'
    | (Ok (Return r), st') => (Ok r, st')
    | (Panic msg, st') => (Panic msg, st')
    | (Exit c, st') => (Exit c, st')
    | (Diverge, st') => (Diverge, st')
    end.
Proof.
  revert p st. induction pre as [|line pre IH]; intros p st; [done|].
  cbn [app readLoop runLines]. fold (nextLine p). unfold bind.
  destruct (parseLine getArgs configPath (nextLine p) line st)
    as [[[p'|r]|msg|c|] st']; done.
Qed.

(** An import whose resolved path is on the import stack fails at once. *)
Lemma getArgsFromConfig_on_stack fuel w configPath (st : State V) :
  checkImportRecursion st configPath = false ->
  getArgsFromConfig (S fuel) w configPath st = (Ok ([], false), st).
Proof.
  intros Hrec. cbn [getArgsFromConfig]. unfold bind at 1, get at 1.
  by rewrite Hrec.
Qed.

Lemma openConfigFile_push w (st : State V) configPath path :
  openConfigFile w (push configPath st) path = openConfigFile w st path.
Proof. reflexivity. Qed.

(** A file that is opened and read up to an import line whose nested call
    fails, fails itself, with the import stack as it was. *)
Lemma getArgsFromConfig_failed_import fuel w configPath (st : State V)
    f pre line post p target x :
  checkImportRecursion st configPath = true ->
  openConfigFile w st configPath = (Some f, None) ->
  readLines (content f) "" = (pre ++ line :: post)%list ->
  runLines (getArgsFromConfig fuel w) configPath pre startLocals
    (push configPath st)
  = (Ok (Continue p), push configPath st) ->
  importTarget configPath (incr64 (lineNum p)) line = Some target ->
  getArgsFromConfig fuel w target (push configPath st)
  = (Ok (x, false), push configPath st) ->
  getArgsFromConfig (S fuel) w configPath st = (Ok ([], false), st).
Proof.
  intros Hrec Hopen Hlines Hpre Himp Hnested.
  cbn [getArgsFromConfig]. unfold bind at 1, get at 1.
  rewrite Hrec. cbn [negb].
  unfold bind at 1, put at 1, defer.
  unfold bind at 1, get at 1.
  rewrite openConfigFile_push, Hopen, Hlines.
  fold startLocals. rewrite readLoop_app, Hpre.
  cbn [readLoop]. unfold bind at 1.
  rewrite (parseLine_import _ _ _ _ target); [|exact Himp].
  rewrite Hnested. simpl. by rewrite pop_push.
Qed.

(** C7 (cyclic import).  Let file A open and be read without error up to
    a line that imports B, and let B open and be read without error up to a
    line that imports A.  Then, with fuel for three nested calls, parsing A
    returns no directive list and [ok = false], and leaves the import stack
    as it was before the call (empty, when the parse is a top-level one);
    and a merge pass whose config file is A fails with the whole package
    state, the flag registry included, unchanged. *)
Theorem C7_cyclic_import_fails_cleanly fuel w (st : State V)
    A B fA fB preA lineA postA preB lineB postB pA pB :
  checkImportRecursion st A = true ->
  openConfigFile w st A = (Some fA, None) ->
  readLines (content fA) "" = (preA ++ lineA :: postA)%list ->
  runLines (getArgsFromConfig (S (S fuel)) w) A preA startLocals (push A st)
  = (Ok (Continue pA), push A st) ->
  importTarget A (incr64 (lineNum pA)) lineA = Some B ->
  openConfigFile w st B = (Some fB, None) ->
  readLines (content fB) "" = (preB ++ lineB :: postB)%list ->
  runLines (getArgsFromConfig (S fuel) w) B preB startLocals
    (push B (push A st))
  = (Ok (Continue pB), push B (push A st)) ->
  importTarget B (incr64 (lineNum pB)) lineB = Some A ->
  resolveConfig st = (A, true) ->
  A <> "" ->
  getArgsFromConfig (S (S (S fuel))) w A st = (Ok ([], false), st)
  /\ parseConfigFlags (S (S (S fuel))) w st = (Ok (∅, false), st).
Proof.
  intros HrecA HopenA HlinesA HpreA HimpA HopenB HlinesB HpreB HimpB Hcfg HA.
  assert (Hparse :
    getArgsFromConfig (S (S (S fuel))) w A st = (Ok ([], false), st)).
  { eapply getArgsFromConfig_failed_import with (x := []); try eassumption.
    destruct (checkImportRecursion (push A st) B) eqn:HrecB.
    - eapply getArgsFromConfig_failed_import with (x := []); try eassumption.
      apply getArgsFromConfig_on_stack.
      unfold checkImportRecursion, push, with_importStack; simpl.
      rewrite !forallb_app. simpl.
      by rewrite String.eqb_refl, andb_false_r.
    - by apply getArgsFromConfig_on_stack. }
  split; [done|].
  unfold parseConfigFlags, bind at 1, get at 1. rewrite Hcfg.
  cbn [negb]. apply String.eqb_neq in HA. rewrite HA.
  unfold bind at 1. by rewrite Hparse.
Qed.

End ImportFacts.

(** ** Multi-line values and imports *)

Section JoinFacts.
Context {V : Type} {val : flag.Value V} {lib : GoLib}.

Lemma multilineSource_parsed getArgs configPath (st : State V) :
  readLoop getArgs configPath EOF (readLines multilineSource "") startLocals st
  = (Ok ([ {| Key := "m"; Value := "line1,line2|line3line4";
              FilePath := configPath; LineNum := 1; Comment := "" |} ], true),
     st).
Proof. reflexivity. Qed.

(** C4 (multi-line join).  The four lines [m{,}=line1], [m{,}=line2],
    [m{|}=line3], [m{}=line4] yield the single directive [m] with value
    [line1,line2|line3line4].  In general, for a key [base{delim}] and the
    accumulation that is pending (the one whose key is not empty, the empty
    key being the mark for none): an occurrence with the same base name
    appends [delim] and then its value; one with another base name flushes
    the pending accumulation and starts anew; a bare key flushes it before
    the bare directive is emitted; and the end of the source flushes it. *)
Theorem C4_multiline_values_join getArgs configPath (st : State V)
    (p : locals) (base delim bare value : string) (fa : flagArg) :
  strings.ContainsAny delim "{" = false ->
  strings.HasSuffix bare "}" = false ->
  readLoop getArgs configPath EOF (readLines multilineSource "") startLocals st
  = (Ok ([ {| Key := "m"; Value := "line1,line2|line3line4";
              FilePath := configPath; LineNum := 1; Comment := "" |} ], true),
     st)
  /\ joinDirective p (multilineKey base delim) value fa
     = Continue
         (if String.eqb (Key (multilineFA p)) ""
          then {| lineNum := lineNum p; comment := "";
                  multilineFA := withKey fa base; args := args p |}
          else if String.eqb (Key (multilineFA p)) base
          then {| lineNum := lineNum p; comment := "";
                  multilineFA :=
                    withValue (multilineFA p)
                      (Value (multilineFA p) ++ delim ++ value);
                  args := args p |}
          else {| lineNum := lineNum p; comment := "";
                  multilineFA := withKey fa base;
                  args := (args p ++ [multilineFA p])%list |})
  /\ joinDirective p bare value fa
     = Continue
         (if String.eqb (Key (multilineFA p)) ""
          then {| lineNum := lineNum p; comment := "";
                  multilineFA := multilineFA p;
                  args := (args p ++ [fa])%list |}
          else {| lineNum := lineNum p; comment := "";
                  multilineFA := noFlagArg;
                  args := (args p ++ [multilineFA p; fa])%list |})
  /\ readLoop getArgs configPath EOF [] p st
     = (Ok (if String.eqb (Key (multilineFA p)) "" then args p
            else (args p ++ [multilineFA p])%list, true), st).
Proof.
  intros Hdelim Hbare.
  pose proof (len_pos (Key (multilineFA p))) as Hlen.
  split_and!.
  - apply multilineSource_parsed.
  - unfold joinDirective.
    rewrite multilineKey_suffix, multilineKey_brace by done.
    cbn [negb].
    replace (len base <? 0) with false
      by (symmetry; apply Z.ltb_ge; unfold len; lia).
    rewrite multilineKey_base, multilineKey_delimiter.
    destruct (String.eqb (Key (multilineFA p)) ""); [done|].
    by destruct (String.eqb (Key (multilineFA p)) base).
  - unfold joinDirective. rewrite Hbare. cbn [negb]. rewrite Hlen.
    destruct (String.eqb (Key (multilineFA p)) ""); cbn [negb]; [done|].
    by rewrite <- app_assoc.
  - cbn [readLoop]. cbn [multilineFA lineNum args comment]. rewrite Hlen.
    by destruct (String.eqb (Key (multilineFA p)) "").
Qed.

(** Directives are merged in their order: the last one acts on the
    registry the earlier ones produced. *)
Lemma mergeArgs_last shorthands missingFlags l arg (acc : merging (V:=V)) :
  mergeArgs shorthands missingFlags (l ++ [arg])%list acc
  = mergeArg shorthands missingFlags
      (mergeArgs shorthands missingFlags l acc) arg.
Proof. unfold mergeArgs. by rewrite fold_left_app. Qed.

(** What the import branch does.  When a line that starts with [#import ]
    after trimming resolves to [target], and the nested parse of [target]
    returns the directives [importArgs], the loop goes on with [importArgs]
    appended to the directives emitted so far and nothing else changed: a
    multi-line value that is pending stays pending.  A directive [arg] that
    a later line puts behind them is merged after them and decides its
    flag: if the flag is registered and missing on the command line, it ends
    with the value [arg] sets, whatever the imported directives made of
    it. *)
Lemma import_appends_imported_directives getArgs configPath (p : locals) line target
    importArgs (st st' : State V) :
  importTarget configPath (lineNum p) line = Some target ->
  getArgs target st = (Ok (importArgs, true), st') ->
  parseLine getArgs configPath p line st
  = (Ok (Continue {| lineNum := lineNum p; comment := comment p;
                     multilineFA := multilineFA p;
                     args := (args p ++ importArgs)%list |}), st')
  /\ forall shorthands missingFlags later arg (acc : merging (V:=V))
       fs old ok f,
       mergeArgs shorthands missingFlags
         ((args p ++ importArgs) ++ later)%list acc = (fs, old, ok) ->
       flag.Lookup fs (Key arg) = Some f ->
       Key arg ∈ missingFlags ->
       fst (fst (mergeArgs shorthands missingFlags
                   (((args p ++ importArgs) ++ later) ++ [arg])%list acc))
       = if String.eqb (flag.String_of f) (Value arg) then fs
         else fst (flag.Value_Set_at fs (Key arg) f (Value arg)).
Proof.
  intros Himp Hargs. split.
  - rewrite (parseLine_import _ _ _ _ target); [|done]. by rewrite Hargs.
  - intros shorthands missingFlags later arg acc fs old ok f Hmerge Hf Hmiss.
    rewrite mergeArgs_last, Hmerge. unfold mergeArg. rewrite Hf.
    rewrite bool_decide_eq_true_2 by done.
    destruct (String.eqb (flag.String_of f) (Value arg)); [done|].
    destruct (flag.Value_Set_at fs (Key arg) f (Value arg)) as [fs' [e|]];
      [done|].
    by destruct (negb _).
Qed.

(** So an import overtakes a pending multi-line value: when the import is
    the last line of the source, the value that was started before the
    import line is emitted behind the imported directives. *)
Lemma import_overtakes_pending_value getArgs configPath (p : locals) line target
    importArgs (st st' : State V) :
  importTarget configPath (incr64 (lineNum p)) line = Some target ->
  getArgs target st = (Ok (importArgs, true), st') ->
  Key (multilineFA p) <> "" ->
  readLoop getArgs configPath EOF [line] p st
  = (Ok ((args p ++ importArgs) ++ [multilineFA p], true)%list, st').
Proof.
  intros Himp Hargs Hpending. cbn [readLoop]. unfold bind at 1.
  rewrite (parseLine_import _ _ _ _ target) by done. rewrite Hargs.
  cbn [negb spliced lineNum comment multilineFA args].
  rewrite len_pos. apply String.eqb_neq in Hpending. by rewrite Hpending.
Qed.

End JoinFacts.

(** ** Remote sources *)

Section FetchFacts.
Context {V : Type} {val : flag.Value V} {lib : GoLib}.

(** Plaintext http is refused unless [-unsecure] is set. *)
Lemma openConfigFile_plaintext_refused w (st : State V) path :
  isHTTP path = true -> isSecure path = false ->
  deref_bool (CommandLine st) "unsecure" = false ->
  openConfigFile w st path
  = (None, Some "unsecure communication is not allowed").
Proof.
  intros Hhttp Hsec Huns. unfold openConfigFile. by rewrite Hhttp, Hsec, Huns.
Qed.

(** With [-unsecure], or over https, the source is fetched, and a response
    with status 200 is the reader. *)
Lemma openConfigFile_fetched w (st : State V) path resp :
  isHTTP path = true ->
  isSecure path = true \/ deref_bool (CommandLine st) "unsecure" = true ->
  http_Get w path = Some resp -> StatusCode resp = 200 ->
  openConfigFile w st path = (Some (Body resp), None).
Proof.
  intros Hhttp Hallowed Hget Hstatus. unfold openConfigFile. rewrite Hhttp.
  destruct (isSecure path).
  - by rewrite Hget, Hstatus.
  - destruct Hallowed as [Hs|Hu]; [done|].
    rewrite Hu. cbn [negb]. by rewrite Hget, Hstatus.
Qed.

(** C9 (remote fetch), at a response whose status is not 200.  When the
    source is fetched (over https, or over http with [-unsecure]) and the
    response has another status, [openConfigFile] returns neither a reader
    nor an error: the error it returns is the [nil] error of the successful
    [http.Get].  The caller takes the missing error for success and panics
    on the missing reader. *)
Theorem C9_bad_status_returns_nil_error w (st : State V) path resp fuel :
  isHTTP path = true ->
  isSecure path = true \/ deref_bool (CommandLine st) "unsecure" = true ->
  http_Get w path = Some resp ->
  StatusCode resp <> 200 ->
  checkImportRecursion st path = true ->
  openConfigFile w st path = (None, None)
  /\ fst (getArgsFromConfig (S fuel) w path st)
     = Panic "invalid memory address or nil pointer dereference".
Proof.
  intros Hhttp Hallowed Hget Hstatus Hrec.
  assert (Hopen : forall st' : State V,
            CommandLine st' = CommandLine st ->
            openConfigFile w st' path = (None, None)).
  { intros st' Hcl. unfold openConfigFile. rewrite Hhttp, Hcl.
    apply Z.eqb_neq in Hstatus.
    destruct (isSecure path).
    - by rewrite Hget, Hstatus.
    - destruct Hallowed as [Hs|Hu]; [done|].
      rewrite Hu. cbn [negb]. by rewrite Hget, Hstatus. }
  split; [by apply Hopen|].
  cbn [getArgsFromConfig]. unfold bind at 1, get at 1. rewrite Hrec.
  cbn [negb]. unfold bind at 1, put at 1, defer.
  unfold bind at 1, get at 1. by rewrite Hopen.
Qed.

End FetchFacts.

(** ** Termination of the import recursion *)

Section ParserTermination.
Context {V : Type} {val : flag.Value V} {lib : GoLib}.

Lemma unquoteValue_outcome text :
  (exists r, unquoteValue text = Ok r)
  \/ (exists msg, unquoteValue text = Panic msg).
Proof.
  unfold unquoteValue.
  destruct (strings.TrimSpace text) as [|c rest]; [left; eauto|].
  destruct (negb _); [left; eauto|].
  destruct (_ =? -1); [left; eauto|].
  destruct (_ <? 1); [right; eauto|left; eauto].
Qed.

Lemma parseLine_no_diverge getArgs configPath p line (st : State V) :
  (forall path, fst (getArgs path st) <> Diverge) ->
  fst (parseLine getArgs configPath p line st) <> Diverge.
Proof.
  intros Hg. unfold parseLine.
  destruct (negb (utf8.ValidString line)); [done|].
  destruct (strings.HasPrefix _ "#import ").
  - unfold bind, lift.
    destruct (unquoteValue_outcome
                (drop_str 7 (strings.TrimSpace
                   (if lineNum p =? 1 then stripBOM line else line))))
      as [[[[importPath cmt] ok] ->]|[msg ->]]; [|done].
    destruct (negb ok); [done|].
    destruct (combinePath configPath importPath) as [target ok'].
    destruct (negb ok'); [done|].
    specialize (Hg target).
    destruct (getArgs target st) as [[[importArgs ok'']|msg|c|] st']; try done.
    by destruct (negb ok'').
  - destruct (strings.TrimSpace _) as [|c rest]; [done|].
    destruct (Ascii.eqb c "["); [done|].
    destruct (_ || _); [done|].
    destruct (strings.SplitN _ "=" 2) as [|part0 [|part1 [|? ?]]]; try done.
    unfold bind, lift.
    destruct (unquoteValue_outcome part1)
      as [[[[value cmt] ok] ->]|[msg ->]]; [|done].
    by destruct (negb ok).
Qed.

Lemma readLoop_no_diverge getArgs configPath ending lines p (st : State V) :
  (forall path, readonly (getArgs path)) ->
  (forall path, fst (getArgs path st) <> Diverge) ->
  fst (readLoop getArgs configPath ending lines p st) <> Diverge.
Proof.
  intros Hro Hg. revert p. induction lines as [|line lines IH]; intros p.
  - cbn [readLoop]. destruct ending; [|done]. by destruct (0 <? _).
  - cbn [readLoop]. unfold bind at 1.
    pose proof (parseLine_no_diverge getArgs configPath
                  {| lineNum := incr64 (lineNum p); comment := comment p;
                     multilineFA := multilineFA p; args := args p |}
                  line st Hg) as Hnd.
    pose proof (readonly_parseLine getArgs configPath
                  {| lineNum := incr64 (lineNum p); comment := comment p;
                     multilineFA := multilineFA p; args := args p |}
                  line Hro st) as Hst.
    destruct (parseLine _ _ _ _ st) as [[[p'|r]|msg|c|] st']; try done.
    simpl in Hst. subst st'. apply IH.
Qed.

Lemma checkImportRecursion_push configPath path (st : State V) :
  checkImportRecursion (push configPath st) path
  = checkImportRecursion st path && negb (String.eqb configPath path).
Proof.
  unfold checkImportRecursion, push, with_importStack; simpl.
  rewrite forallb_app. simpl. by rewrite andb_true_r.
Qed.

Lemma unvisited_push files configPath (st : State V) :
  In configPath files ->
  checkImportRecursion st configPath = true ->
  (length (unvisited files (push configPath st)) <
   length (unvisited files st))%nat.
Proof.
  intros Hin Hrec. unfold unvisited.
  assert (Hle : forall l,
            (length (List.filter (checkImportRecursion (push configPath st)) l)
             <= length (List.filter (checkImportRecursion st) l))%nat).
  { induction l as [|x l IHl]; [done|]. cbn [List.filter].
    rewrite checkImportRecursion_push.
    destruct (checkImportRecursion st x); cbn [andb]; [|done].
    destruct (negb _); cbn [length]; lia. }
  induction files as [|f files IH]; [done|].
  cbn [List.filter]. rewrite checkImportRecursion_push.
  destruct Hin as [->|Hin].
  - rewrite Hrec, String.eqb_refl. cbn [andb negb length].
    specialize (Hle files). lia.
  - specialize (IH Hin).
    destruct (checkImportRecursion st f); cbn [andb]; [|done].
    destruct (negb _); cbn [length]; [lia|].
    specialize (Hle files). lia.
Qed.

(** On a finite set of files the import recursion ends: once the fuel
    exceeds the number of files that are not on the import stack,
    [getArgsFromConfig] returns, panics or fails, but does not run out of
    fuel, however the files import one another. *)
Theorem getArgsFromConfig_terminates w files fuel configPath (st : State V) :
  (forall path f, os_Open w path = Some f -> In path files) ->
  (forall path r, http_Get w path = Some r -> In path files) ->
  (length (unvisited files st) < fuel)%nat ->
  fst (getArgsFromConfig fuel w configPath st) <> Diverge.
Proof.
  intros Hopen Hget.
  assert (Hfile : forall (s : State V) path f,
            openConfigFile w s path = (Some f, None) -> In path files).
  { intros s path f. unfold openConfigFile.
    destruct (isHTTP path).
    - destruct (if isSecure path then _ else _) as [[resp|]|] eqn:Hf; try done.
      intros _. apply (Hget path resp).
      destruct (isSecure path); [by injection Hf|].
      destruct (negb _); [done|by injection Hf].
    - destruct (os_Open w path) as [file|] eqn:Ho; [|done].
      intros _. by apply (Hopen path file). }
  revert configPath st. induction fuel as [|fuel IH]; intros configPath st Hlen.
  - lia.
  - cbn [getArgsFromConfig]. unfold bind at 1, get at 1.
    destruct (checkImportRecursion st configPath) eqn:Hrec; [|done].
    cbn [negb]. unfold bind at 1, put at 1, defer.
    unfold bind at 1, get at 1.
    destruct (openConfigFile w (push configPath st) configPath)
      as [[f|] [e|]] eqn:Ho; try done.
    pose proof (unvisited_push files configPath st
                  (Hfile _ _ _ Ho) Hrec) as Hless.
    pose proof (readLoop_no_diverge (getArgsFromConfig fuel w) configPath
                  (ending f) (readLines (content f) "")
                  {| lineNum := 0; comment := ""; multilineFA := noFlagArg;
                     args := [] |} (push configPath st)) as Hloop.
    destruct (readLoop _ _ _ _ _ _) as [r st'].
    simpl in *. apply Hloop.
    + intros path. apply readonly_getArgsFromConfig.
    + intros path. apply IH. lia.
Qed.

End ParserTermination.

(** ** The result does not depend on the fuel *)

Section FuelFacts.
Context {V : Type} {val : flag.Value V} {lib : GoLib}.

Lemma parseLine_more_fuel g1 g2 configPath p line (st : State V) :
  (forall path, fst (g1 path st) <> Diverge -> g2 path st = g1 path st) ->
  fst (parseLine g1 configPath p line st) <> Diverge ->
  parseLine g2 configPath p line st = parseLine g1 configPath p line st.
Proof.
  intros Hg. unfold parseLine.
  destruct (negb (utf8.ValidString line)); [done|].
  destruct (strings.HasPrefix _ "#import "); [|done].
  unfold bind, lift.
  destruct (unquoteValue _) as [[[importPath cmt] ok]|msg|c|]; try done.
  destruct (negb ok); [done|].
  destruct (combinePath configPath importPath) as [target ok'].
  destruct (negb ok'); [done|].
  specialize (Hg target). intros Hnd.
  rewrite Hg; [done|].
  by destruct (g1 target st) as [[[importArgs ok'']|msg|c|] st'].
Qed.

Lemma readLoop_more_fuel g1 g2 configPath ending lines p (st : State V) :
  (forall path, readonly (g1 path)) ->
  (forall path, fst (g1 path st) <> Diverge -> g2 path st = g1 path st) ->
  fst (readLoop g1 configPath ending lines p st) <> Diverge ->
  readLoop g2 configPath ending lines p st
  = readLoop g1 configPath ending lines p st.
Proof.
  intros Hro Hg. revert p. induction lines as [|line lines IH]; intros p.
  - done.
  - cbn [readLoop]. unfold bind. intros Hnd.
    pose proof (readonly_parseLine g1 configPath
                  {| lineNum := incr64 (lineNum p); comment := comment p;
                     multilineFA := multilineFA p; args := args p |}
                  line Hro st) as Hst.
    rewrite (parseLine_more_fuel g1 g2); [|done|].
    + destruct (parseLine g1 _ _ _ st) as [[[p'|r]|msg|c|] st']; try done.
      simpl in Hst. subst st'. by apply IH.
    + by destruct (parseLine g1 _ _ _ st) as [[[p'|r]|msg|c|] st'].
Qed.

(** One call of [getArgsFromConfig], with its deferred pop. *)
Lemma getArgsFromConfig_step fuel w configPath (st : State V) :
  getArgsFromConfig (S fuel) w configPath st
  = if checkImportRecursion st configPath then
      match openConfigFile w st configPath with
      | (_, Some _) =>
          (Ok ([], deref_bool (CommandLine st) "allowMissingConfig"), st)
      | (None, None) =>
          (Panic "invalid memory address or nil pointer dereference", st)
      | (Some f, None) =>
          let '(r, st') :=
            readLoop (getArgsFromConfig fuel w) configPath (ending f)
              (readLines (content f) "") startLocals (push configPath st) in
          (r, pop st')
      end
    else (Ok ([], false), st).
Proof.
  cbn [getArgsFromConfig]. unfold bind at 1, get at 1.
  destruct (checkImportRecursion st configPath); [|done].
  cbn [negb]. unfold bind at 1, put at 1, defer.
  unfold bind at 1, get at 1. rewrite openConfigFile_push.
  destruct (openConfigFile w st configPath) as [[f|] [e|]];
    unfold ret, panic; cbn [CommandLine push with_importStack];
    rewrite ?pop_push; done.
Qed.

Lemma getArgsFromConfig_one_more fuel w configPath (st : State V) :
  fst (getArgsFromConfig fuel w configPath st) <> Diverge ->
  getArgsFromConfig (S fuel) w configPath st
  = getArgsFromConfig fuel w configPath st.
Proof.
  revert configPath st. induction fuel as [|fuel IH]; intros configPath st.
  - done.
  - rewrite !getArgsFromConfig_step.
    destruct (checkImportRecursion st configPath); [|done].
    destruct (openConfigFile w st configPath) as [[f|] [e|]]; try done.
    intros Hnd.
    rewrite (readLoop_more_fuel (getArgsFromConfig fuel w)
               (getArgsFromConfig (S fuel) w)); [done| | |].
    + intros path. apply readonly_getArgsFromConfig.
    + intros path. apply IH.
    + by destruct (readLoop (getArgsFromConfig fuel w) _ _ _ _ _).
Qed.

(** Fuel only bounds the recursion: a result obtained with some fuel is
    the result with any larger fuel. *)
Lemma getArgsFromConfig_fuel_irrelevant fuel fuel' w configPath
    (st : State V) :
  (fuel <= fuel')%nat ->
  fst (getArgsFromConfig fuel w configPath st) <> Diverge ->
  getArgsFromConfig fuel' w configPath st
  = getArgsFromConfig fuel w configPath st.
Proof.
  intros Hle Hnd. induction Hle as [|fuel' Hle IH]; [done|].
  rewrite getArgsFromConfig_one_more; [done|]. by rewrite IH.
Qed.

End FuelFacts.

(** ** Lines that yield no directive, and lines that end the parse *)

Section LineFacts.
Context {V : Type} {val : flag.Value V} {lib : GoLib}.

Lemma parseLine_inert getArgs configPath p line (st : State V) :
  inertLine (lineNum p) line = true ->
  exists cmt,
    parseLine getArgs configPath p line st
    = (Ok (Continue {| lineNum := lineNum p; comment := cmt;
                       multilineFA := multilineFA p; args := args p |}), st).
Proof.
  unfold inertLine, trimmedLine, parseLine. intros Hinert.
  apply andb_true_iff in Hinert as [Hinert Hkind].
  apply andb_true_iff in Hinert as [Hvalid Himport].
  rewrite Hvalid. cbn [negb]. apply negb_true_iff in Himport.
  rewrite Himport.
  destruct (strings.TrimSpace _) as [|c rest]; [by eexists|].
  destruct (Ascii.eqb c "["); [by eexists|].
  cbn [orb] in Hkind. rewrite Hkind. by eexists.
Qed.

(** Blank lines, section headers and comments neither emit a directive nor
    flush a pending multi-line value: a run of them up to the end of the
    source gives what the end of the source gives at once. *)
Theorem inert_lines_emit_nothing getArgs configPath ending lines p
    (st : State V) :
  allInert (lineNum p) lines = true ->
  readLoop getArgs configPath ending lines p st
  = (match ending with
     | EOF =>
         Ok (if String.eqb (Key (multilineFA p)) "" then args p
             else (args p ++ [multilineFA p])%list, true)
     | ReadError => Ok ([], false)
     end, st).
Proof.
  revert p. induction lines as [|line lines IH]; intros p Hall.
  - cbn [readLoop]. cbn [multilineFA args]. rewrite len_pos.
    destruct ending; [|done].
    by destruct (String.eqb (Key (multilineFA p)) "").
  - cbn [allInert] in Hall. apply andb_true_iff in Hall as [Hline Hrest].
    cbn [readLoop]. unfold bind.
    destruct (parseLine_inert getArgs configPath
                {| lineNum := incr64 (lineNum p); comment := comment p;
                   multilineFA := multilineFA p; args := args p |}
                line st Hline) as [cmt ->].
    rewrite IH; [done|exact Hrest].
Qed.

Lemma index_absent c s i :
  strings.ContainsAny s (str c) = false ->
  strings.index_from i s (str c) = None.
Proof.
  revert i. induction s as [|a s IH]; intros i Hno.
  - done.
  - simpl in Hno. apply orb_false_iff in Hno as [Ha Hs].
    rewrite orb_false_r in Ha.
    cbn [strings.index_from].
    rewrite prefix_single, Ascii.eqb_sym, Ha. by apply IH.
Qed.

(** A line the loop cannot classify ends the parse of the whole source:
    after lines that were read without error, a line of invalid UTF-8, and
    a key/value line without [=], make the source return no directive and
    [ok = false], whatever was read before and whatever follows. *)
Theorem unreadable_line_aborts getArgs configPath ending pre line post p p'
    (st : State V) :
  runLines getArgs configPath pre p st = (Ok (Continue p'), st) ->
  utf8.ValidString line = false
  \/ (keyValueLine (incr64 (lineNum p')) line = true
      /\ strings.ContainsAny (trimmedLine (incr64 (lineNum p')) line) "="
         = false) ->
  readLoop getArgs configPath ending (pre ++ line :: post) p st
  = (Ok ([], false), st).
Proof.
  intros Hpre Hbad. rewrite readLoop_app, Hpre.
  cbn [readLoop]. unfold bind.
  assert (Hline :
    parseLine getArgs configPath
      {| lineNum := incr64 (lineNum p'); comment := comment p';
         multilineFA := multilineFA p'; args := args p' |} line st
    = (Ok (Return ([], false)), st)).
  { unfold parseLine. cbn [lineNum].
    destruct Hbad as [Hinvalid|[Hkv Hnoeq]]; [by rewrite Hinvalid|].
    unfold keyValueLine, trimmedLine in *.
    apply andb_true_iff in Hkv as [Hkv Hkind].
    apply andb_true_iff in Hkv as [Hvalid Himport].
    rewrite Hvalid. cbn [negb]. apply negb_true_iff in Himport.
    rewrite Himport.
    destruct (strings.TrimSpace _) as [|c rest] eqn:Ht; [done|].
    apply negb_true_iff, orb_false_iff in Hkind as [Hkind Hsemi].
    apply orb_false_iff in Hkind as [Hbracket Hhash].
    rewrite Hbracket, Hhash, Hsemi. cbn [orb].
    cbn [strings.SplitN].
    change "=" with (str "="%char).
    by rewrite index_absent. }
  by rewrite Hline.
Qed.

Lemma ValidString_bomFEFF line :
  utf8.ValidString (bomFEFF ++ line) = utf8.ValidString line.
Proof. reflexivity. Qed.

Lemma ValidString_bomFFFE line :
  utf8.ValidString (bomFFFE ++ line) = utf8.ValidString line.
Proof. reflexivity. Qed.

Lemma stripBOM_bom bom line :
  bom = bomFEFF \/ bom = bomFFFE -> stripBOM (bom ++ line) = line.
Proof.
  intros Hbom. unfold stripBOM.
  assert (Hlen : (len (bom ++ line) <? 3) = false).
  { apply Z.ltb_ge. unfold len. rewrite length_app.
    destruct Hbom as [->| ->]; simpl; lia. }
  rewrite Hlen. by destruct Hbom as [->| ->].
Qed.

(** A byte-order mark at the start of the first line is ignored: the line
    is read as the line without the mark. *)
Theorem first_line_BOM_ignored getArgs configPath p bom line (st : State V) :
  lineNum p = 1 ->
  bom = bomFEFF \/ bom = bomFFFE ->
  stripBOM line = line ->
  parseLine getArgs configPath p (bom ++ line) st
  = parseLine getArgs configPath p line st.
Proof.
  intros Hfirst Hbom Hline. unfold parseLine. rewrite Hfirst. cbn [Z.eqb Pos.eqb].
  rewrite (stripBOM_bom bom line Hbom), Hline.
  by destruct Hbom as [->| ->];
    rewrite ?ValidString_bomFEFF, ?ValidString_bomFFFE.
Qed.

End LineFacts.

(** ** Sources that cannot be opened, and no source at all *)

Section MissingFacts.
Context {V : Type} {val : flag.Value V} {lib : GoLib}.

Lemma with_CommandLine_same (st : State V) :
  with_CommandLine st (CommandLine st) = st.
Proof. by destruct st. Qed.

(** A config file that cannot be opened: the pass changes nothing, and it
    succeeds, with an empty change set, exactly when [-allowMissingConfig]
    is set. *)
Theorem missing_config_file fuel w configPath (st : State V) err :
  resolveConfig st = (configPath, true) ->
  configPath <> "" ->
  checkImportRecursion st configPath = true ->
  openConfigFile w st configPath = (None, Some err) ->
  parseConfigFlags (S fuel) w st
  = (Ok (∅, deref_bool (CommandLine st) "allowMissingConfig"), st).
Proof.
  intros Hcfg Hne Hrec Hopen.
  unfold parseConfigFlags, bind at 1, get at 1. rewrite Hcfg. cbn [negb].
  apply String.eqb_neq in Hne. rewrite Hne.
  unfold bind at 1. rewrite getArgsFromConfig_step, Hrec, Hopen.
  destruct (deref_bool (CommandLine st) "allowMissingConfig"); [|done].
  cbn [negb]. unfold bind, get, put, ret. cbn [mergeArgs fold_left negb].
  by rewrite with_CommandLine_same.
Qed.

(** An import that cannot be opened is skipped when [-allowMissingConfig]
    is set, and ends the parse of the importing file when it is not. *)
Theorem missing_import fuel w configPath p line target (st : State V) err :
  importTarget configPath (lineNum p) line = Some target ->
  checkImportRecursion st target = true ->
  openConfigFile w st target = (None, Some err) ->
  parseLine (getArgsFromConfig (S fuel) w) configPath p line st
  = (Ok (if deref_bool (CommandLine st) "allowMissingConfig"
         then Continue p else Return ([], false)), st).
Proof.
  intros Himp Hrec Hopen.
  rewrite (parseLine_import _ _ _ _ target) by done.
  rewrite getArgsFromConfig_step, Hrec, Hopen.
  destruct (deref_bool _ _); [|done].
  unfold spliced. rewrite app_nil_r. by destruct p.
Qed.

(** Without a config path there is nothing to merge: the pass succeeds
    with an empty change set and changes nothing. *)
Theorem no_config_no_change fuel w (st : State V) :
  deref_string (CommandLine st) "config" = "" ->
  isHTTP (hd "" (os_Args st)) = false ->
  parseConfigFlags fuel w st = (Ok (∅, true), st).
Proof.
  intros Hconfig Hlocal.
  unfold parseConfigFlags, bind, get, resolveConfig, combinePath.
  by rewrite Hconfig, Hlocal.
Qed.

End MissingFacts.

(** ** Plaintext sources *)

Section PlaintextFacts.
Context {V : Type} {val : flag.Value V} {lib : GoLib}.

Lemma parseLine_ext g1 g2 configPath p line (st : State V) :
  (forall path, g2 path st = g1 path st) ->
  parseLine g2 configPath p line st = parseLine g1 configPath p line st.
Proof.
  intros Hg. unfold parseLine.
  destruct (negb (utf8.ValidString line)); [done|].
  destruct (strings.HasPrefix _ "#import "); [|done].
  unfold bind, lift.
  destruct (unquoteValue _) as [[[importPath cmt] ok]|msg|c|]; try done.
  destruct (negb ok); [done|].
  destruct (combinePath configPath importPath) as [target ok'].
  destruct (negb ok'); [done|]. by rewrite Hg.
Qed.

Lemma readLoop_ext g1 g2 configPath ending lines p (st : State V) :
  (forall path, readonly (g1 path)) ->
  (forall path, g2 path st = g1 path st) ->
  readLoop g2 configPath ending lines p st
  = readLoop g1 configPath ending lines p st.
Proof.
  intros Hro Hg. revert p. induction lines as [|line lines IH]; intros p.
  - done.
  - cbn [readLoop]. unfold bind.
    pose proof (readonly_parseLine g1 configPath
                  {| lineNum := incr64 (lineNum p); comment := comment p;
                     multilineFA := multilineFA p; args := args p |}
                  line Hro st) as Hst.
    rewrite (parseLine_ext g1 g2) by done.
    destruct (parseLine g1 _ _ _ st) as [[[p'|r]|msg|c|] st']; try done.
    simpl in Hst. subst st'. by apply IH.
Qed.

(** Without [-unsecure] no plaintext source is read: the outcome of a
    parse, imports included, is the same in two worlds that only differ in
    what their [http://] servers answer. *)
Theorem plaintext_is_not_read_without_unsecure
    fuel w w' configPath (st : State V) :
  (forall path, os_Open w' path = os_Open w path) ->
  (forall path, isSecure path = true -> http_Get w' path = http_Get w path) ->
  deref_bool (CommandLine st) "unsecure" = false ->
  getArgsFromConfig fuel w' configPath st
  = getArgsFromConfig fuel w configPath st.
Proof.
  intros Hopen Hget.
  assert (Hfile : forall (s : State V) path,
            deref_bool (CommandLine s) "unsecure" = false ->
            openConfigFile w' s path = openConfigFile w s path).
  { intros s path Huns. unfold openConfigFile. rewrite Huns, Hopen.
    destruct (isHTTP path); [|done].
    destruct (isSecure path) eqn:Hsec; [|done]. by rewrite Hget. }
  revert configPath st. induction fuel as [|fuel IH]; intros configPath st Huns.
  - done.
  - rewrite !getArgsFromConfig_step, Hfile by done.
    destruct (checkImportRecursion st configPath); [|done].
    destruct (openConfigFile w st configPath) as [[f|] [e|]]; try done.
    rewrite (readLoop_ext (getArgsFromConfig fuel w)
               (getArgsFromConfig fuel w')); [done| |].
    + intros path. apply readonly_getArgsFromConfig.
    + intros path. by apply IH.
Qed.

End PlaintextFacts.

(** ** What quoting and unquoting leave in a value *)

Section QuotingFacts.
Context {lib : GoLib}.

Lemma ContainsAny_cons c a s :
  strings.ContainsAny (String a s) (str c)
  = Ascii.eqb a c || strings.ContainsAny s (str c).
Proof. cbn [strings.ContainsAny strings.contains_byte str]. by rewrite orb_false_r. Qed.

Lemma replace_from_lacks c skip n s old new :
  strings.ContainsAny s (str c) = false ->
  strings.ContainsAny new (str c) = false ->
  strings.ContainsAny (strings.replace_from skip n s old new) (str c) = false.
Proof.
  intros Hs Hnew. revert skip n.
  induction s as [|a s IH]; intros skip n; [done|].
  rewrite ContainsAny_cons in Hs. apply orb_false_iff in Hs as [Ha Hs].
  cbn [strings.replace_from]. destruct skip as [|k]; [|by apply IH].
  destruct (negb (n =? 0) && String.prefix old (String a s)).
  - rewrite ContainsAny_app, Hnew. by apply IH.
  - rewrite ContainsAny_cons, Ha. by apply IH.
Qed.

Lemma Replace_lacks c s old new n :
  strings.ContainsAny s (str c) = false ->
  strings.ContainsAny new (str c) = false ->
  strings.ContainsAny (strings.Replace s old new n) (str c) = false.
Proof.
  intros Hs Hnew. unfold strings.Replace.
  destruct old; [done|]. by apply replace_from_lacks.
Qed.

(** Replacing every instance of a byte by text without it removes it. *)
Lemma Replace_removes c s new n :
  n < 0 ->
  strings.ContainsAny new (str c) = false ->
  strings.ContainsAny (strings.Replace s (str c) new n) (str c) = false.
Proof.
  intros Hn Hnew. unfold strings.Replace, str at 1.
  change (String c "") with (str c). revert n Hn.
  induction s as [|a s IH]; intros n Hn; [done|].
  cbn [strings.replace_from].
  replace (n =? 0) with false by (symmetry; apply Z.eqb_neq; lia).
  cbn [negb andb]. rewrite prefix_single.
  destruct (Ascii.eqb_spec c a) as [->|Hne].
  - rewrite ContainsAny_app, Hnew. cbn [orb str String.length Nat.sub].
    apply IH. lia.
  - rewrite ContainsAny_cons.
    replace (Ascii.eqb a c) with false
      by (symmetry; apply Ascii.eqb_neq; congruence).
    cbn [orb]. by apply IH.
Qed.

(** A quoted value stays on its line: [quoteValue] never returns a line
    feed, so every dumped value is read back from one line. *)
Theorem quoteValue_has_no_line_feed (v : string) :
  strings.ContainsAny (quoteValue v) (str LF) = false.
Proof.
  unfold quoteValue.
  destruct (negb (strings.ContainsAny v (str LF ++ "#;"))) eqn:Hplain.
  - destruct (String.eqb (strings.TrimSpace v) v); cbn [andb].
    + apply negb_true_iff in Hplain.
      by apply (ContainsAny_one _ _ _ Hplain).
    + rewrite !ContainsAny_app.
      rewrite Replace_lacks; [done| |done].
      by apply Replace_removes.
  - cbn [andb]. rewrite !ContainsAny_app.
    rewrite Replace_lacks; [done| |done].
    by apply Replace_removes.
Qed.

Lemma split_hd_lacks chars sep s cur :
  strings.ContainsAny cur chars = false ->
  strings.ContainsAny s chars = false ->
  strings.ContainsAny (hd "" (strings.split_from 0 s sep cur)) chars = false.
Proof.
  revert cur. induction s as [|a s IH]; intros cur Hcur Hs; [done|].
  simpl in Hs. apply orb_false_iff in Hs as [Ha Hs].
  cbn [strings.split_from].
  destruct (String.prefix sep (String a s)); [done|].
  apply IH; [|done]. rewrite ContainsAny_app, Hcur.
  cbn [strings.ContainsAny str]. by rewrite Ha.
Qed.

Lemma split_hd_lacks_sep c s cur :
  strings.ContainsAny cur (str c) = false ->
  strings.ContainsAny (hd "" (strings.split_from 0 s (str c) cur)) (str c)
  = false.
Proof.
  revert cur. induction s as [|a s IH]; intros cur Hcur; [done|].
  cbn [strings.split_from]. rewrite prefix_single.
  destruct (Ascii.eqb_spec c a) as [->|Hne]; [done|].
  apply IH. rewrite ContainsAny_app, Hcur. unfold str at 1.
  rewrite ContainsAny_cons.
  replace (Ascii.eqb a c) with false
    by (symmetry; apply Ascii.eqb_neq; congruence).
  done.
Qed.

Lemma ContainsAny_rev s acc chars :
  strings.ContainsAny (rev_str s acc) chars
  = strings.ContainsAny s chars || strings.ContainsAny acc chars.
Proof.
  revert acc. induction s as [|a s IH]; intros acc; [done|].
  cbn [rev_str strings.ContainsAny]. rewrite IH.
  cbn [strings.ContainsAny].
  by destruct (strings.contains_byte a chars), (strings.ContainsAny s chars).
Qed.

Lemma drop_str_lacks k s chars :
  strings.ContainsAny s chars = false ->
  strings.ContainsAny (drop_str k s) chars = false.
Proof.
  revert s. induction k as [|k IH]; intros s Hs; [by destruct s|].
  destruct s as [|a s]; [done|].
  simpl in Hs. apply orb_false_iff in Hs as [_ Hs]. by apply IH.
Qed.

Lemma trim_left_lacks fuel toks s chars :
  strings.ContainsAny s chars = false ->
  strings.ContainsAny (strings.trim_left fuel toks s) chars = false.
Proof.
  revert s. induction fuel as [|fuel IH]; intros s Hs; [done|].
  cbn [strings.trim_left].
  destruct (strings.space_width toks s); [|done].
  by apply IH, drop_str_lacks.
Qed.

Lemma TrimSpace_lacks s chars :
  strings.ContainsAny s chars = false ->
  strings.ContainsAny (strings.TrimSpace s) chars = false.
Proof.
  intros Hs. unfold strings.TrimSpace.
  rewrite ContainsAny_rev, orb_false_r.
  apply trim_left_lacks. rewrite ContainsAny_rev, orb_false_r.
  by apply trim_left_lacks.
Qed.

(** A value that is not quoted never holds a comment marker: what
    [unquoteValue] returns for text that does not start with a double quote
    contains neither [#] nor [;]. *)
Theorem unquoted_value_has_no_comment_marker (text v cmt : string) :
  first_byte (strings.TrimSpace text) <> Some dquote ->
  unquoteValue text = Ok (v, cmt, true) ->
  strings.ContainsAny v "#" = false /\ strings.ContainsAny v ";" = false.
Proof.
  unfold unquoteValue. intros Hfirst.
  destruct (strings.TrimSpace text) as [|c rest]; [by intros [= <- _]|].
  destruct (Ascii.eqb_spec c dquote) as [->|Hc]; [done|].
  cbn [negb]. intros [= <- _].
  unfold removeTrailingComments, strings.Split. split.
  - apply TrimSpace_lacks, split_hd_lacks; [done|].
    by apply (split_hd_lacks_sep "#").
  - apply TrimSpace_lacks. by apply (split_hd_lacks_sep ";").
Qed.

Lemma remove_all_lacks c xs s :
  strings.ContainsAny s (str c) = false ->
  strings.ContainsAny
    (fold_left (fun s x => strings.Replace s x "" (-1)) xs s) (str c) = false.
Proof.
  revert s. induction xs as [|x xs IH]; intros s Hs; [done|].
  cbn [fold_left]. apply IH. by apply Replace_lacks.
Qed.

Lemma remove_all_removes c xs s :
  In (str c) xs ->
  strings.ContainsAny
    (fold_left (fun s x => strings.Replace s x "" (-1)) xs s) (str c) = false.
Proof.
  revert s. induction xs as [|x xs IH]; intros s Hin; [done|].
  cbn [fold_left]. destruct Hin as [->|Hin]; [|by apply IH].
  apply remove_all_lacks. by apply Replace_removes.
Qed.

(** The usage text of a dump line holds none of the control characters
    tab, vertical tab, form feed, backspace and alert, no backslash and no
    double quote. *)
Theorem escapeUsage_removes_specials (s : string) (c : ascii) :
  In c [byte 9; byte 11; byte 12; byte 8; byte 7; backslash; dquote] ->
  strings.ContainsAny (escapeUsage s) (str c) = false.
Proof.
  intros Hc. unfold escapeUsage. apply remove_all_removes.
  unfold stringsToReplace.
  repeat (destruct Hc as [<-|Hc]; [simpl; tauto|]). done.
Qed.

End QuotingFacts.

(** ** The round trip of quoted values without a backslash *)

Section RoundTrip.
Context {lib : GoLib}.

Lemma prefix_cons c s a t :
  String.prefix (String c s) (String a t) = Ascii.eqb c a && String.prefix s t.
Proof.
  simpl. destruct (ascii_dec c a) as [->|Hne].
  - by rewrite Ascii.eqb_refl.
  - by replace (Ascii.eqb c a) with false by (symmetry; by apply Ascii.eqb_neq).
Qed.

Lemma expand_app f s t : expand f (s ++ t) = expand f s ++ expand f t.
Proof.
  induction s as [|a s IH]; [done|].
  change (String a s ++ t) with (String a (s ++ t)).
  cbn [expand]. by rewrite IH, app_assoc_str.
Qed.

Lemma expand_ext f g s :
  (forall a, strings.ContainsAny (str a) s = true -> f a = g a) ->
  expand f s = expand g s.
Proof.
  induction s as [|a s IH]; intros Hfg; [done|].
  cbn [expand]. rewrite IH, Hfg; [done| |].
  - cbn [strings.ContainsAny strings.contains_byte str].
    by rewrite Ascii.eqb_refl.
  - intros b Hb. apply Hfg.
    cbn [strings.ContainsAny strings.contains_byte str] in *.
    rewrite orb_false_r in *. rewrite Hb. apply orb_true_r.
Qed.

Lemma expand_expand f g s :
  expand g (expand f s) = expand (fun a => expand g (f a)) s.
Proof.
  induction s as [|a s IH]; [done|].
  cbn [expand]. by rewrite expand_app, IH.
Qed.

Lemma expand_str s : expand str s = s.
Proof. induction s as [|a s IH]; [done|]. cbn [expand]. by rewrite IH. Qed.

(** Replacing every instance of one byte rewrites the text byte by byte. *)
Lemma replace_byte c new n s :
  n < 0 ->
  strings.replace_from 0 n s (str c) new
  = expand (fun a => if Ascii.eqb c a then new else str a) s.
Proof.
  revert n. induction s as [|a s IH]; intros n Hn; [done|].
  cbn [strings.replace_from expand].
  replace (n =? 0) with false by (symmetry; apply Z.eqb_neq; lia).
  cbn [negb andb]. rewrite prefix_single.
  destruct (Ascii.eqb c a).
  - cbn [str String.length Nat.sub]. rewrite IH by lia. done.
  - by rewrite IH.
Qed.

(** Text without the first byte of [old] has no instance of [old]. *)
Lemma replace_absent c old new n s :
  strings.ContainsAny s (str c) = false ->
  strings.replace_from 0 n s (String c old) new = s.
Proof.
  revert n. induction s as [|a s IH]; intros n Hs; [done|].
  rewrite ContainsAny_cons in Hs. apply orb_false_iff in Hs as [Ha Hs].
  cbn [strings.replace_from]. rewrite prefix_cons, Ascii.eqb_sym, Ha.
  rewrite andb_false_r. by rewrite IH.
Qed.

Lemma Replace_single c s new n :
  strings.Replace s (str c) new n = strings.replace_from 0 n s (str c) new.
Proof. done. Qed.

Lemma escaped_quoteValue v :
  strings.ContainsAny v (str backslash) = false ->
  strings.Replace
    (strings.Replace
       (strings.Replace v (str backslash) (str backslash ++ str backslash) (-1))
       (str LF) (str backslash ++ "n") (-1))
    (str dquote) (str backslash ++ str dquote) (-1)
  = expand escaped v.
Proof.
  intros Hv. rewrite !Replace_single.
  rewrite (replace_absent backslash "" _ _ v Hv : strings.replace_from 0 (-1) v (str backslash) _ = v).
  rewrite !replace_byte by lia. rewrite expand_expand.
  apply expand_ext. intros a _. unfold escaped.
  rewrite (Ascii.eqb_sym LF a).
  destruct (Ascii.eqb_spec a LF) as [->|HLF]; [done|].
  cbn [expand str]. rewrite (Ascii.eqb_sym dquote a).
  by destruct (Ascii.eqb a dquote).
Qed.

Lemma replace_from_miss a s old new n :
  String.prefix old (String a s) = false ->
  strings.replace_from 0 n (String a s) old new
  = String a (strings.replace_from 0 n s old new).
Proof.
  intros Hp. cbn [strings.replace_from]. by rewrite Hp, andb_false_r.
Qed.

Lemma replace_from_hit a s old new n :
  n < 0 ->
  String.prefix old (String a s) = true ->
  strings.replace_from 0 n (String a s) old new
  = new ++ strings.replace_from (String.length old - 1) (n - 1) s old new.
Proof.
  intros Hn Hp. cbn [strings.replace_from]. rewrite Hp.
  by replace (n =? 0) with false by (symmetry; apply Z.eqb_neq; lia).
Qed.

Lemma unescape_dquote n v :
  n < 0 ->
  strings.ContainsAny v (str backslash) = false ->
  strings.replace_from 0 n (expand escaped v)
    (String backslash (str dquote)) (str dquote)
  = expand escapedLF v.
Proof.
  revert n. induction v as [|a v IH]; intros n Hn Hv; [done|].
  rewrite ContainsAny_cons in Hv. apply orb_false_iff in Hv as [Ha Hv].
  cbn [expand]. unfold escaped at 1, escapedLF at 1.
  destruct (Ascii.eqb_spec a LF) as [->|HLF].
  - change ((str backslash ++ "n") ++ ?x)
      with (String backslash (String "n" x)).
    rewrite replace_from_miss by (by vm_compute).
    rewrite replace_from_miss by (by vm_compute).
    by rewrite IH.
  - destruct (Ascii.eqb_spec a dquote) as [->|Hdq].
    + change ((str backslash ++ str dquote) ++ ?x)
        with (String backslash (String dquote x)).
      rewrite replace_from_hit; [|done|].
      * change (String.length (String backslash (str dquote)) - 1)%nat
          with 1%nat.
        cbn [strings.replace_from]. by rewrite IH by (done || lia).
      * rewrite prefix_cons, Ascii.eqb_refl, prefix_single.
        by rewrite Ascii.eqb_refl.
    + change (str a ++ ?x) with (String a x).
      rewrite replace_from_miss; [by rewrite IH|].
      by rewrite prefix_cons, Ascii.eqb_sym, Ha.
Qed.

Lemma unescape_LF n v :
  n < 0 ->
  strings.ContainsAny v (str backslash) = false ->
  strings.replace_from 0 n (expand escapedLF v) (String backslash "n") (str LF)
  = v.
Proof.
  revert n. induction v as [|a v IH]; intros n Hn Hv; [done|].
  rewrite ContainsAny_cons in Hv. apply orb_false_iff in Hv as [Ha Hv].
  cbn [expand]. unfold escapedLF at 1.
  destruct (Ascii.eqb_spec a LF) as [->|HLF].
  - change ((str backslash ++ "n") ++ ?x)
      with (String backslash (String "n" x)).
    rewrite replace_from_hit; [|done|].
    + change (String.length (String backslash "n") - 1)%nat with 1%nat.
      cbn [strings.replace_from]. by rewrite IH by (done || lia).
    + rewrite prefix_cons, Ascii.eqb_refl.
      change "n"%string with (str "n") at 1.
      by rewrite prefix_single, Ascii.eqb_refl.
  - change (str a ++ ?x) with (String a x).
    rewrite replace_from_miss; [by rewrite IH|].
    by rewrite prefix_cons, Ascii.eqb_sym, Ha.
Qed.

Lemma rev_str_rev s a b : rev_str (rev_str s a) b = rev_str a (s ++ b).
Proof.
  revert a b. induction s as [|c s IH]; intros a b; [done|].
  cbn [rev_str]. by rewrite IH.
Qed.

Lemma space_width_dquote rest :
  strings.space_width strings.unicodeSpaces (String dquote rest) = None.
Proof. by vm_compute. Qed.

Lemma space_width_rev_dquote rest :
  strings.space_width
    (map (fun t => rev_str t "") strings.unicodeSpaces) (String dquote rest)
  = None.
Proof. by vm_compute. Qed.

(** Text between double quotes has no white space to trim. *)
Lemma TrimSpace_quoted inner :
  strings.TrimSpace (String dquote (inner ++ str dquote))
  = String dquote (inner ++ str dquote).
Proof.
  unfold strings.TrimSpace. cbn [String.length strings.trim_left].
  rewrite space_width_dquote. cbn zeta.
  cbn [rev_str]. rewrite rev_str_app. cbn [rev_str str String.length].
  cbn [strings.trim_left]. rewrite space_width_rev_dquote.
  change (String dquote (rev_str inner (String dquote "")))
    with (rev_str (String dquote "") (rev_str inner (String dquote ""))).
  rewrite rev_str_rev. cbn [rev_str].
  by rewrite rev_str_rev, app_nil_r_str.
Qed.

(** The round trip holds for the values [quoteValue] puts between double
    quotes, as long as they hold no backslash: [unquoteValue] returns the
    value that was quoted. *)
Theorem unquote_quote_quoted_value (v : string) :
  strings.ContainsAny v (str backslash) = false ->
  strings.ContainsAny v (str LF ++ "#;") = true \/ strings.TrimSpace v <> v ->
  exists cmt, unquoteValue (quoteValue v) = Ok (v, cmt, true).
Proof.
  intros Hv Hquoted.
  assert (Hq : quoteValue v = String dquote (expand escaped v ++ str dquote)).
  { unfold quoteValue.
    destruct (negb _ && String.eqb _ v) eqn:Hguard.
    - apply andb_true_iff in Hguard as [Hplain Htrim].
      apply negb_true_iff in Hplain. apply String.eqb_eq in Htrim.
      destruct Hquoted; congruence.
    - by rewrite escaped_quoteValue. }
  rewrite Hq. unfold unquoteValue. rewrite TrimSpace_quoted.
  rewrite Ascii.eqb_refl. cbn [negb].
  unfold strings.LastIndex.
  change (String dquote (expand escaped v ++ str dquote))
    with ((String dquote (expand escaped v)) ++ String dquote "").
  rewrite last_index_at by done.
  cbn [String.length Nat.add].
  destruct (Z.eqb_spec (Z.of_nat (S (String.length (expand escaped v)))) (-1));
    [lia|].
  destruct (Z.ltb_spec (Z.of_nat (S (String.length (expand escaped v)))) 1);
    [lia|].
  eexists. do 2 f_equal. f_equal.
  unfold slice.
  replace (Z.to_nat (Z.of_nat (S (String.length (expand escaped v))) - 1))
    with (String.length (expand escaped v)) by lia.
  change (Z.to_nat 1) with 1%nat.
  change (drop_str 1 (String dquote (expand escaped v) ++ String dquote ""))
    with (expand escaped v ++ String dquote "").
  rewrite take_str_app.
  unfold strings.Replace.
  change (str backslash ++ str dquote) with (String backslash (str dquote)).
  change (str backslash ++ "n") with (String backslash "n").
  change (str backslash ++ str backslash) with (String backslash (str backslash)).
  rewrite unescape_dquote by (done || lia).
  rewrite unescape_LF by (done || lia).
  by apply replace_absent.
Qed.

End RoundTrip.

(** ** What a merge pass changes, and what it reports *)

Section ChangeSet.
Context {V : Type} {val : flag.Value V} {lib : GoLib}.

(** One turn of the merge loop either leaves the registry and the saved
    values alone, or calls [Set] on the flag its key resolves to. *)
Lemma mergeArg_cases shorthands missingFlags fs old ok arg :
  (exists ok',
     mergeArg shorthands missingFlags (fs, old, ok) arg = (fs, old, ok')
     /\ (ok' = true -> ok = true))
  \/ exists key f fs' err,
       flag.Lookup fs key = Some f
       /\ (key = Key arg
           \/ flag.Lookup fs (Key arg) = None
              /\ shorthands !! Key arg = Some key)
       /\ key ∈ missingFlags
       /\ flag.Value_Set_at fs key f (Value arg) = (fs', err)
       /\ mergeArg shorthands missingFlags (fs, old, ok) arg
          = match err with
            | Some _ => (fs', old, false)
            | None =>
                if negb (String.eqb (flag.String_of f) (deref_string fs' key))
                then (fs', <[key := flag.String_of f]> old, ok)
                else (fs', old, ok)
            end.
Proof.
  unfold mergeArg.
  set (found := match flag.Lookup fs (Key arg) with
                | Some f => (Some f, Key arg)
                | None => match shorthands !! Key arg with
                          | Some fullName => (flag.Lookup fs fullName, fullName)
                          | None => (None, Key arg)
                          end
                end).
  assert (Hfound : forall f key, found = (Some f, key) ->
            flag.Lookup fs key = Some f
            /\ (key = Key arg
                \/ flag.Lookup fs (Key arg) = None
                   /\ shorthands !! Key arg = Some key)).
  { subst found. intros f key.
    destruct (flag.Lookup fs (Key arg)) as [g|] eqn:Hg.
    - intros [= <- <-]. by split; [|left].
    - destruct (shorthands !! Key arg) as [fullName|]; [|done].
      intros [= Hf <-]. split; [done|]. by right. }
  destruct found as [[f|] key].
  2: { left. destruct (negb (deref_bool fs "allowUnknownFlags"));
         eexists; by split. }
  destruct (Hfound f key eq_refl) as [Hf Hkey].
  case_bool_decide as Hmiss; [|left; eexists; by split].
  destruct (String.eqb (flag.String_of f) (Value arg));
    [left; eexists; by split|].
  right. exists key, f.
  destruct (flag.Value_Set_at fs key f (Value arg)) as [fs' err].
  exists fs', err. by split_and!.
Qed.

Lemma deref_string_lookup (fs fs' : flag.FlagSet V) name :
  flag.Lookup fs' name = flag.Lookup fs name ->
  deref_string fs' name = deref_string fs name.
Proof. unfold deref_string. by intros ->. Qed.

(** A failure of the merge loop is not forgotten by a later turn. *)
Lemma mergeArg_ok shorthands missingFlags acc arg :
  snd (mergeArg shorthands missingFlags acc arg) = true -> snd acc = true.
Proof.
  destruct acc as [[fs old] ok].
  destruct (mergeArg_cases shorthands missingFlags fs old ok arg)
    as [(ok' & -> & Hok)|(key & f & fs' & err & _ & _ & _ & _ & ->)];
    [done|].
  destruct err; [done|]. by destruct (negb _).
Qed.

Lemma mergeArgs_ok shorthands missingFlags parsedArgs acc :
  snd (mergeArgs shorthands missingFlags parsedArgs acc) = true ->
  snd acc = true.
Proof.
  revert acc. induction parsedArgs as [|arg l IH]; intros acc; [done|].
  cbn [mergeArgs fold_left]. intros Hok.
  apply (mergeArg_ok shorthands missingFlags acc arg). by apply IH.
Qed.

Lemma mergeArg_changes shorthands missingFlags fs0 acc arg :
  changes_inv fs0 acc ->
  changes_inv fs0 (mergeArg shorthands missingFlags acc arg).
Proof.
  destruct acc as [[fs old] ok]. intros Hinv.
  destruct (mergeArg_cases shorthands missingFlags fs old ok arg)
    as [(ok' & -> & Hok)|(key & f & fs' & err & Hf & _ & _ & Hset & ->)].
  { intros Hok'. by apply Hinv, Hok. }
  pose proof (Value_Set_at_lookup_ne fs key f (Value arg)) as Hne.
  rewrite Hset in Hne. cbn [fst] in Hne.
  assert (Hkey : deref_string fs key = flag.String_of f)
    by (unfold deref_string; by rewrite Hf).
  destruct err as [e|]; [done|].
  destruct (String.eqb_spec (flag.String_of f) (deref_string fs' key))
    as [Heq|Hneq]; cbn [negb]; intros Hok;
    destruct (Hinv Hok) as [Hnone Hsome].
  - assert (Hall : forall name, deref_string fs' name = deref_string fs name).
    { intros name. destruct (decide (name = key)) as [->|Hk]; [congruence|].
      by apply deref_string_lookup, Hne. }
    split.
    + intros name Hn. rewrite Hall. by apply Hnone.
    + intros name v Hn. rewrite Hall. by apply Hsome.
  - split.
    + intros name Hn. apply lookup_insert_None in Hn as [Hn Hk].
      rewrite <- (Hnone name Hn). apply deref_string_lookup, Hne. congruence.
    + intros name v. destruct (decide (key = name)) as [<-|Hk].
      * rewrite lookup_insert_eq. intros [= <-]. congruence.
      * rewrite lookup_insert_ne by done. intros Hn.
        rewrite (deref_string_lookup fs fs' name); [by apply Hsome|].
        apply Hne. congruence.
Qed.

Lemma mergeArgs_changes shorthands missingFlags fs0 parsedArgs acc :
  changes_inv fs0 acc ->
  changes_inv fs0 (mergeArgs shorthands missingFlags parsedArgs acc).
Proof.
  revert acc. induction parsedArgs as [|arg l IH]; intros acc Hacc; [done|].
  cbn [mergeArgs fold_left]. apply IH. by apply mergeArg_changes.
Qed.

(** What the merge loop of a pass that succeeds leaves behind. *)
Lemma parseConfigFlags_change_set fuel w (st : State V) old :
  fst (parseConfigFlags fuel w st) = Ok (old, true) ->
  snd (parseConfigFlags fuel w st) = st /\ old = ∅
  \/ exists fs,
       snd (parseConfigFlags fuel w st) = with_CommandLine st fs
       /\ merge_inv (getMissingFlags (CommandLine st)) (CommandLine st)
            (fs, old, true)
       /\ changes_inv (CommandLine st) (fs, old, true).
Proof.
  intros Hok.
  destruct (parseConfigFlags_cases fuel w st)
    as [[Hst Hold]|(parsedArgs & fs & old' & ok & Hmerge & Hrun)].
  - left. split; [done|]. by apply Hold.
  - right. rewrite Hrun in Hok |- *. destruct ok; [|done].
    injection Hok as <-. exists fs. split; [done|].
    rewrite <- Hmerge. split.
    + apply mergeArgs_inv. split_and!; [done|done|].
      intros n [x Hx]. by rewrite lookup_empty in Hx.
    + apply mergeArgs_changes. intros _. split; [done|].
      intros name v. by rewrite lookup_empty.
Qed.

(** The map a pass that succeeds returns misses no change: a flag it does
    not list prints what it printed before the pass.  A flag it lists is
    registered, was not set on the command line, and prints another value
    than the one saved for it, which is the value the last directive that
    changed the flag found, not always the value before the pass; so a
    listed flag may print after the pass what it printed before.  No flag
    has been marked as set. *)
Theorem successful_pass_reports_every_change fuel w (st : State V) old :
  fst (parseConfigFlags fuel w st) = Ok (old, true) ->
  let fs' := CommandLine (snd (parseConfigFlags fuel w st)) in
  (forall name, old !! name = None ->
     deref_string fs' name = deref_string (CommandLine st) name)
  /\ (forall name v, old !! name = Some v ->
        deref_string fs' name <> v
        /\ name ∈ getMissingFlags (CommandLine st)
        /\ is_Some (flag.Lookup fs' name))
  /\ flag.actual fs' = flag.actual (CommandLine st).
Proof.
  intros Hok.
  destruct (parseConfigFlags_change_set fuel w st old Hok)
    as [[-> ->]|(fs & -> & (_ & Hact & Hsaved) & Hch)]; cbn zeta.
  - split_and!; [done| |done]. intros name v. by rewrite lookup_empty.
  - cbn [CommandLine with_CommandLine].
    destruct (Hch eq_refl) as [Hnone Hsome].
    split_and!; [done| |done].
    intros name v Hn. split; [by apply Hsome|]. by apply Hsaved.
Qed.

(** A directive that fails makes the pass fail wherever it stands in the
    source: the loop goes on, and no later directive repairs the result. *)
Theorem failed_directive_fails_pass shorthands missingFlags
    (pre post : list flagArg) arg (acc : merging (V:=V)) :
  snd (mergeArg shorthands missingFlags
         (mergeArgs shorthands missingFlags pre acc) arg) = false ->
  snd (mergeArgs shorthands missingFlags (pre ++ arg :: post) acc) = false.
Proof.
  intros Hfail. unfold mergeArgs in *.
  rewrite fold_left_app. cbn [fold_left].
  set (mid := mergeArg shorthands missingFlags _ arg) in *.
  change (fold_left (mergeArg shorthands missingFlags) post mid)
    with (mergeArgs shorthands missingFlags post mid).
  destruct (snd (mergeArgs shorthands missingFlags post mid)) eqn:Hend; [|done].
  apply mergeArgs_ok in Hend. congruence.
Qed.

(** A flag that no directive names, by its name or by a shorthand, is
    left as it is, also by a pass that fails. *)
Theorem unnamed_flag_is_untouched shorthands missingFlags
    (parsedArgs : list flagArg) (acc : merging (V:=V)) name :
  (forall arg, In arg parsedArgs ->
     Key arg <> name /\ shorthands !! Key arg <> Some name) ->
  flag.Lookup (fst (fst (mergeArgs shorthands missingFlags parsedArgs acc))) name
  = flag.Lookup (fst (fst acc)) name.
Proof.
  revert acc. induction parsedArgs as [|arg l IH]; intros acc Hargs; [done|].
  cbn [mergeArgs fold_left].
  change (fold_left _ l ?a) with (mergeArgs shorthands missingFlags l a).
  rewrite IH by (intros a Ha; apply Hargs; by right).
  destruct (Hargs arg (or_introl eq_refl)) as [Hkey Hshort].
  destruct acc as [[fs old] ok].
  destruct (mergeArg_cases shorthands missingFlags fs old ok arg)
    as [(ok' & -> & _)|(key & f & fs' & err & _ & Hres & _ & Hset & ->)];
    [done|].
  pose proof (Value_Set_at_lookup_ne fs key f (Value arg) name) as Hne.
  rewrite Hset in Hne. cbn [fst] in Hne.
  assert (Hk : name <> key) by (destruct Hres as [->|[_ Hs]]; congruence).
  destruct err; [by apply Hne|]. destruct (negb _); by apply Hne.
Qed.

Lemma mergeArg_registered shorthands missingFlags acc arg name :
  flag.Lookup (fst (fst (mergeArg shorthands missingFlags acc arg))) name = None
  <-> flag.Lookup (fst (fst acc)) name = None.
Proof.
  destruct acc as [[fs old] ok].
  destruct (mergeArg_cases shorthands missingFlags fs old ok arg)
    as [(ok' & -> & _)|(key & f & fs' & err & Hf & _ & _ & Hset & ->)];
    [done|].
  assert (Hreg : flag.Lookup fs' name = None <-> flag.Lookup fs name = None).
  { unfold flag.Value_Set_at in Hset.
    destruct (flag.Value_Set (flag.value f) (Value arg)) as [v' e].
    injection Hset as <- _. unfold flag.Lookup in *. cbn [flag.formal].
    destruct (decide (key = name)) as [<-|Hk].
    - rewrite lookup_insert_eq, Hf. done.
    - by rewrite lookup_insert_ne. }
  destruct err; [done|]. by destruct (negb _).
Qed.

(** The shorthand table only renames keys: merging a directive list is
    merging, without any shorthand, the list with every key spelled out. *)
Theorem shorthands_only_rename_keys shorthands missingFlags
    (parsedArgs : list flagArg) (fs : flag.FlagSet V) old ok :
  mergeArgs shorthands missingFlags parsedArgs (fs, old, ok)
  = mergeArgs ∅ missingFlags (map (spellOut shorthands fs) parsedArgs)
      (fs, old, ok).
Proof.
  assert (Hgen : forall acc,
    (forall name, flag.Lookup (fst (fst acc)) name = None
                  <-> flag.Lookup fs name = None) ->
    mergeArgs shorthands missingFlags parsedArgs acc
    = mergeArgs ∅ missingFlags (map (spellOut shorthands fs) parsedArgs) acc).
  { induction parsedArgs as [|arg l IH]; intros acc Hdom; [done|].
    cbn [mergeArgs fold_left map].
    change (fold_left _ l ?a) with (mergeArgs shorthands missingFlags l a).
    change (fold_left _ (map _ l) ?a)
      with (mergeArgs ∅ missingFlags (map (spellOut shorthands fs) l) a).
    assert (Hstep : mergeArg ∅ missingFlags acc (spellOut shorthands fs arg)
                    = mergeArg shorthands missingFlags acc arg).
    { destruct acc as [[fs1 old1] ok1]. cbn [fst] in Hdom.
      unfold spellOut, mergeArg.
      destruct (flag.Lookup fs (Key arg)) as [g|] eqn:Hg.
      - destruct (flag.Lookup fs1 (Key arg)) as [g1|] eqn:Hg1; [done|].
        apply Hdom in Hg1. congruence.
      - apply Hdom in Hg. rewrite Hg.
        destruct (shorthands !! Key arg) as [fullName|]; cbn [Key withKey].
        + destruct (flag.Lookup fs1 fullName); by rewrite ?lookup_empty.
        + by rewrite Hg, lookup_empty. }
    rewrite Hstep. apply IH. intros name.
    rewrite mergeArg_registered. apply Hdom. }
  by apply Hgen.
Qed.

End ChangeSet.

(** ** Change notification *)

Section Notification.
Context {V : Type} {val : flag.Value V} {lib : GoLib}
        {cmd : CommandLineParser V}.

(** A merge pass writes no package variable but the registry. *)
Lemma parseConfigFlags_frame fuel w (st : State V) :
  exists fs, snd (parseConfigFlags fuel w st) = with_CommandLine st fs.
Proof.
  destruct (parseConfigFlags_cases fuel w st)
    as [[-> _]|(parsedArgs & fs & old & ok & _ & ->)].
  - exists (CommandLine st). by destruct st.
  - destruct ok; eexists; done.
Qed.

Lemma concat_lookup {A} (f : string * string -> list A)
    (old : gmap string string) name v :
  old !! name = Some v ->
  exists pre post,
    concat (map f (map_to_list old)) = (pre ++ f (name, v) ++ post)%list.
Proof.
  intros Hn. apply elem_of_map_to_list, list_elem_of_In, in_split in Hn
    as (l1 & l2 & ->).
  exists (concat (map f l1)), (concat (map f l2)).
  by rewrite map_app, concat_app.
Qed.

(** What a reload runs: nothing, or the callbacks of its change set. *)
Lemma updateConfig_invoked fuel w (st : State V) :
  invoked (snd (updateConfig fuel w st))
  = (invoked st
     ++ match fst (parseConfigFlags fuel w st) with
        | Ok (old, true) =>
            concat (map (fun kv => default [] (flagChangeCallbacks st !! fst kv))
                      (map_to_list old))
        | _ => []
        end)%list.
Proof.
  unfold updateConfig, bind at 1.
  destruct (parseConfigFlags_frame fuel w st) as [fs Hfs].
  destruct (parseConfigFlags fuel w st) as [[[old ok]|msg|c|] st'];
    cbn [fst snd] in *; subst st'; cbn [invoked with_CommandLine];
    try by rewrite app_nil_r.
  destruct ok; cbn [andb]; [|by rewrite app_nil_r].
  destruct (0 <? Z.of_nat (size old)) eqn:Hsize; [done|].
  cbn [snd ret invoked with_CommandLine].
  assert (old = ∅) as ->.
  { apply map_size_empty_iff. apply Z.ltb_ge in Hsize. lia. }
  rewrite map_to_list_empty. cbn [map concat]. by rewrite app_nil_r.
Qed.

(** A reload that succeeds runs the callbacks of every flag whose printed
    value it changed, in the order of their registration. *)
Theorem reload_notifies_changed_flags fuel w (st : State V) old name cs :
  fst (parseConfigFlags fuel w st) = Ok (old, true) ->
  deref_string (CommandLine (snd (updateConfig fuel w st))) name
  <> deref_string (CommandLine st) name ->
  flagChangeCallbacks st !! name = Some cs ->
  exists pre post,
    invoked (snd (updateConfig fuel w st))
    = (invoked st ++ pre ++ cs ++ post)%list.
Proof.
  intros Hok Hdiff Hcs.
  rewrite updateConfig_CommandLine in Hdiff.
  assert (Hnone : old !! name = None ->
            deref_string (CommandLine (snd (parseConfigFlags fuel w st))) name
            = deref_string (CommandLine st) name).
  { destruct (parseConfigFlags_change_set fuel w st old Hok)
      as [[-> _]|(fs & -> & _ & Hch)]; [done|].
    destruct (Hch eq_refl) as [Hnone _]. apply Hnone. }
  destruct (old !! name) as [v|] eqn:Hn; [|by destruct Hdiff; apply Hnone].
  rewrite updateConfig_invoked, Hok.
  destruct (concat_lookup
              (fun kv => default [] (flagChangeCallbacks st !! fst kv))
              old name v Hn) as (pre & post & ->).
  exists pre, post. cbn [fst]. by rewrite Hcs.
Qed.

(** A reload runs no other callback: each one it runs belongs to a flag of
    the change set of a pass that succeeded. *)
Theorem reload_runs_only_callbacks_of_changed_flags fuel w (st : State V) :
  exists l,
    invoked (snd (updateConfig fuel w st)) = (invoked st ++ l)%list
    /\ forall c, In c l ->
         exists old name v cs,
           fst (parseConfigFlags fuel w st) = Ok (old, true)
           /\ old !! name = Some v
           /\ flagChangeCallbacks st !! name = Some cs
           /\ In c cs.
Proof.
  eexists. split; [apply updateConfig_invoked|].
  intros c Hc.
  destruct (fst (parseConfigFlags fuel w st)) as [[old [|]]| | |]; try done.
  apply in_concat in Hc as (l & Hl & Hc).
  apply in_map_iff in Hl as ([name v] & <- & Hin). cbn [fst] in Hc.
  exists old, name, v.
  destruct (flagChangeCallbacks st !! name) as [cs|]; [|done].
  exists cs. split_and!; try done.
  by apply elem_of_map_to_list, list_elem_of_In.
Qed.

Lemma handleCommandLineShorthands_frame (st : State V) :
  exists a, snd (handleCommandLineShorthands st) = with_os_Args st a.
Proof.
  unfold handleCommandLineShorthands, bind, get.
  destruct (_ =? 0); [exists (os_Args st); by destruct st|].
  destruct (os_Args st) as [|arg0 rest] eqn:Hargs.
  - exists []. destruct st; cbn in *. by subst.
  - eexists. done.
Qed.

Lemma verifyAll_Ok names (st : State V) :
  fst (verifyAll names st) = Ok tt ->
  snd (verifyAll names st) = st
  /\ forall name, In name names -> is_Some (flag.Lookup (CommandLine st) name).
Proof.
  induction names as [|n names IH]; [by intros _; split; [|intros ? []]|].
  cbn [verifyAll]. unfold bind at 1 2, verifyFlagChangeFlagName.
  unfold bind at 1 2, get at 1 2.
  destruct (flag.Lookup (CommandLine st) n) as [f|] eqn:Hf; [|done].
  cbn [ret]. intros Hok. destruct (IH Hok) as [Hst Hall].
  split; [done|]. intros name [<-|Hin]; [by eexists|by apply Hall].
Qed.

(** The state a call of [Parse] that returns leaves behind. *)
Lemma Parse_Ok fuel w (st : State V) :
  fst (Parse fuel w st) = Ok tt ->
  exists st3,
    parsed st3 = true
    /\ flagChangeCallbacks st3 = flagChangeCallbacks st
    /\ invoked st3 = invoked st
    /\ callbacks_registered st3
    /\ snd (Parse fuel w st)
       = with_invoked (with_Generation st3 (incr64 (Generation st3)))
           (invoked st3
            ++ concat (map snd (map_to_list (flagChangeCallbacks st3))))%list.
Proof.
  destruct (Parse fuel w st) as [r st'] eqn:Hr. cbn [fst snd]. intros ->.
  revert Hr.
  unfold Parse. unfold bind at 1, get at 1.
  destruct (parsed st); [done|]. unfold bind at 1.
  destruct (handleCommandLineShorthands_frame st) as [a Ha].
  destruct (handleCommandLineShorthands st) as [[[]|msg|c|] st1];
    cbn [snd] in Ha; subst st1; try done.
  unfold bind at 1, get at 1. unfold bind at 1, put at 1.
  unfold bind at 1, get at 1. unfold bind at 1, lift at 1.
  destruct (flag_Parse _ _) as [fs|msg|c|]; try done.
  unfold bind at 1, put at 1. unfold bind at 1.
  match goal with |- context [parseConfigFlags fuel w ?s] =>
    destruct (parseConfigFlags_frame fuel w s) as [fs' Hfs];
    destruct (parseConfigFlags fuel w s) as [[[old ok]|msg|c|] st2]
  end; cbn [snd] in Hfs; subst st2; try done.
  destruct ok; cbn [negb]; [|done].
  unfold bind at 1, get at 1.
  destruct (deref_bool _ "dumpflags"); [done|].
  unfold bind at 1.
  match goal with |- context [verifyAll _ ?s] => set (s3 := s) end.
  match goal with |- context [verifyAll ?names s3] =>
    pose proof (verifyAll_Ok names s3) as Hv;
    destruct (verifyAll names s3) as [[[]|msg|c|] st3]
  end; cbn [fst snd] in Hv; try done.
  destruct (Hv eq_refl) as [-> Hall].
  unfold bind, bumpGeneration, issueAllFlagChangeCallbacks, get, put.
  intros [= <-].
  exists s3. split_and!; try done.
  intros name [cs Hcs]. apply Hall.
  apply in_map_iff. exists (name, cs). split; [done|].
  by apply list_elem_of_In, elem_of_map_to_list.
Qed.

(** [Parse] is called once: after a call that returned, a second call
    panics and changes nothing. *)
Theorem Parse_twice_panics fuel w fuel' w' (st : State V) :
  fst (Parse fuel w st) = Ok tt ->
  Parse fuel' w' (snd (Parse fuel w st))
  = (Panic "iniflags: duplicate call to iniflags.Parse() detected",
     snd (Parse fuel w st)).
Proof.
  intros Hok. destruct (Parse_Ok fuel w st Hok) as (st3 & Hp & _ & _ & _ & ->).
  unfold Parse at 1, bind at 1, get at 1.
  cbn [parsed with_invoked with_Generation]. by rewrite Hp.
Qed.

(** A call of [Parse] that returns has checked that every flag name with
    callbacks is registered, and has run the callbacks of every such name
    once, in the order of their registration. *)
Theorem Parse_runs_every_callback fuel w (st : State V) :
  fst (Parse fuel w st) = Ok tt ->
  let st' := snd (Parse fuel w st) in
  callbacks_registered st'
  /\ flagChangeCallbacks st' = flagChangeCallbacks st
  /\ exists l,
       invoked st' = (invoked st ++ l)%list
       /\ Permutation l (concat (map snd (map_to_list (flagChangeCallbacks st))))
       /\ forall name cs, flagChangeCallbacks st !! name = Some cs ->
            exists pre post, l = (pre ++ cs ++ post)%list.
Proof.
  intros Hok.
  destruct (Parse_Ok fuel w st Hok) as (st3 & _ & Hcb & Hinv & Hreg & ->).
  cbn zeta. cbn [flagChangeCallbacks invoked with_invoked with_Generation].
  split_and!; [done|done|].
  rewrite Hcb, Hinv. eexists. split_and!; [done|done|].
  intros name cs Hcs.
  apply elem_of_map_to_list, list_elem_of_In, in_split in Hcs
    as (l1 & l2 & ->).
  exists (concat (map snd l1)), (concat (map snd l2)).
  by rewrite map_app, concat_app.
Qed.

(** After [Parse], [OnFlagChange] keeps the callbacks on registered flags:
    for a name that is no flag it ends the process and registers nothing,
    and for a flag it adds the callback behind those already there. *)
Theorem OnFlagChange_after_Parse flagName callback (st : State V) :
  parsed st = true ->
  callbacks_registered st ->
  callbacks_registered (snd (OnFlagChange flagName callback st))
  /\ match flag.Lookup (CommandLine st) flagName with
     | None => OnFlagChange flagName callback st = (Exit 1, st)
     | Some _ =>
         fst (OnFlagChange flagName callback st) = Ok tt
         /\ flagChangeCallbacks (snd (OnFlagChange flagName callback st))
              !! flagName
            = Some (default [] (flagChangeCallbacks st !! flagName)
                    ++ [callback])%list
     end.
Proof.
  intros Hp Hreg.
  assert (Hrun : OnFlagChange flagName callback st
                 = match flag.Lookup (CommandLine st) flagName with
                   | None => (Exit 1, st)
                   | Some _ =>
                       (Ok tt,
                        with_flagChangeCallbacks st
                          (<[flagName :=
                               (default [] (flagChangeCallbacks st !! flagName)
                                ++ [callback])%list]>
                             (flagChangeCallbacks st)))
                   end).
  { unfold OnFlagChange, verifyFlagChangeFlagName, bind, get, put, ret, exit.
    rewrite Hp. by destruct (flag.Lookup (CommandLine st) flagName). }
  rewrite Hrun.
  destruct (flag.Lookup (CommandLine st) flagName) as [f|] eqn:Hf; [|done].
  cbn [fst snd flagChangeCallbacks with_flagChangeCallbacks].
  split; [|split; [done|by rewrite lookup_insert_eq]].
  intros name. cbn [flagChangeCallbacks CommandLine with_flagChangeCallbacks].
  destruct (decide (flagName = name)) as [<-|Hne].
  - intros _. by eexists.
  - rewrite lookup_insert_ne by done. apply Hreg.
Qed.

End Notification.

(** ** Shorthands *)

Section ShorthandFacts.
Context {V : Type} {val : flag.Value V} {lib : GoLib}.

Lemma RegisterShorthand_run shorthand fullName (st : State V) :
  RegisterShorthand shorthand fullName st = (Ok None,
     with_flagShorthands st (<[shorthand := fullName]> (flagShorthands st)))
  /\ parsed st = false
  /\ is_Some (flag.Lookup (CommandLine st) fullName)
  /\ flagShorthands st !! shorthand = None
  /\ flag.Lookup (CommandLine st) shorthand = None
  \/ exists e, RegisterShorthand shorthand fullName st = (Ok (Some e), st).
Proof.
  unfold RegisterShorthand, bind, get, put, ret.
  destruct (parsed st); [right; by eexists|].
  destruct (flag.Lookup (CommandLine st) fullName) as [f|] eqn:Hf;
    [|right; by eexists].
  destruct (flagShorthands st !! shorthand) as [existing|] eqn:Hs;
    [right; by eexists|].
  destruct (flag.Lookup (CommandLine st) shorthand) as [g|] eqn:Hg;
    [right; by eexists|].
  left. by split_and!.
Qed.

Lemma RegisterCommandLineShorthand_run shorthand fullName (st : State V) :
  RegisterCommandLineShorthand shorthand fullName st = (Ok None,
     with_commandLineShorthands
       (with_flagShorthands st (<[shorthand := fullName]> (flagShorthands st)))
       (<[shorthand := true]> (commandLineShorthands st)))
  /\ parsed st = false
  /\ is_Some (flag.Lookup (CommandLine st) fullName)
  /\ flagShorthands st !! shorthand = None
  /\ flag.Lookup (CommandLine st) shorthand = None
  \/ exists e,
       RegisterCommandLineShorthand shorthand fullName st = (Ok (Some e), st).
Proof.
  unfold RegisterCommandLineShorthand, bind.
  destruct (RegisterShorthand_run shorthand fullName st)
    as [(-> & Hrest)|[e ->]]; [left|right; by eexists].
  by split.
Qed.

(** Registering a shorthand never panics, and a registration that returns
    an error changes nothing. *)
Theorem failed_registration_changes_nothing shorthand fullName (st : State V) :
  (exists err, fst (RegisterShorthand shorthand fullName st) = Ok err
               /\ (err <> None ->
                   snd (RegisterShorthand shorthand fullName st) = st))
  /\ (exists err,
        fst (RegisterCommandLineShorthand shorthand fullName st) = Ok err
        /\ (err <> None ->
            snd (RegisterCommandLineShorthand shorthand fullName st) = st)).
Proof.
  split.
  - destruct (RegisterShorthand_run shorthand fullName st)
      as [(-> & _)|[e ->]]; eexists; by split.
  - destruct (RegisterCommandLineShorthand_run shorthand fullName st)
      as [(-> & _)|[e ->]]; eexists; by split.
Qed.

(** A shorthand keeps the flag it was first registered for: no later
    registration, of this or another shorthand, rebinds it. *)
Theorem registered_shorthand_is_never_rebound
    shorthand0 fullName0 shorthand fullName (st : State V) :
  flagShorthands st !! shorthand0 = Some fullName0 ->
  flagShorthands (snd (RegisterShorthand shorthand fullName st)) !! shorthand0
  = Some fullName0
  /\ flagShorthands (snd (RegisterCommandLineShorthand shorthand fullName st))
       !! shorthand0
     = Some fullName0.
Proof.
  intros H0. split.
  - destruct (RegisterShorthand_run shorthand fullName st)
      as [(-> & _ & _ & Hfree & _)|[e ->]]; [|done].
    cbn [snd flagShorthands with_flagShorthands].
    rewrite lookup_insert_ne; [done|congruence].
  - destruct (RegisterCommandLineShorthand_run shorthand fullName st)
      as [(-> & _ & _ & Hfree & _)|[e ->]]; [|done].
    cbn [snd flagShorthands with_flagShorthands with_commandLineShorthands].
    rewrite lookup_insert_ne; [done|congruence].
Qed.

(** Both registrations keep the shorthand tables well formed. *)
Theorem registration_keeps_shorthands_wf shorthand fullName (st : State V) :
  shorthands_wf st ->
  shorthands_wf (snd (RegisterShorthand shorthand fullName st))
  /\ shorthands_wf (snd (RegisterCommandLineShorthand shorthand fullName st)).
Proof.
  intros [Hsh Hcmd].
  assert (Hnew : forall s f,
            is_Some (flag.Lookup (CommandLine st) fullName) ->
            flag.Lookup (CommandLine st) shorthand = None ->
            <[shorthand := fullName]> (flagShorthands st) !! s = Some f ->
            is_Some (flag.Lookup (CommandLine st) f)
            /\ flag.Lookup (CommandLine st) s = None).
  { intros s f Hfull Hshort.
    destruct (decide (shorthand = s)) as [<-|Hne].
    - rewrite lookup_insert_eq. by intros [= <-].
    - rewrite lookup_insert_ne by done. apply Hsh. }
  split.
  - destruct (RegisterShorthand_run shorthand fullName st)
      as [(-> & _ & Hfull & _ & Hshort)|[e ->]]; [|done].
    split; cbn [snd flagShorthands commandLineShorthands CommandLine
                with_flagShorthands].
    + intros s f. by apply Hnew.
    + intros s Hs. destruct (decide (shorthand = s)) as [<-|Hne].
      * rewrite lookup_insert_eq. by eexists.
      * rewrite lookup_insert_ne by done. by apply Hcmd.
  - destruct (RegisterCommandLineShorthand_run shorthand fullName st)
      as [(-> & _ & Hfull & _ & Hshort)|[e ->]]; [|done].
    split; cbn [snd flagShorthands commandLineShorthands CommandLine
                with_flagShorthands with_commandLineShorthands].
    + intros s f. by apply Hnew.
    + intros s. destruct (decide (shorthand = s)) as [<-|Hne].
      * intros _. rewrite lookup_insert_eq. by eexists.
      * rewrite !lookup_insert_ne by done. by apply Hcmd.
Qed.

Lemma rewriteArgs_cons shorthands cmdline arg rest :
  rewriteArgs shorthands cmdline (arg :: rest)
  = rewriteArg shorthands cmdline arg :: rewriteArgs shorthands cmdline rest.
Proof.
  assert (Hplain : forall next rest',
            strings.HasPrefix next "-" = false ->
            rewriteArgs shorthands cmdline (next :: rest')
            = next :: rewriteArgs shorthands cmdline rest').
  { intros next rest' Hnext. cbn [rewriteArgs].
    destruct next as [|c next]; [done|].
    unfold strings.HasPrefix in Hnext.
    change "-"%string with (str "-") in Hnext.
    rewrite prefix_single in Hnext. cbn [first_byte].
    rewrite bool_decide_eq_false_2; [by rewrite andb_false_r|].
    intros [= ->]. by rewrite Ascii.eqb_refl in Hnext. }
  cbn [rewriteArgs]. unfold rewriteArg.
  destruct ((1 <? len arg) && _ && _); [|done].
  set (split := if 0 <=? strings.Index (drop_str 1 arg) "=" then _ else _).
  destruct split as [[shortName value] hasValue] eqn:Hsplit.
  destruct (shorthands !! shortName) as [fullName|]; [|done].
  destruct (default false (cmdline !! shortName)); [|done].
  assert (Hvalue : hasValue = false -> value = "").
  { subst split. destruct (0 <=? _); by intros; simplify_eq. }
  destruct hasValue; [done|]. rewrite Hvalue by done.
  rewrite app_nil_r_str.
  destruct rest as [|next rest']; [done|].
  destruct (strings.HasPrefix next "-") eqn:Hnext; cbn [negb]; [done|].
  by rewrite Hplain.
Qed.

Lemma rewriteArgs_map shorthands cmdline osArgs :
  rewriteArgs shorthands cmdline osArgs
  = map (rewriteArg shorthands cmdline) osArgs.
Proof.
  induction osArgs as [|arg rest IH]; [done|].
  by rewrite rewriteArgs_cons, IH.
Qed.

Lemma rewriteArg_no_cmdline shorthands arg :
  rewriteArg shorthands ∅ arg = arg.
Proof.
  unfold rewriteArg. destruct (_ && _ && _); [|done].
  destruct (if 0 <=? _ then _ else _) as [[shortName value] hasValue].
  destruct (shorthands !! shortName); [|done].
  by rewrite lookup_empty.
Qed.

(** [handleCommandLineShorthands] keeps the program name and rewrites the
    arguments one by one: the argument it takes along after a bare
    shorthand is one it would have left as it is, so the arguments keep
    their number and their positions. *)
Theorem shorthands_rewrite_each_argument arg0 rest (st : State V) :
  os_Args st = arg0 :: rest ->
  handleCommandLineShorthands st
  = (Ok tt,
     with_os_Args st
       (arg0 :: map (rewriteArg (flagShorthands st) (commandLineShorthands st))
                  rest)).
Proof.
  intros Hargs. unfold handleCommandLineShorthands, bind, get.
  destruct (Z.eqb_spec (Z.of_nat (size (commandLineShorthands st))) 0)
    as [Hsize|_].
  - assert (commandLineShorthands st = ∅) as ->
      by (apply map_size_empty_iff; lia).
    rewrite (map_ext _ id), map_id;
      [|intros a; apply rewriteArg_no_cmdline].
    unfold ret. f_equal. destruct st; cbn in *. by subst.
  - rewrite Hargs. unfold put. by rewrite rewriteArgs_map.
Qed.

Lemma index_from_at c s t i :
  strings.ContainsAny s (str c) = false ->
  strings.index_from i (s ++ String c t) (str c)
  = Some (i + String.length s)%nat.
Proof.
  revert i. induction s as [|a s IH]; intros i Hs.
  - change ("" ++ String c t) with (String c t).
    cbn [strings.index_from]. rewrite prefix_single, Ascii.eqb_refl.
    f_equal. cbn. lia.
  - rewrite ContainsAny_cons in Hs. apply orb_false_iff in Hs as [Ha Hs].
    change (String a s ++ String c t) with (String a (s ++ String c t)).
    cbn [strings.index_from]. rewrite prefix_single, Ascii.eqb_sym, Ha.
    rewrite IH by done. f_equal. cbn. lia.
Qed.

(** A command-line shorthand is replaced by its flag name, with the value
    that is attached to it. *)
Theorem command_line_shorthand_expands shorthands cmdline
    (shorthand fullName value : string) :
  shorthands !! shorthand = Some fullName ->
  cmdline !! shorthand = Some true ->
  shorthand <> "" ->
  strings.ContainsAny shorthand "-=" = false ->
  rewriteArg shorthands cmdline ("-" ++ shorthand) = "-" ++ fullName
  /\ rewriteArg shorthands cmdline ("-" ++ shorthand ++ "=" ++ value)
     = "-" ++ fullName ++ "=" ++ value.
Proof.
  intros Hsh Hcmd Hne Hchars.
  assert (Heq : strings.ContainsAny shorthand (str "=") = false)
    by (by apply (ContainsAny_one _ _ _ Hchars)).
  assert (Hdash : strings.ContainsAny shorthand (str "-") = false)
    by (by apply (ContainsAny_one _ _ _ Hchars)).
  destruct shorthand as [|c s]; [done|].
  assert (Hc : Ascii.eqb c "-" = false).
  { rewrite ContainsAny_cons in Hdash. by apply orb_false_iff in Hdash as [? _]. }
  assert (Hguard : forall t,
            (1 <? len ("-" ++ String c s ++ t))
            && bool_decide (first_byte ("-" ++ String c s ++ t) = Some "-"%char)
            && negb (strings.HasPrefix ("-" ++ String c s ++ t) "--") = true).
  { intros t. change ("-" ++ String c s ++ t) with (String "-" (String c (s ++ t))).
    unfold strings.HasPrefix.
    change "--"%string with (String "-" (str "-")).
    rewrite prefix_cons, prefix_single, Ascii.eqb_refl, (Ascii.eqb_sym "-" c), Hc.
    cbn [first_byte andb negb]. rewrite bool_decide_eq_true_2 by done.
    unfold len. cbn [String.length]. rewrite !andb_true_r.
    apply Z.ltb_lt. lia. }
  split.
  - unfold rewriteArg.
    pose proof (Hguard "") as Hg. rewrite app_nil_r_str in Hg. rewrite Hg.
    change (drop_str 1 ("-" ++ String c s)) with (String c s).
    unfold strings.Index. change "="%string with (str "=").
    rewrite index_absent by done.
    change (0 <=? -1) with false. cbv iota.
    rewrite Hsh, Hcmd. cbn [default]. by rewrite app_nil_r_str.
  - unfold rewriteArg. rewrite (Hguard ("=" ++ value)).
    change (drop_str 1 ("-" ++ String c s ++ "=" ++ value))
      with (String c s ++ String "=" value).
    unfold strings.Index. change "="%string with (str "=") at 1 2 3.
    rewrite index_from_at by done.
    destruct (Z.leb_spec 0 (Z.of_nat (0 + String.length (String c s))));
      [|lia].
    unfold slice. rewrite Z.sub_0_r, Nat2Z.id. cbn [Nat.add].
    change (drop_str (Z.to_nat 0) ?x) with x.
    rewrite take_str_app, drop_str_app, Hsh, Hcmd. done.
Qed.

End ShorthandFacts.

(** ** The dump *)

Section DumpFacts.
Context {V : Type} {val : flag.Value V} {lib : GoLib}.

Lemma ascii_compare_N (a b : ascii) :
  Ascii.compare a b = (N_of_ascii a ?= N_of_ascii b)%N.
Proof. done. Qed.

Lemma string_leb_trans (s1 s2 s3 : string) :
  String.leb s1 s2 = true -> String.leb s2 s3 = true ->
  String.leb s1 s3 = true.
Proof.
  unfold String.leb. revert s2 s3.
  induction s1 as [|a s1 IH]; intros [|b s2] [|c s3]; cbn [String.compare];
    try done.
  rewrite !ascii_compare_N.
  destruct (N.compare_spec (N_of_ascii a) (N_of_ascii b)) as [Hab|Hab|Hab];
    destruct (N.compare_spec (N_of_ascii b) (N_of_ascii c)) as [Hbc|Hbc|Hbc];
    try done;
    destruct (N.compare_spec (N_of_ascii a) (N_of_ascii c)) as [Hac|Hac|Hac];
    try done; try lia.
  apply IH.
Qed.

Lemma insert_sorted_sorted (x : string * flag.Flag V) l :
  StronglySorted byName l -> StronglySorted byName (flag.insert_sorted x l).
Proof.
  induction 1 as [|y l Hl IH Hy]; cbn [flag.insert_sorted].
  - by repeat constructor.
  - destruct (String.leb (fst x) (fst y)) eqn:Hxy.
    + constructor; [by constructor|]. constructor; [done|].
      apply Forall_forall. intros z Hz.
      apply (string_leb_trans _ (fst y)); [done|].
      by apply (proj1 (Forall_forall _ _) Hy).
    + constructor; [done|].
      apply Forall_forall. intros z Hz.
      apply list_elem_of_In, insert_sorted_In in Hz as [->|Hz].
      * destruct (String.leb_total (fst x) (fst y)); [congruence|done].
      * by apply (proj1 (Forall_forall _ _) Hy), list_elem_of_In.
Qed.

Lemma sortFlags_sorted (l : list (string * flag.Flag V)) :
  StronglySorted byName (flag.sortFlags l).
Proof.
  induction l as [|x l IH]; [constructor|]. by apply insert_sorted_sorted.
Qed.

Lemma insert_sorted_perm (x : string * flag.Flag V) l :
  Permutation (flag.insert_sorted x l) (x :: l).
Proof.
  induction l as [|y l IH]; [done|]. cbn [flag.insert_sorted].
  destruct (String.leb (fst x) (fst y)); [done|].
  rewrite IH. apply perm_swap.
Qed.

Lemma sortFlags_perm (l : list (string * flag.Flag V)) :
  Permutation (flag.sortFlags l) l.
Proof.
  induction l as [|x l IH]; [done|]. cbn [flag.sortFlags fold_right].
  rewrite insert_sorted_perm. by constructor.
Qed.

Lemma filter_sorted {A} (R : A -> A -> Prop) (p : A -> bool) l :
  StronglySorted R l -> StronglySorted R (List.filter p l).
Proof.
  induction 1 as [|y l Hl IH Hy]; cbn [List.filter]; [constructor|].
  destruct (p y); [|done]. constructor; [done|].
  apply Forall_forall. intros z Hz.
  apply list_elem_of_In, filter_In in Hz as [Hz _].
  by apply (proj1 (Forall_forall _ _) Hy), list_elem_of_In.
Qed.

Lemma filter_NoDup_fst {A B} (p : A * B -> bool) (l : list (A * B)) :
  NoDup (map fst l) -> NoDup (map fst (List.filter p l)).
Proof.
  induction l as [|y l IH]; cbn [map List.filter]; [done|].
  intros Hnd. apply NoDup_cons in Hnd as [Hy Hnd].
  destruct (p y); [|by apply IH]. cbn [map]. apply NoDup_cons.
  split; [|by apply IH].
  intros Hin. apply Hy.
  apply list_elem_of_In, in_map_iff in Hin as (z & Hz & Hin).
  apply filter_In in Hin as [Hin _].
  apply list_elem_of_In, in_map_iff. by exists z.
Qed.

Lemma dump_fold (excluded : gmap string bool) (l : list (string * flag.Flag V))
    (out : string) :
  fold_left
    (fun out x =>
       match excluded !! fst x with
       | Some _ => out
       | None => out ++ dumpLine (fst x) (snd x)
       end) l out
  = out ++ concatLines
             (map (fun x => dumpLine (fst x) (snd x))
                (List.filter
                   (fun x => match excluded !! fst x with
                             | Some _ => false
                             | None => true
                             end) l)).
Proof.
  revert out. induction l as [|x l IH]; intros out;
    cbn [fold_left List.filter map concatLines].
  - by rewrite app_nil_r_str.
  - rewrite IH. destruct (excluded !! fst x); [done|].
    cbn [map concatLines]. by rewrite app_assoc_str.
Qed.

(** [dumpFlags] changes nothing but the output, to which it adds one line
    for each registered flag that is not excluded, and for no other name, in
    the order of the flag names. *)
Theorem dumpFlags_lists_flags_in_order (st : State V) :
  dumpFlags st
  = (Ok tt,
     with_stdout st
       (stdout st
        ++ concatLines (map (fun x => dumpLine (fst x) (snd x)) (dumped st))))
  /\ StronglySorted byName (dumped st)
  /\ NoDup (map fst (dumped st))
  /\ forall name f,
       In (name, f) (dumped st)
       <-> flag.Lookup (CommandLine st) name = Some f
           /\ flagsToExcludeFromDump st !! name = None.
Proof.
  split_and!.
  - unfold dumpFlags, bind, get, put. by rewrite dump_fold.
  - apply filter_sorted, sortFlags_sorted.
  - apply filter_NoDup_fst. unfold flag.VisitAll.
    rewrite sortFlags_perm. apply NoDup_fst_map_to_list.
  - intros name f. unfold dumped. rewrite filter_In, VisitAll_In.
    cbn [fst]. destruct (flagsToExcludeFromDump st !! name);
      split; intros [? ?]; done.
Qed.

(** A flag given to [ExcludeFlagFromDump] is left out of every later dump,
    and the other flags are dumped as before. *)
Theorem excluded_flag_is_not_dumped flagName (st : State V) :
  fst (ExcludeFlagFromDump flagName st) = Ok tt
  /\ dumped (snd (ExcludeFlagFromDump flagName st))
     = List.filter (fun x => negb (String.eqb (fst x) flagName)) (dumped st).
Proof.
  split; [done|]. unfold ExcludeFlagFromDump, bind, get, put, dumped.
  cbn [snd flagsToExcludeFromDump CommandLine with_flagsToExcludeFromDump].
  induction (flag.VisitAll (CommandLine st)) as [|x l IH];
    cbn [List.filter]; [done|].
  rewrite IH. destruct (String.eqb_spec (fst x) flagName) as [Heq|Hne].
  - rewrite Heq, lookup_insert_eq.
    destruct (flagsToExcludeFromDump st !! flagName); [done|].
    cbn [List.filter]. by rewrite Heq, String.eqb_refl.
  - rewrite lookup_insert_ne by done.
    destruct (flagsToExcludeFromDump st !! fst x); [done|].
    cbn [List.filter].
    by destruct (String.eqb_spec (fst x) flagName).
Qed.

End DumpFacts.

(** ** The properties at concrete inputs *)

(** C1 at a flag given on the command line and contradicted by the file. *)
Lemma C1_witness :
  let w := disk [("/a.ini", lines ["a = 1"; "config = /b.ini"])] in
  let st := started "/a.ini" [stringFlag "a" "0"] ["a"] in
  flag.Lookup (CommandLine (reloads [(2%nat, w)] (snd (parseConfigFlags 2 w st)))) "a"
  = flag.Lookup (CommandLine st) "a".
Proof.
  intros w st. apply C1_command_line_flags_never_change.
  apply (bool_decide_unpack _). by vm_compute.
Defined.

(** C2 at a failing pass that names a flag twice: the flag [a] holds [0]
    before the pass; the directives [a = 1] and [a = 2] are applied, the
    unknown key [zzz] fails the pass, and the rollback leaves [a] at [1],
    the value saved by the second directive. *)
Theorem C2_rollback_restores_intermediate_value :
  let w := disk [("/a.ini", lines ["a = 1"; "a = 2"; "zzz = 3"])] in
  let st := started "/a.ini" [stringFlag "a" "0"] [] in
  fst (parseConfigFlags 2 w st) = Ok (∅, false)
  /\ deref_string (CommandLine st) "a" = "0"
  /\ deref_string (CommandLine (snd (parseConfigFlags 2 w st))) "a" = "1".
Proof. by vm_compute. Qed.

(** A rejected value is not rolled back either: [boolValue.Set] stores
    [false] before it returns the parse error, and the merge loop saves no
    old value for a directive whose [Set] failed. *)
Lemma rollback_misses_rejected_value :
  let w := disk [("/a.ini", lines ["debug = maybe"])] in
  let st :=
    started "/a.ini"
      [("debug", {| flag.Usage := "Enable debug mode";
                    flag.value := boolValue true |})] [] in
  fst (parseConfigFlags 2 w st) = Ok (∅, false)
  /\ deref_string (CommandLine st) "debug" = "true"
  /\ deref_string (CommandLine (snd (parseConfigFlags 2 w st))) "debug"
     = "false".
Proof. by vm_compute. Qed.

(** A valid directive followed by a line that cannot be split: the pass
    fails and [a] keeps its value. *)
Lemma malformed_line_changes_nothing :
  let w := disk [("/a.ini", lines ["a = 1"; "no equals sign"])] in
  let st := started "/a.ini" [stringFlag "a" "0"] [] in
  parseConfigFlags 2 w st = (Ok (∅, false), st).
Proof. by vm_compute. Qed.

(** C3 (generation counter) fails at a reload that changes no flag.  A
    fresh process with the string flag [a] reads the file [a = 1], [a = 2]:
    [Parse] returns, leaves [a] at [2] and [Generation] at [1].  A reload of
    the unchanged file sets [a] to [1] and back to [2]; the registry is the
    same after the reload as before it, but the pass returns the map that
    saves [1] for [a], which is not empty, so [updateConfig] increments
    [Generation], and so does every further reload of the same file. *)
Theorem C3_noop_reload_bumps_generation :
  let w := disk [("/a.ini", lines ["a = 1"; "a = 2"])] in
  let st0 :=
    with_parsed (with_os_Args (started "" [stringFlag "a" "0"] [])
                   ["/bin/app"; "-config=/a.ini"]) false in
  let st1 := snd (Parse 2 w st0) in
  let st2 := snd (updateConfig 2 w st1) in
  let st3 := snd (updateConfig 2 w st2) in
  fst (Parse 2 w st0) = Ok tt
  /\ deref_string (CommandLine st1) "a" = "2"
  /\ fst (parseConfigFlags 2 w st1) = Ok ({[ "a" := "1" ]}, true)
  /\ CommandLine st2 = CommandLine st1
  /\ CommandLine st3 = CommandLine st1
  /\ Generation st1 = 1
  /\ Generation st2 = 2
  /\ Generation st3 = 3.
Proof. by vm_compute. Qed.

(** A reload of an unchanged file that names each flag once is counted as
    the claim says: [Parse] returns with [Generation = 1], and the reload
    leaves it there. *)
Lemma reload_of_unchanged_file_without_repeats :
  let w := disk [("/a.ini", lines ["a = 1"])] in
  let st :=
    with_parsed (with_os_Args (started "" [stringFlag "a" "0"] [])
                   ["/bin/app"; "-config=/a.ini"]) false in
  fst (Parse 2 w st) = Ok tt
  /\ Generation (snd (Parse 2 w st)) = 1
  /\ Generation (snd (updateConfig 2 w (snd (Parse 2 w st)))) = 1.
Proof. by vm_compute. Qed.

(** An accumulation with an empty base name is never pending: of the lines
    [{,}=a] and [{,}=b] the second starts anew, and the end of the source
    emits no directive. *)
Lemma empty_base_name_is_never_pending :
  let w := disk [("/a.ini", lines ["{,}=a"; "{,}=b"])] in
  fst (getArgsFromConfig 1 w "/a.ini" (started "/a.ini" [] [])) = Ok ([], true)
  /\ joinDirective
       {| lineNum := 2; comment := "";
          multilineFA := {| Key := ""; Value := "a"; FilePath := "/a.ini";
                            LineNum := 1; Comment := "" |};
          args := [] |}
       "{,}" "b"
       {| Key := "{,}"; Value := "b"; FilePath := "/a.ini"; LineNum := 2;
          Comment := "" |}
     = Continue
         {| lineNum := 2; comment := "";
            multilineFA := {| Key := ""; Value := "b"; FilePath := "/a.ini";
                              LineNum := 2; Comment := "" |};
            args := [] |}.
Proof. by vm_compute. Qed.

Lemma C4_witness :
  let p :=
    {| lineNum := 2; comment := "";
       multilineFA := {| Key := "m"; Value := "line1"; FilePath := "/a.ini";
                         LineNum := 1; Comment := "" |};
       args := [] |} in
  let fa :=
    {| Key := "m{,}"; Value := "line2"; FilePath := "/a.ini"; LineNum := 2;
       Comment := "" |} in
  joinDirective p (multilineKey "m" ",") "line2" fa
  = Continue
      {| lineNum := 2; comment := "";
         multilineFA := {| Key := "m"; Value := "line1,line2";
                           FilePath := "/a.ini"; LineNum := 1; Comment := "" |};
         args := [] |}.
Proof.
  intros p fa.
  assert (H1 : strings.ContainsAny "," "{" = false) by (by vm_compute).
  assert (H2 : strings.HasSuffix "x" "}" = false) by (by vm_compute).
  pose proof (C4_multiline_values_join
                (getArgsFromConfig 1 (disk [])) "/a.ini"
                (started "/a.ini" [] []) p "m" "," "x" "line2" fa H1 H2)
    as (_ & Hsame & _).
  exact Hsame.
Defined.

(** Only the marker [#] starts an import: the line [;import "/b.ini"] is a
    comment, and the directive of [/b.ini] is not spliced into the
    result. *)
Lemma semicolon_import_is_a_comment :
  let w :=
    disk [("/a.ini", lines [";import " ++ quoted "/b.ini"]);
          ("/b.ini", lines ["x = 1"])] in
  let st := started "/a.ini" [] [] in
  fst (getArgsFromConfig 2 w "/a.ini" st) = Ok ([], true)
  /\ fst (getArgsFromConfig 2 w "/b.ini" st)
     = Ok ([ {| Key := "x"; Value := "1"; FilePath := "/b.ini"; LineNum := 1;
                Comment := "" |} ], true).
Proof. by vm_compute. Qed.

(** Nor is the form the README prints, with a space after [#], an import. *)
Lemma readme_import_form_is_a_comment :
  let w :=
    disk [("/a.ini", lines ["# import " ++ quoted "/b.ini"]);
          ("/b.ini", lines ["x = 1"])] in
  fst (getArgsFromConfig 2 w "/a.ini" (started "/a.ini" [] [])) = Ok ([], true).
Proof. by vm_compute. Qed.

(** C5 (import) fails at an import line that follows an unfinished
    multi-line value.  The file [/a.ini] starts the multi-line value of [m]
    with [m{,} = a] and then imports [/b.ini], which holds [m = z].  The
    import branch appends the imported directive without flushing the
    pending value, so the directive of line 1 is emitted behind the imported
    one, and [m] ends at [a]: the imported directives are not spliced at the
    point of the import line, and a line before the import overrides them.
    With the plain line [m = a] in place of line 1 the order is the one of
    the source, and [m] ends at [z]. *)
Theorem C5_import_overtakes_multiline_value :
  let b := ("/b.ini", lines ["m = z"]) in
  let w := disk [("/a.ini", lines ["m{,} = a"; "#import " ++ quoted "/b.ini"]); b] in
  let w' := disk [("/a.ini", lines ["m = a"; "#import " ++ quoted "/b.ini"]); b] in
  let st := started "/a.ini" [stringFlag "m" ""] [] in
  let ma := {| Key := "m"; Value := "a"; FilePath := "/a.ini"; LineNum := 1;
               Comment := "" |} in
  let mz := {| Key := "m"; Value := "z"; FilePath := "/b.ini"; LineNum := 1;
               Comment := "" |} in
  fst (getArgsFromConfig 2 w "/a.ini" st) = Ok ([mz; ma], true)
  /\ deref_string (CommandLine (snd (parseConfigFlags 2 w st))) "m" = "a"
  /\ fst (getArgsFromConfig 2 w' "/a.ini" st) = Ok ([ma; mz], true)
  /\ deref_string (CommandLine (snd (parseConfigFlags 2 w' st))) "m" = "z".
Proof. by vm_compute. Qed.

(** The import line of the README example, read by the loop. *)
Lemma import_line_of_README_example :
  let w := disk [("/base.ini", baseIni); ("/dev.ini", devIni)] in
  let st := push "/dev.ini" (started "/dev.ini" [] []) in
  parseLine (getArgsFromConfig 1 w) "/dev.ini" (nextLine startLocals)
    ("#import " ++ quoted "/base.ini" ++ str LF) st
  = (Ok (Continue
           {| lineNum := 1; comment := ""; multilineFA := noFlagArg;
              args :=
                [ {| Key := "flag1"; Value := "value1"; FilePath := "/base.ini";
                     LineNum := 1; Comment := "" |};
                  {| Key := "flag2"; Value := "value2"; FilePath := "/base.ini";
                     LineNum := 2; Comment := "" |} ] |}), st).
Proof. by vm_compute. Qed.

(** Import precedence: the importing file overrides [flag2]. *)
Lemma import_precedence :
  let w := disk [("/base.ini", baseIni); ("/dev.ini", devIni)] in
  let st :=
    started "/dev.ini" [stringFlag "flag1" ""; stringFlag "flag2" ""] [] in
  let st' := snd (parseConfigFlags 2 w st) in
  deref_string (CommandLine st') "flag1" = "value1"
  /\ deref_string (CommandLine st') "flag2" = "foobar".
Proof. by vm_compute. Qed.

(** C6 at a string flag whose value is [a] between double quotes: the
    value has no character that makes [quoteValue] quote it, the dump line
    is [name = "a"  # usage of name], and parsing the dump into a fresh
    registry sets the flag to [a] without the quotes.  Nor does
    [unquoteValue] undo [quoteValue] on the value backslash, [n], [#]: the
    escaped backslash is read as the start of a line feed. *)
Theorem C6_dump_does_not_round_trip :
  let dumped := started "" [stringFlag "name" (quoted "a")] [] in
  let dump := stdout (snd (dumpFlags dumped)) in
  let w := disk [("/dump.ini", dump)] in
  let fresh := started "/dump.ini" [stringFlag "name" ""] [] in
  dump = "name = " ++ quoted "a" ++ "  # usage of name" ++ str LF
  /\ match fst (parseConfigFlags 2 w fresh) with
     | Ok (_, ok) => ok = true
     | _ => False
     end
  /\ deref_string (CommandLine (snd (parseConfigFlags 2 w fresh))) "name" = "a"
  /\ unquoteValue (quoteValue (quoted "a")) = Ok ("a", "", true)
  /\ unquoteValue (quoteValue (str backslash ++ "n#"))
     = Ok (str backslash ++ str LF ++ "#", "", true).
Proof. by vm_compute. Qed.

Lemma C7_witness :
  let w :=
    disk [("/a.ini", lines ["x = 1"; "#import " ++ quoted "/b.ini"]);
          ("/b.ini", lines ["# the base"; "#import " ++ quoted "/a.ini";
                            "y = 2"])] in
  let st := started "/a.ini" [stringFlag "x" "0"; stringFlag "y" "0"] [] in
  getArgsFromConfig 3 w "/a.ini" st = (Ok ([], false), st)
  /\ parseConfigFlags 3 w st = (Ok (∅, false), st).
Proof.
  intros w st.
  apply (C7_cyclic_import_fails_cleanly 0 w st "/a.ini" "/b.ini"
           {| content := lines ["x = 1"; "#import " ++ quoted "/b.ini"];
              ending := EOF |}
           {| content := lines ["# the base"; "#import " ++ quoted "/a.ini";
                                "y = 2"];
              ending := EOF |}
           ["x = 1" ++ str LF] ("#import " ++ quoted "/b.ini" ++ str LF) []
           ["# the base" ++ str LF] ("#import " ++ quoted "/a.ini" ++ str LF)
           ["y = 2" ++ str LF]
           {| lineNum := 1; comment := ""; multilineFA := noFlagArg;
              args := [ {| Key := "x"; Value := "1"; FilePath := "/a.ini";
                           LineNum := 1; Comment := "" |} ] |}
           {| lineNum := 1; comment := " the base"; multilineFA := noFlagArg;
              args := [] |});
    by vm_compute.
Defined.

Lemma C8_witness :
  unquoteValue (" " ++ str dquote ++ "abc")
  = Panic "slice bounds out of range"
  /\ unquoteValue (" " ++ str dquote ++ "abc") <> Ok ("", "", false).
Proof.
  apply (C8_unclosed_quote_panics (" " ++ str dquote ++ "abc") "abc");
    by vm_compute.
Defined.

Lemma C9_witness :
  let st := started "https://example.com/c.ini" [] [] in
  openConfigFile notFound st "https://example.com/c.ini" = (None, None)
  /\ fst (getArgsFromConfig 1 notFound "https://example.com/c.ini" st)
     = Panic "invalid memory address or nil pointer dereference".
Proof.
  intros st.
  apply (C9_bad_status_returns_nil_error notFound st
           "https://example.com/c.ini"
           {| StatusCode := 404;
              Body := {| content := "not found"; ending := EOF |} |} 0).
  - by vm_compute.
  - left. by vm_compute.
  - by vm_compute.
  - by vm_compute.
  - by vm_compute.
Defined.

Lemma C10_witness :
  let st := started "/a.ini" [stringFlag "a" "0"] [] in
  let w := disk [("/a.ini", lines ["a = 5"])] in
  let merged :=
    mergeArgs (flagShorthands st) (getMissingFlags (CommandLine st))
      failingArgs (CommandLine st, ∅, true) in
  let st2 := with_CommandLine st (restore (snd (fst merged)) (fst (fst merged))) in
  ("a" ∉ flag.actual (CommandLine st))
  /\ ("a" ∈ flag.actual (CommandLine st2))
  /\ ("a" ∉ getMissingFlags (CommandLine st2))
  /\ flag.Lookup (CommandLine (reloads [(2%nat, w)] st2)) "a"
     = flag.Lookup (CommandLine st2) "a".
Proof.
  intros st w merged st2.
  apply (C10_rolled_back_flag_is_frozen st failingArgs
           (fst (fst merged)) (snd (fst merged)) "a" "0"
           {| flag.Usage := "usage of a"; flag.value := stringValue "1" |}
           [(2%nat, w)]);
    by vm_compute.
Defined.

(** ** Further properties at concrete inputs *)

(** *** The parser *)

Lemma getArgsFromConfig_terminates_witness :
  let w :=
    disk [("/a.ini", lines ["#import " ++ quoted "/b.ini"]);
          ("/b.ini", lines ["#import " ++ quoted "/a.ini"])] in
  fst (getArgsFromConfig 3 w "/a.ini" (started "/a.ini" [] [])) <> Diverge.
Proof.
  intros w.
  apply (getArgsFromConfig_terminates w ["/a.ini"; "/b.ini"]).
  - intros path f.
    destruct (decide (path = "/a.ini")) as [->|Ha]; [by left|].
    destruct (decide (path = "/b.ini")) as [->|Hb]; [by right; left|].
    unfold w, disk. cbn [os_Open list_to_map foldr fst snd curry].
    rewrite !lookup_insert_ne by done. by rewrite lookup_empty.
  - by intros path r.
  - vm_compute. lia.
Defined.

Lemma inert_lines_emit_nothing_witness :
  let st := started "/a.ini" [] [] in
  readLoop (getArgsFromConfig 1 (disk [])) "/a.ini" EOF
    ["# a comment" ++ str LF; str LF; "[section]" ++ str LF; "; another"]
    startLocals st
  = (Ok ([], true), st).
Proof.
  intros st.
  assert (H : allInert (lineNum startLocals)
                ["# a comment" ++ str LF; str LF; "[section]" ++ str LF;
                 "; another"] = true) by (by vm_compute).
  exact (inert_lines_emit_nothing (getArgsFromConfig 1 (disk [])) "/a.ini" EOF
           _ startLocals st H).
Defined.

Lemma unreadable_line_aborts_witness :
  let st := started "/a.ini" [] [] in
  readLoop (getArgsFromConfig 1 (disk [])) "/a.ini" EOF
    (["a = 1" ++ str LF] ++ ("no equals sign" ++ str LF) :: ["b = 2" ++ str LF])
    startLocals st
  = (Ok ([], false), st).
Proof.
  intros st.
  apply (unreadable_line_aborts (getArgsFromConfig 1 (disk [])) "/a.ini" EOF
           ["a = 1" ++ str LF] ("no equals sign" ++ str LF)
           ["b = 2" ++ str LF] startLocals
           {| lineNum := 1; comment := ""; multilineFA := noFlagArg;
              args := [ {| Key := "a"; Value := "1"; FilePath := "/a.ini";
                           LineNum := 1; Comment := "" |} ] |} st).
  - by vm_compute.
  - right. by vm_compute.
Defined.

Lemma first_line_BOM_ignored_witness :
  let st := started "/a.ini" [] [] in
  parseLine (getArgsFromConfig 1 (disk [])) "/a.ini" (nextLine startLocals)
    (bomFEFF ++ "a = 1" ++ str LF) st
  = parseLine (getArgsFromConfig 1 (disk [])) "/a.ini" (nextLine startLocals)
      ("a = 1" ++ str LF) st.
Proof.
  intros st.
  apply (first_line_BOM_ignored (getArgsFromConfig 1 (disk [])) "/a.ini"
           (nextLine startLocals) bomFEFF ("a = 1" ++ str LF) st).
  - by vm_compute.
  - by left.
  - by vm_compute.
Defined.

Lemma missing_config_file_witness :
  let st := started "/missing.ini" [stringFlag "a" "0"] [] in
  parseConfigFlags 1 (disk []) st = (Ok (∅, false), st).
Proof.
  intros st.
  assert (H1 : resolveConfig st = ("/missing.ini", true)) by (by vm_compute).
  assert (H2 : "/missing.ini" <> "") by done.
  assert (H3 : checkImportRecursion st "/missing.ini" = true)
    by (by vm_compute).
  assert (H4 : openConfigFile (disk []) st "/missing.ini"
               = (None, Some "open failed")) by (by vm_compute).
  exact (missing_config_file 0 (disk []) "/missing.ini" st "open failed"
           H1 H2 H3 H4).
Defined.

Lemma missing_import_witness :
  let st := push "/a.ini" (started "/a.ini" [] []) in
  parseLine (getArgsFromConfig 1 (disk [])) "/a.ini" (nextLine startLocals)
    ("#import " ++ quoted "/b.ini" ++ str LF) st
  = (Ok (Return ([], false)), st).
Proof.
  intros st.
  assert (H1 : importTarget "/a.ini" (lineNum (nextLine startLocals))
                 ("#import " ++ quoted "/b.ini" ++ str LF) = Some "/b.ini")
    by (by vm_compute).
  assert (H2 : checkImportRecursion st "/b.ini" = true) by (by vm_compute).
  assert (H3 : openConfigFile (disk []) st "/b.ini"
               = (None, Some "open failed")) by (by vm_compute).
  exact (missing_import 0 (disk []) "/a.ini" (nextLine startLocals)
           ("#import " ++ quoted "/b.ini" ++ str LF) "/b.ini" st "open failed"
           H1 H2 H3).
Defined.

Lemma no_config_no_change_witness :
  let st := started "" [stringFlag "a" "0"] [] in
  parseConfigFlags 2 (disk [("/a.ini", lines ["a = 1"])]) st
  = (Ok (∅, true), st).
Proof.
  intros st. apply no_config_no_change; by vm_compute.
Defined.

Lemma plaintext_is_not_read_without_unsecure_witness :
  let answering :=
    {| os_Open _ := None;
       http_Get path :=
         if String.eqb path "http://example.com/c.ini"
         then Some {| StatusCode := 200;
                      Body := {| content := lines ["a = 1"]; ending := EOF |} |}
         else None |} in
  let silent := {| os_Open _ := None; http_Get _ := None |} in
  let st := started "http://example.com/c.ini" [stringFlag "a" "0"] [] in
  getArgsFromConfig 2 silent "http://example.com/c.ini" st
  = getArgsFromConfig 2 answering "http://example.com/c.ini" st.
Proof.
  intros answering silent st.
  apply plaintext_is_not_read_without_unsecure.
  - done.
  - intros path Hsecure. cbn [http_Get answering silent].
    destruct (String.eqb_spec path "http://example.com/c.ini") as [->|_];
      [|done].
    by vm_compute in Hsecure.
  - by vm_compute.
Defined.

Lemma parse_failure_changes_nothing_witness :
  let w := disk [("/a.ini", lines ["a = 1"; "no equals sign"])] in
  let st := started "/a.ini" [stringFlag "a" "0"] [] in
  snd (parseConfigFlags 2 w st) = st.
Proof.
  intros w st.
  apply (parse_failure_changes_nothing 2 w st "/a.ini").
  - by vm_compute.
  - intros parsedArgs. by vm_compute.
Defined.

(** *** Quoting *)

Lemma unquoted_value_has_no_comment_marker_witness :
  strings.ContainsAny "abc" "#" = false /\ strings.ContainsAny "abc" ";" = false.
Proof.
  apply (unquoted_value_has_no_comment_marker " abc # a comment" "abc"
           " a comment"); by vm_compute.
Defined.

Lemma escapeUsage_removes_specials_witness :
  strings.ContainsAny (escapeUsage ("a" ++ str (byte 9) ++ "b")) (str (byte 9))
  = false.
Proof.
  apply escapeUsage_removes_specials. by left.
Defined.

Lemma unquote_quote_quoted_value_witness :
  exists cmt, unquoteValue (quoteValue "a#b") = Ok ("a#b", cmt, true).
Proof.
  apply unquote_quote_quoted_value; [by vm_compute|left; by vm_compute].
Defined.

Lemma unquote_quote_plain_value_witness :
  unquoteValue (quoteValue "abc") = Ok ("abc", "", true).
Proof.
  apply unquote_quote_plain_value; by vm_compute.
Defined.

(** *** Merge passes *)

Lemma successful_pass_reports_every_change_witness :
  let w := disk [("/a.ini", lines ["a = 1"])] in
  let st := started "/a.ini" [stringFlag "a" "0"; stringFlag "b" "0"] [] in
  let old : gmap string string := {[ "a" := "0" ]} in
  let fs' := CommandLine (snd (parseConfigFlags 2 w st)) in
  (forall name, old !! name = None ->
     deref_string fs' name = deref_string (CommandLine st) name)
  /\ (forall name v, old !! name = Some v ->
        deref_string fs' name <> v
        /\ name ∈ getMissingFlags (CommandLine st)
        /\ is_Some (flag.Lookup fs' name))
  /\ flag.actual fs' = flag.actual (CommandLine st).
Proof.
  intros w st old.
  assert (H : fst (parseConfigFlags 2 w st) = Ok (old, true))
    by (by vm_compute).
  exact (successful_pass_reports_every_change 2 w st old H).
Defined.

Lemma failed_directive_fails_pass_witness :
  let st := started "/a.ini" [stringFlag "a" "0"] [] in
  let a1 := {| Key := "a"; Value := "1"; FilePath := "/a.ini"; LineNum := 1;
               Comment := "" |} in
  let zzz := {| Key := "zzz"; Value := "3"; FilePath := "/a.ini"; LineNum := 2;
                Comment := "" |} in
  let a2 := {| Key := "a"; Value := "2"; FilePath := "/a.ini"; LineNum := 3;
               Comment := "" |} in
  snd (mergeArgs ∅ (getMissingFlags (CommandLine st)) ([a1] ++ zzz :: [a2])
         (CommandLine st, ∅, true)) = false.
Proof.
  intros st a1 zzz a2.
  apply failed_directive_fails_pass. by vm_compute.
Defined.

Lemma unnamed_flag_is_untouched_witness :
  let st := started "/a.ini" [stringFlag "a" "0"; stringFlag "b" "0"] [] in
  flag.Lookup
    (fst (fst (mergeArgs ∅ (getMissingFlags (CommandLine st)) failingArgs
                 (CommandLine st, ∅, true)))) "b"
  = flag.Lookup (CommandLine st) "b".
Proof.
  intros st.
  apply (unnamed_flag_is_untouched ∅ (getMissingFlags (CommandLine st))
           failingArgs (CommandLine st, ∅, true) "b").
  intros arg [<-|[<-|[]]]; split; done.
Defined.

(** *** Change notification *)

Lemma reload_notifies_changed_flags_witness :
  let w := disk [("/a.ini", lines ["a = 1"])] in
  let st :=
    with_flagChangeCallbacks (started "/a.ini" [stringFlag "a" "0"] [])
      {[ "a" := [7%nat; 8%nat] ]} in
  exists pre post,
    invoked (snd (updateConfig 2 w st))
    = (invoked st ++ pre ++ [7%nat; 8%nat] ++ post)%list.
Proof.
  intros w st.
  apply (reload_notifies_changed_flags 2 w st {[ "a" := "0" ]} "a");
    by vm_compute.
Defined.

Lemma Parse_twice_panics_witness :
  let w := disk [("/a.ini", lines ["a = 1"])] in
  let st :=
    with_parsed (with_os_Args (started "" [stringFlag "a" "0"] [])
                   ["/bin/app"; "-config=/a.ini"]) false in
  Parse 2 w (snd (Parse 2 w st))
  = (Panic "iniflags: duplicate call to iniflags.Parse() detected",
     snd (Parse 2 w st)).
Proof.
  intros w st. apply Parse_twice_panics. by vm_compute.
Defined.

Lemma Parse_runs_every_callback_witness :
  let w := disk [("/a.ini", lines ["a = 1"])] in
  let st :=
    with_flagChangeCallbacks
      (with_parsed (with_os_Args (started "" [stringFlag "a" "0"] [])
                      ["/bin/app"; "-config=/a.ini"]) false)
      {[ "a" := [7%nat] ]} in
  let st' := snd (Parse 2 w st) in
  callbacks_registered st'
  /\ flagChangeCallbacks st' = flagChangeCallbacks st
  /\ exists l,
       invoked st' = (invoked st ++ l)%list
       /\ Permutation l (concat (map snd (map_to_list (flagChangeCallbacks st))))
       /\ forall name cs, flagChangeCallbacks st !! name = Some cs ->
            exists pre post, l = (pre ++ cs ++ post)%list.
Proof.
  intros w st.
  assert (H : fst (Parse 2 w st) = Ok tt) by (by vm_compute).
  exact (Parse_runs_every_callback 2 w st H).
Defined.

Lemma OnFlagChange_after_Parse_witness :
  let st := started "/a.ini" [stringFlag "a" "0"] [] in
  callbacks_registered (snd (OnFlagChange "a" 7%nat st))
  /\ fst (OnFlagChange "a" 7%nat st) = Ok tt
  /\ flagChangeCallbacks (snd (OnFlagChange "a" 7%nat st)) !! "a"
     = Some [7%nat].
Proof.
  intros st.
  assert (H1 : parsed st = true) by done.
  assert (H2 : callbacks_registered st).
  { intros name [cs Hcs].
    change ((∅ : gmap string (list FlagChangeCallback)) !! name = Some cs)
      in Hcs.
    by rewrite lookup_empty in Hcs. }
  exact (OnFlagChange_after_Parse "a" 7%nat st H1 H2).
Defined.

(** *** Shorthands *)

Lemma registered_shorthand_is_never_rebound_witness :
  let st :=
    with_flagShorthands
      (with_parsed
         (started "" [stringFlag "verbose" ""; stringFlag "version" ""] [])
         false)
      {[ "v" := "verbose" ]} in
  flagShorthands (snd (RegisterShorthand "v" "version" st)) !! "v"
  = Some "verbose"
  /\ flagShorthands (snd (RegisterCommandLineShorthand "v" "version" st)) !! "v"
     = Some "verbose".
Proof.
  intros st.
  apply (registered_shorthand_is_never_rebound "v" "verbose" "v" "version" st).
  by vm_compute.
Defined.

Lemma registration_keeps_shorthands_wf_witness :
  let st := with_parsed (started "" [stringFlag "verbose" ""] []) false in
  shorthands_wf (snd (RegisterShorthand "v" "verbose" st))
  /\ shorthands_wf (snd (RegisterCommandLineShorthand "v" "verbose" st)).
Proof.
  intros st. apply registration_keeps_shorthands_wf.
  split.
  - intros shorthand fullName Hs.
    change ((∅ : gmap string string) !! shorthand = Some fullName) in Hs.
    by rewrite lookup_empty in Hs.
  - intros shorthand [b Hs].
    change ((∅ : gmap string bool) !! shorthand = Some b) in Hs.
    by rewrite lookup_empty in Hs.
Defined.

Lemma shorthands_rewrite_each_argument_witness :
  let st :=
    with_commandLineShorthands
      (with_flagShorthands
         (with_os_Args (started "" [stringFlag "verbose" ""] [])
            ["/bin/app"; "-v"; "1"; "-v=2"; "--v"])
         {[ "v" := "verbose" ]})
      {[ "v" := true ]} in
  handleCommandLineShorthands st
  = (Ok tt,
     with_os_Args st ["/bin/app"; "-verbose"; "1"; "-verbose=2"; "--v"]).
Proof.
  intros st.
  assert (H : os_Args st = "/bin/app" :: ["-v"; "1"; "-v=2"; "--v"]) by done.
  exact (shorthands_rewrite_each_argument "/bin/app" _ st H).
Defined.

Lemma command_line_shorthand_expands_witness :
  let shorthands : gmap string string := {[ "v" := "verbose" ]} in
  let cmdline : gmap string bool := {[ "v" := true ]} in
  rewriteArg shorthands cmdline ("-" ++ "v") = "-" ++ "verbose"
  /\ rewriteArg shorthands cmdline ("-" ++ "v" ++ "=" ++ "1")
     = "-" ++ "verbose" ++ "=" ++ "1".
Proof.
  intros shorthands cmdline.
  apply command_line_shorthand_expands; by vm_compute.
Defined.
